(** * OVERCLOCK: the simulation core of [src/game/main.py]

    A shallow embedding of the per-frame simulation of the game (hero,
    surges, enemies, emitters, the [Game] object and its update passes)
    together with the properties of the specification that concern it.

    Modelling conventions.
    - Python floats are exact rationals ([Q]); a test
      [a.distance_to(b) <= R] is the comparison of the squared distance
      with [R*R] (for [0 <= R]), so no square root is taken.
    - Python ints ([hp], [dmg], [tier], the overclock meter, the score,
      radii) are [Z].
    - The [random] module is a stream of draws [nat -> Q]; every call of
      [random.random], [random.uniform], [random.randint] or
      [random.choice] consumes one draw [u] (meant to lie in [0,1)) and
      computes its result from [u].
    - Objects that the source mutates in place (enemies, the hero, the
      game) are records threaded through the passes; an element of a Python
      list that is mutated through an alias is updated at its index.
    - Rendering-only data (colours, particles, the spin angle of an enemy,
      fonts and surfaces) is left out; [spark] still consumes its draws.
      Calls of [sfx.play] are recorded in a log of cue names. *)

From Stdlib Require Import String ZArith QArith Qround Qabs List Bool Lia Lqa.
Import ListNotations.
Open Scope Q_scope.

(** ** Numbers *)

Definition Qltb (a b : Q) : bool := negb (Qle_bool b a).

(** Python's [max(a, b)]: [b] when [b > a], else [a]. *)
Definition pymax (a b : Q) : Q := if Qltb a b then b else a.
Definition pymin (a b : Q) : Q := if Qltb b a then b else a.

(** [clamp(v, a, b)], on floats and on ints. *)
Definition clamp (v a b : Q) : Q :=
  if Qltb v a then a else if Qltb b v then b else v.

Definition clampZ (v a b : Z) : Z :=
  if (v <? a)%Z then a else if (b <? v)%Z then b else v.

(** The built-in [round] of a float: to the nearest integer, ties to even. *)
Definition py_round (q : Q) : Z :=
  let f := Qfloor q in
  match Qcompare (q - inject_Z f) (1 # 2) with
  | Lt => f
  | Gt => (f + 1)%Z
  | Eq => if Z.even f then f else (f + 1)%Z
  end.

(** ** Constants of the source *)

Definition W : Q := 960.
Definition H : Q := 540.
Definition FPS : Q := 60.
Definition GRID : Q := 48.
Definition JUNC_TOL : Q := 6.

Definition HERO_R : Z := 8.
Definition HERO_SPEED : Q := 260.
Definition HERO_IFRAMES : Q := 1.
Definition HERO_SHOT_CD : Q := 22 # 100.
Definition HERO_HP : Z := 5.

Definition SURGE_R : Z := 5.
Definition SURGE_LEN : Q := 19 # 10.
Definition SURGE_SPEED_PLAYER : Q := 560.
Definition SURGE_SPEED_ENEMY : Q := 460.
Definition SURGE_SPEED_NATURAL : Q := 520.

Definition OC_FILL_PER_CANCEL : Z := 8.
Definition OC_FILL_PER_KILL : Z := 12.
Definition OC_MAX : Z := 200.
Definition OC_SURGE_R : Z := 10.
Definition OC_SURGE_SPEED : Q := 700.
Definition OC_SURGE_TTL : Q := 16 # 10.
Definition OC_SURGE_DMG : Z := 2.
Definition OC_BLAST_SHAKE_TIME : Q := 9 # 10.
Definition OC_BLAST_SHAKE_STRENGTH : Q := 6.

Definition VIRUS_BASE_R : Z := 22.
Definition BUG_R : Z := 14.
Definition WORM_R : Z := 18.
Definition VIRUS_SPEED : Q := 90.
Definition BUG_SPEED : Q := 150.
Definition WORM_SPEED : Q := 110.
Definition VIRUS_SHOOT_CD : Q * Q := (13 # 10, 19 # 10).
Definition BUG_SHOOT_CD : Q * Q := (85 # 100, 115 # 100).
Definition WORM_SHOOT_CD : Q * Q := (18 # 10, 24 # 10).

Definition SECTOR_START_ENEMIES : Z * Z * Z := (2, 2, 1)%Z.
Definition NAT_SURGE_EVERY : Q * Q := (24 # 10, 38 # 10).
Definition MAX_ENEMIES_ON_FIELD : nat := 18.

Definition SHAKE_DECAY : Q := 40.
Definition SHAKE_SHOOT : Q := 1.

(** ** Vectors ([pygame.Vector2]) *)

Record Vec : Type := mkVec { vx : Q; vy : Q }.

Definition vadd (a b : Vec) : Vec := mkVec (vx a + vx b) (vy a + vy b).
Definition vsub (a b : Vec) : Vec := mkVec (vx a - vx b) (vy a - vy b).
Definition vscale (a : Vec) (k : Q) : Vec := mkVec (vx a * k) (vy a * k).
Definition vdiv (a : Vec) (k : Q) : Vec := mkVec (vx a / k) (vy a / k).
Definition length_squared (a : Vec) : Q := vx a * vx a + vy a * vy a.

(** [a.distance_to(b) <= R]. *)
Definition within (a b : Vec) (R : Q) : bool :=
  Qle_bool 0 R && Qle_bool (length_squared (vsub a b)) (R * R).

Definition CENTER : Vec := mkVec (W / 2) (H / 2).

Definition RIGHT : Vec := mkVec 1 0.
Definition LEFT : Vec := mkVec (-1) 0.
Definition DOWN : Vec := mkVec 0 1.
Definition UP : Vec := mkVec 0 (-1).

(** ** Helpers *)

Definition near_grid (v : Q) : bool :=
  Qle_bool (Qabs (v - inject_Z (py_round (v / GRID)) * GRID)) JUNC_TOL.

Definition at_intersection (p : Vec) : bool :=
  near_grid (vx p) && near_grid (vy p).

(** [snap_axis] mutates [p]; here it returns the snapped position. *)
Definition snap_axis (p dirv : Vec) : Vec :=
  let xg := inject_Z (py_round (vx p / GRID)) * GRID in
  let yg := inject_Z (py_round (vy p / GRID)) * GRID in
  let p1 := if Qltb 0 (Qabs (vx dirv)) then mkVec (vx p) yg else p in
  if Qltb 0 (Qabs (vy dirv)) then mkVec xg (vy p1) else p1.

Definition cardinal_from (v : Vec) : Vec :=
  if Qeq_bool (length_squared v) 0 then mkVec 1 0
  else if Qle_bool (Qabs (vy v)) (Qabs (vx v))
       then mkVec (if Qle_bool 0 (vx v) then 1 else -1) 0
       else mkVec 0 (if Qle_bool 0 (vy v) then 1 else -1).

(** ** The random source *)

Definition Rng : Type := nat -> Q.

Definition random (r : Rng) : Q * Rng := (r 0%nat, fun n => r (S n)).

Definition skip (k : nat) (r : Rng) : Rng := fun n => r (k + n)%nat.

Definition uniform (a b : Q) (r : Rng) : Q * Rng :=
  let (u, r') := random r in (a + (b - a) * u, r').

Definition rand_between (a_b : Q * Q) (r : Rng) : Q * Rng :=
  uniform (fst a_b) (snd a_b) r.

(** [random.randint(a, b)], both ends included. *)
Definition randint (a b : Z) (r : Rng) : Z * Rng :=
  let (u, r') := random r in ((a + Qfloor (u * inject_Z (b - a + 1)))%Z, r').

(** [random.choice(seq)]; [d] stands for the element of an empty or
    out-of-range pick, which the call sites (fixed non-empty lists) never
    reach for draws in [0,1). *)
Definition choice {A : Type} (d : A) (l : list A) (r : Rng) : A * Rng :=
  let (u, r') := random r in
  (nth (Z.to_nat (Qfloor (u * inject_Z (Z.of_nat (length l))))) l d, r').

(** The draws of a frame lie in [0,1). *)
Definition unit_draws (r : Rng) : Prop := forall n, 0 <= r n /\ r n < 1.

(** ** Surges *)

Inductive Owner : Type := player | enemy | natural | oc.

Definition Owner_eqb (a b : Owner) : bool :=
  match a, b with
  | player, player | enemy, enemy | natural, natural | oc, oc => true
  | _, _ => false
  end.

Module Surge.

Record t : Type := mk {
  pos : Vec;
  dir : Vec;
  speed : Q;
  ttl : Q;
  owner : Owner;
  r : Z;
  dmg : Z;
  pierce : bool;
  trail : list Vec
}.

Definition set_pos (v : Vec) (s : t) : t :=
  mk v (dir s) (speed s) (ttl s) (owner s) (r s) (dmg s) (pierce s) (trail s).
Definition set_dir (v : Vec) (s : t) : t :=
  mk (pos s) v (speed s) (ttl s) (owner s) (r s) (dmg s) (pierce s) (trail s).
Definition set_speed (v : Q) (s : t) : t :=
  mk (pos s) (dir s) v (ttl s) (owner s) (r s) (dmg s) (pierce s) (trail s).
Definition set_ttl (v : Q) (s : t) : t :=
  mk (pos s) (dir s) (speed s) v (owner s) (r s) (dmg s) (pierce s) (trail s).
Definition set_owner (v : Owner) (s : t) : t :=
  mk (pos s) (dir s) (speed s) (ttl s) v (r s) (dmg s) (pierce s) (trail s).
Definition set_r (v : Z) (s : t) : t :=
  mk (pos s) (dir s) (speed s) (ttl s) (owner s) v (dmg s) (pierce s) (trail s).
Definition set_dmg (v : Z) (s : t) : t :=
  mk (pos s) (dir s) (speed s) (ttl s) (owner s) (r s) v (pierce s) (trail s).
Definition set_pierce (v : bool) (s : t) : t :=
  mk (pos s) (dir s) (speed s) (ttl s) (owner s) (r s) (dmg s) v (trail s).
Definition set_trail (v : list Vec) (s : t) : t :=
  mk (pos s) (dir s) (speed s) (ttl s) (owner s) (r s) (dmg s) (pierce s) v.

(** [Surge.__init__]: the direction is made cardinal, the trail is empty. *)
Definition new (p dirv : Vec) (sp : Q) (o : Owner) (rad : Z) (life : Q)
    (d : Z) (prc : bool) : t :=
  mk p (cardinal_from dirv) sp life o rad d prc [].

(** The call sites that rely on the defaults
    [r=SURGE_R, ttl=SURGE_LEN, dmg=1, pierce=False]. *)
Definition new_default (p dirv : Vec) (sp : Q) (o : Owner) : t :=
  new p dirv sp o SURGE_R SURGE_LEN 1%Z false.

(** [deque(maxlen=12).append]: the oldest entry is dropped when full. *)
Definition trail_append (tr : list Vec) (p : Vec) : list Vec :=
  let l := tr ++ [p] in skipn (length l - 12) l.

(** [Surge.update]: the surge after the move and whether it stays alive. *)
Definition update (dt : Q) (s : t) : bool * t :=
  let tr := trail_append (trail s) (pos s) in
  let p1 := vadd (pos s) (vscale (vscale (dir s) (speed s)) dt) in
  let ttl1 := ttl s - dt in
  let p2 := snap_axis p1 (dir s) in
  let s' := set_trail tr (set_ttl ttl1 (set_pos p2 s)) in
  (Qltb 0 ttl1 && (Qltb (-20) (vx p2) && Qltb (vx p2) (W + 20))
               && (Qltb (-20) (vy p2) && Qltb (vy p2) (H + 20)), s').

End Surge.

(** ** Enemies *)

(** The concrete class of an enemy, with the attributes only that class
    has ([tier] of a Virus, [drop_t] of a Worm). *)
Inductive Kind : Type :=
| Virus (tier : Z)
| Bug
| Worm (drop_t : Q).

Module Enemy.

Record t : Type := mk {
  kind : Kind;
  pos : Vec;
  r : Z;
  hp : Z;
  dir : Vec;
  turn_bias : Q;
  shoot_t : Q;
  rep_cd : Q
}.

Definition set_kind (v : Kind) (e : t) : t :=
  mk v (pos e) (r e) (hp e) (dir e) (turn_bias e) (shoot_t e) (rep_cd e).
Definition set_pos (v : Vec) (e : t) : t :=
  mk (kind e) v (r e) (hp e) (dir e) (turn_bias e) (shoot_t e) (rep_cd e).
Definition set_r (v : Z) (e : t) : t :=
  mk (kind e) (pos e) v (hp e) (dir e) (turn_bias e) (shoot_t e) (rep_cd e).
Definition set_hp (v : Z) (e : t) : t :=
  mk (kind e) (pos e) (r e) v (dir e) (turn_bias e) (shoot_t e) (rep_cd e).
Definition set_dir (v : Vec) (e : t) : t :=
  mk (kind e) (pos e) (r e) (hp e) v (turn_bias e) (shoot_t e) (rep_cd e).
Definition set_turn_bias (v : Q) (e : t) : t :=
  mk (kind e) (pos e) (r e) (hp e) (dir e) v (shoot_t e) (rep_cd e).
Definition set_shoot_t (v : Q) (e : t) : t :=
  mk (kind e) (pos e) (r e) (hp e) (dir e) (turn_bias e) v (rep_cd e).
Definition set_rep_cd (v : Q) (e : t) : t :=
  mk (kind e) (pos e) (r e) (hp e) (dir e) (turn_bias e) (shoot_t e) v.

(** [type(ei) is type(ej)]. *)
Definition same_type (a b : t) : bool :=
  match kind a, kind b with
  | Virus _, Virus _ | Bug, Bug | Worm _, Worm _ => true
  | _, _ => false
  end.

Definition is_Virus (e : t) : bool :=
  match kind e with Virus _ => true | _ => false end.

(** [Enemy.__init__]: four draws (direction, [shoot_t], [spin], [angle]). *)
Definition init (k : Kind) (p : Vec) (rad hp0 : Z) (g : Rng) : t * Rng :=
  let (d, g1) := choice RIGHT [RIGHT; LEFT; DOWN; UP] g in
  let (st, g2) := rand_between (1, 16 # 10) g1 in
  let (_, g3) := uniform (-2) 2 g2 in
  let (_, g4) := random g3 in
  (mk k p rad hp0 d (25 # 100) st 0, g4).

(** [Virus.__init__(pos, tier)]. *)
Definition new_Virus (p : Vec) (tier : Z) (g : Rng) : t * Rng :=
  let rad := if (tier =? 2)%Z then VIRUS_BASE_R
             else if (tier =? 1)%Z then (VIRUS_BASE_R - 6)%Z
             else (VIRUS_BASE_R - 10)%Z in
  let hp0 := if (tier =? 2)%Z then 3%Z
             else if (tier =? 1)%Z then 2%Z else 1%Z in
  let (e, g1) := init (Virus tier) p rad hp0 g in
  let (st, g2) := rand_between VIRUS_SHOOT_CD g1 in
  (set_shoot_t st (set_turn_bias (18 # 100) e), g2).

(** [Bug.__init__(pos)]. *)
Definition new_Bug (p : Vec) (g : Rng) : t * Rng :=
  let (e, g1) := init Bug p BUG_R 2%Z g in
  let (st, g2) := rand_between BUG_SHOOT_CD g1 in
  (set_shoot_t st (set_turn_bias (45 # 100) e), g2).

(** [Worm.__init__(pos)]. *)
Definition new_Worm (p : Vec) (g : Rng) : t * Rng :=
  let (e, g1) := init (Worm 0) p WORM_R 4%Z g in
  let (st, g2) := rand_between WORM_SHOOT_CD g1 in
  let (dr, g3) := uniform (25 # 100) (55 # 100) g2 in
  (set_kind (Worm dr) (set_shoot_t st (set_turn_bias (22 # 100) e)), g3).

(** [Enemy.common_move]. *)
Definition common_move (dt sp : Q) (e : t) (g : Rng) : t * Rng :=
  let p0 := snap_axis (pos e) (dir e) in
  let p1 := vadd p0 (vscale (vscale (dir e) sp) dt) in
  let '(p2, d2) :=
    if Qltb (vx p1) 12 || Qltb (W - 12) (vx p1) then
      let p := mkVec (clamp (vx p1) 12 (W - 12)) (vy p1) in
      let d := mkVec (vx (dir e) * -1) (vy (dir e)) in
      (snap_axis p d, d)
    else (p1, dir e) in
  let '(p3, d3) :=
    if Qltb (vy p2) 12 || Qltb (H - 12) (vy p2) then
      let p := mkVec (vx p2) (clamp (vy p2) 12 (H - 12)) in
      let d := mkVec (vx d2) (vy d2 * -1) in
      (snap_axis p d, d)
    else (p2, d2) in
  let '(p4, d4, g4) :=
    if at_intersection p3 then
      let (u, g1) := random g in
      if Qltb u (turn_bias e * dt * 60) then
        let (d, g2) := if Qltb 0 (Qabs (vx d3))
                       then choice DOWN [DOWN; UP] g1
                       else choice RIGHT [RIGHT; LEFT] g1 in
        (snap_axis p3 d, d, g2)
      else (p3, d3, g1)
    else (p3, d3, g) in
  let cdn := if Qltb 0 (rep_cd e) then pymax 0 (rep_cd e - dt) else rep_cd e in
  (set_rep_cd cdn (set_dir d4 (set_pos p4 e)), g4).

(** [Enemy.take_damage]: the damaged enemy and whether it died. *)
Definition take_damage (d : Z) (e : t) : bool * t :=
  let e' := set_hp (hp e - d)%Z e in ((hp e' <=? 0)%Z, e').

(** [Virus.on_death]: two children one tier down, none at tier 0 (and
    below). Both children are built before any is inserted. *)
Definition on_death (e : t) (g : Rng) : list t * Rng :=
  match kind e with
  | Virus tier =>
      if (0 <? tier)%Z then
        let child (g : Rng) :=
          let (jx, g1) := uniform (-10) 10 g in
          let (jy, g2) := uniform (-10) 10 g1 in
          new_Virus (vadd (pos e) (mkVec jx jy)) (tier - 1)%Z g2 in
        let (c1, g1) := child g in
        let (c2, g2) := child g1 in
        ([c1; c2], g2)
      else ([], g)
  | _ => ([], g)
  end.

End Enemy.

(** ** Hero *)

(** The keys the game reads, and the state of the input devices that
    [Game.update] polls. *)
Inductive Key : Type :=
| K_a | K_LEFT | K_d | K_RIGHT | K_w | K_UP | K_s | K_DOWN
| K_LSHIFT | K_RSHIFT | K_SPACE | K_RETURN | K_ESCAPE
| K_p | K_v | K_m | K_r | K_other.

Record Input : Type := mkInput {
  keys : Key -> bool;          (* pygame.key.get_pressed() *)
  mouse_pos : Vec;             (* pygame.mouse.get_pos() *)
  mouse_left : bool            (* pygame.mouse.get_pressed()[0] *)
}.

(** The value [move.normalize()] gives each non-zero component of a
    diagonal move: the double nearest [1/sqrt 2]. *)
Definition INV_SQRT2 : Q := 7071067811865475 # 10000000000000000.

(** [normalize] on a move vector with components in [{-1, 0, 1}]. *)
Definition normalize_move (m : Vec) : Vec :=
  if negb (Qeq_bool (vx m) 0) && negb (Qeq_bool (vy m) 0)
  then vscale m INV_SQRT2 else m.

Module Hero.

Record t : Type := mk {
  pos : Vec;
  vel : Vec;
  r : Z;
  hp : Z;
  ifr : Q;
  cd : Q;
  face : Vec;
  oc_meter : Z
}.

Definition set_pos (v : Vec) (h : t) : t :=
  mk v (vel h) (r h) (hp h) (ifr h) (cd h) (face h) (oc_meter h).
Definition set_vel (v : Vec) (h : t) : t :=
  mk (pos h) v (r h) (hp h) (ifr h) (cd h) (face h) (oc_meter h).
Definition set_r (v : Z) (h : t) : t :=
  mk (pos h) (vel h) v (hp h) (ifr h) (cd h) (face h) (oc_meter h).
Definition set_hp (v : Z) (h : t) : t :=
  mk (pos h) (vel h) (r h) v (ifr h) (cd h) (face h) (oc_meter h).
Definition set_ifr (v : Q) (h : t) : t :=
  mk (pos h) (vel h) (r h) (hp h) v (cd h) (face h) (oc_meter h).
Definition set_cd (v : Q) (h : t) : t :=
  mk (pos h) (vel h) (r h) (hp h) (ifr h) v (face h) (oc_meter h).
Definition set_face (v : Vec) (h : t) : t :=
  mk (pos h) (vel h) (r h) (hp h) (ifr h) (cd h) v (oc_meter h).
Definition set_oc_meter (v : Z) (h : t) : t :=
  mk (pos h) (vel h) (r h) (hp h) (ifr h) (cd h) (face h) v.

(** [Hero.__init__]. *)
Definition new (p : Vec) : t :=
  mk p (mkVec 0 0) HERO_R HERO_HP 0 0 (mkVec 1 0) 0%Z.

Definition alive (h : t) : bool := (0 <? hp h)%Z.

(** [Hero.hurt]: whether the hit landed, and the hero afterwards. *)
Definition hurt (h : t) : bool * t :=
  if Qltb 0 (ifr h) then (false, h)
  else (true, set_ifr HERO_IFRAMES (set_hp (hp h - 1)%Z h)).

Definition add_oc (v : Z) (h : t) : t :=
  set_oc_meter (clampZ (oc_meter h + v) 0 OC_MAX) h.

Definition ready_overclock (h : t) : bool := (OC_MAX <=? oc_meter h)%Z.

Definition reset_overclock (h : t) : t := set_oc_meter 0%Z h.

(** [Hero.update]. *)
Definition update (dt : Q) (ks : Key -> bool) (h : t) : t :=
  let m0 := mkVec 0 0 in
  let m1 := if ks K_a || ks K_LEFT then mkVec (vx m0 - 1) (vy m0) else m0 in
  let m2 := if ks K_d || ks K_RIGHT then mkVec (vx m1 + 1) (vy m1) else m1 in
  let m3 := if ks K_w || ks K_UP then mkVec (vx m2) (vy m2 - 1) else m2 in
  let m4 := if ks K_s || ks K_DOWN then mkVec (vx m3) (vy m3 + 1) else m3 in
  let h1 :=
    if Qltb 0 (length_squared m4) then
      let m := normalize_move m4 in
      set_face (cardinal_from m)
        (set_pos (vadd (pos h) (vscale (vscale m HERO_SPEED) dt)) h)
    else h in
  let h2 := set_pos (mkVec (clamp (vx (pos h1)) 12 (W - 12))
                           (clamp (vy (pos h1)) 12 (H - 12))) h1 in
  let h3 := if Qltb 0 (ifr h2) then set_ifr (pymax 0 (ifr h2 - dt)) h2 else h2 in
  if Qltb 0 (cd h3) then set_cd (pymax 0 (cd h3 - dt)) h3 else h3.

Definition can_shoot (h : t) : bool := Qle_bool (cd h) 0.

(** [Hero.shoot]: the surge fired and the hero with its cooldown set. *)
Definition shoot (aim_dir : Vec) (h : t) : Surge.t * t :=
  let h' := set_cd HERO_SHOT_CD h in
  let dirv := cardinal_from
                (if Qltb 0 (length_squared aim_dir) then aim_dir else face h') in
  (Surge.new (pos h') dirv SURGE_SPEED_PLAYER player SURGE_R SURGE_LEN 1%Z false,
   h').

End Hero.

(** ** Natural surge trains *)

Inductive Axis : Type := row | col.

Module SurgeEmitter.

Record t : Type := mk {
  axis : Axis;
  fire_t : Q;
  x_or_y : Q;
  dir : Vec;
  count : Z;
  active : bool
}.

Definition set_axis (v : Axis) (m : t) : t :=
  mk v (fire_t m) (x_or_y m) (dir m) (count m) (active m).
Definition set_fire_t (v : Q) (m : t) : t :=
  mk (axis m) v (x_or_y m) (dir m) (count m) (active m).
Definition set_x_or_y (v : Q) (m : t) : t :=
  mk (axis m) (fire_t m) v (dir m) (count m) (active m).
Definition set_dir (v : Vec) (m : t) : t :=
  mk (axis m) (fire_t m) (x_or_y m) v (count m) (active m).
Definition set_count (v : Z) (m : t) : t :=
  mk (axis m) (fire_t m) (x_or_y m) (dir m) v (active m).
Definition set_active (v : bool) (m : t) : t :=
  mk (axis m) (fire_t m) (x_or_y m) (dir m) (count m) v.

Definition new (a : Axis) : t := mk a 0 0 (mkVec 1 0) 0%Z false.

(** [SurgeEmitter.schedule]: three draws. *)
Definition schedule (m : t) (g : Rng) : t * Rng :=
  let (c, g1) := randint 6 10 g in
  let span := match axis m with row => H | col => W end in
  let (k, g2) := randint 2 (Qfloor ((span - 2) / GRID) - 2) g1 in
  let (u, g3) := random g2 in
  let d := match axis m with
           | row => if Qltb u (1 # 2) then mkVec 1 0 else mkVec (-1) 0
           | col => if Qltb u (1 # 2) then mkVec 0 1 else mkVec 0 (-1)
           end in
  (mk (axis m) 0 (inject_Z k * GRID) d c true, g3).

End SurgeEmitter.

(** ** The game object *)

Inductive State : Type := menu | play | paused | gameover | sectorclear.

Definition State_eqb (a b : State) : bool :=
  match a, b with
  | menu, menu | play, play | paused, paused
  | gameover, gameover | sectorclear, sectorclear => true
  | _, _ => false
  end.

(** The events [handle_events] looks at. *)
Inductive Event : Type :=
| QUIT
| KEYDOWN (key : Key)
| MOUSEBUTTONDOWN (button : Z)
| OTHER_EVENT.

Module Game.

Record t : Type := mk {
  state : State;
  sector : Z;
  score : Z;
  highscore : Z;
  hero : Hero.t;
  enemies : list Enemy.t;
  surges : list Surge.t;
  glitches : list (Vec * Q);
  shake : Q;
  fancy_vfx : bool;
  show_scans : bool;
  oc_blast_timer : Q;
  nat_timer : Q;
  emit_row : SurgeEmitter.t;
  emit_col : SurgeEmitter.t;
  rng : Rng;
  sfx_log : list string
}.

Definition set_state (v : State) (g : t) : t :=
  mk v (sector g) (score g) (highscore g) (hero g) (enemies g) (surges g) (glitches g) (shake g) (fancy_vfx g) (show_scans g) (oc_blast_timer g) (nat_timer g) (emit_row g) (emit_col g) (rng g) (sfx_log g).
Definition set_sector (v : Z) (g : t) : t :=
  mk (state g) v (score g) (highscore g) (hero g) (enemies g) (surges g) (glitches g) (shake g) (fancy_vfx g) (show_scans g) (oc_blast_timer g) (nat_timer g) (emit_row g) (emit_col g) (rng g) (sfx_log g).
Definition set_score (v : Z) (g : t) : t :=
  mk (state g) (sector g) v (highscore g) (hero g) (enemies g) (surges g) (glitches g) (shake g) (fancy_vfx g) (show_scans g) (oc_blast_timer g) (nat_timer g) (emit_row g) (emit_col g) (rng g) (sfx_log g).
Definition set_highscore (v : Z) (g : t) : t :=
  mk (state g) (sector g) (score g) v (hero g) (enemies g) (surges g) (glitches g) (shake g) (fancy_vfx g) (show_scans g) (oc_blast_timer g) (nat_timer g) (emit_row g) (emit_col g) (rng g) (sfx_log g).
Definition set_hero (v : Hero.t) (g : t) : t :=
  mk (state g) (sector g) (score g) (highscore g) v (enemies g) (surges g) (glitches g) (shake g) (fancy_vfx g) (show_scans g) (oc_blast_timer g) (nat_timer g) (emit_row g) (emit_col g) (rng g) (sfx_log g).
Definition set_enemies (v : list Enemy.t) (g : t) : t :=
  mk (state g) (sector g) (score g) (highscore g) (hero g) v (surges g) (glitches g) (shake g) (fancy_vfx g) (show_scans g) (oc_blast_timer g) (nat_timer g) (emit_row g) (emit_col g) (rng g) (sfx_log g).
Definition set_surges (v : list Surge.t) (g : t) : t :=
  mk (state g) (sector g) (score g) (highscore g) (hero g) (enemies g) v (glitches g) (shake g) (fancy_vfx g) (show_scans g) (oc_blast_timer g) (nat_timer g) (emit_row g) (emit_col g) (rng g) (sfx_log g).
Definition set_glitches (v : list (Vec * Q)) (g : t) : t :=
  mk (state g) (sector g) (score g) (highscore g) (hero g) (enemies g) (surges g) v (shake g) (fancy_vfx g) (show_scans g) (oc_blast_timer g) (nat_timer g) (emit_row g) (emit_col g) (rng g) (sfx_log g).
Definition set_shake (v : Q) (g : t) : t :=
  mk (state g) (sector g) (score g) (highscore g) (hero g) (enemies g) (surges g) (glitches g) v (fancy_vfx g) (show_scans g) (oc_blast_timer g) (nat_timer g) (emit_row g) (emit_col g) (rng g) (sfx_log g).
Definition set_fancy_vfx (v : bool) (g : t) : t :=
  mk (state g) (sector g) (score g) (highscore g) (hero g) (enemies g) (surges g) (glitches g) (shake g) v (show_scans g) (oc_blast_timer g) (nat_timer g) (emit_row g) (emit_col g) (rng g) (sfx_log g).
Definition set_show_scans (v : bool) (g : t) : t :=
  mk (state g) (sector g) (score g) (highscore g) (hero g) (enemies g) (surges g) (glitches g) (shake g) (fancy_vfx g) v (oc_blast_timer g) (nat_timer g) (emit_row g) (emit_col g) (rng g) (sfx_log g).
Definition set_oc_blast_timer (v : Q) (g : t) : t :=
  mk (state g) (sector g) (score g) (highscore g) (hero g) (enemies g) (surges g) (glitches g) (shake g) (fancy_vfx g) (show_scans g) v (nat_timer g) (emit_row g) (emit_col g) (rng g) (sfx_log g).
Definition set_nat_timer (v : Q) (g : t) : t :=
  mk (state g) (sector g) (score g) (highscore g) (hero g) (enemies g) (surges g) (glitches g) (shake g) (fancy_vfx g) (show_scans g) (oc_blast_timer g) v (emit_row g) (emit_col g) (rng g) (sfx_log g).
Definition set_emit_row (v : SurgeEmitter.t) (g : t) : t :=
  mk (state g) (sector g) (score g) (highscore g) (hero g) (enemies g) (surges g) (glitches g) (shake g) (fancy_vfx g) (show_scans g) (oc_blast_timer g) (nat_timer g) v (emit_col g) (rng g) (sfx_log g).
Definition set_emit_col (v : SurgeEmitter.t) (g : t) : t :=
  mk (state g) (sector g) (score g) (highscore g) (hero g) (enemies g) (surges g) (glitches g) (shake g) (fancy_vfx g) (show_scans g) (oc_blast_timer g) (nat_timer g) (emit_row g) v (rng g) (sfx_log g).
Definition set_rng (v : Rng) (g : t) : t :=
  mk (state g) (sector g) (score g) (highscore g) (hero g) (enemies g) (surges g) (glitches g) (shake g) (fancy_vfx g) (show_scans g) (oc_blast_timer g) (nat_timer g) (emit_row g) (emit_col g) v (sfx_log g).
Definition set_sfx_log (v : list string) (g : t) : t :=
  mk (state g) (sector g) (score g) (highscore g) (hero g) (enemies g) (surges g) (glitches g) (shake g) (fancy_vfx g) (show_scans g) (oc_blast_timer g) (nat_timer g) (emit_row g) (emit_col g) (rng g) v.

(** In-place update of the object at index [i] of a Python list. *)
Fixpoint set_nth {A : Type} (i : nat) (x : A) (l : list A) : list A :=
  match l, i with
  | [], _ => []
  | _ :: tl, O => x :: tl
  | y :: tl, S k => y :: set_nth k x tl
  end.

(** *** Effects *)

(** [self.sfx.play(key)]: the cue is logged, most recent first. *)
Definition sfx_play (key : string) (g : t) : t :=
  set_sfx_log (key :: sfx_log g) g.

Definition add_shake (amount : Q) (g : t) : t :=
  if fancy_vfx g then set_shake (pymin 12 (shake g + amount)) g else g.

(** [spark(pos, color, n)]: each particle takes four draws. *)
Definition spark (n : nat) (g : t) : t := set_rng (skip (4 * n) (rng g)) g.

Definition spawn_glitch (p : Vec) (g : t) : t :=
  set_glitches (glitches g ++ [(p, 1)]) g.

(** *** Sector / spawning *)

Definition random_grid_pos (r : Rng) : Vec * Rng :=
  let (x, r1) := randint 2 (Qfloor ((W - 2) / GRID) - 2) r in
  let (y, r2) := randint 2 (Qfloor ((H - 2) / GRID) - 2) r1 in
  (mkVec (inject_Z x * GRID) (inject_Z y * GRID), r2).

Fixpoint spawn_many (new : Vec -> Rng -> Enemy.t * Rng) (n : nat) (g : t) : t :=
  match n with
  | O => g
  | S k =>
      let (p, r1) := random_grid_pos (rng g) in
      let (e, r2) := new p r1 in
      spawn_many new k (set_rng r2 (set_enemies (enemies g ++ [e]) g))
  end.

Definition build_sector (n_virus n_bug n_worm : Z) (g : t) : t :=
  let g1 := set_enemies [] g in
  let g2 := spawn_many (fun p => Enemy.new_Virus p 2) (Z.to_nat n_virus) g1 in
  let g3 := spawn_many Enemy.new_Bug (Z.to_nat n_bug) g2 in
  let g4 := spawn_many Enemy.new_Worm (Z.to_nat n_worm) g3 in
  let g5 := set_hero (Hero.new CENTER)
              (set_glitches [] (set_surges [] g4)) in
  let (nt, r1) := rand_between NAT_SURGE_EVERY (rng g5) in
  set_oc_blast_timer 0
    (set_emit_col (SurgeEmitter.set_active false (emit_col g5))
       (set_emit_row (SurgeEmitter.set_active false (emit_row g5))
          (set_nat_timer nt (set_rng r1 g5)))).

(** *** Enemy behaviour ([Virus.update], [Bug.update], [Worm.update]) *)

Definition Virus_update (dt : Q) (e : Enemy.t) (g : t)
    : Enemy.t * list Surge.t * t :=
  let (e1, r1) := Enemy.common_move dt VIRUS_SPEED e (rng g) in
  let g1 := set_rng r1 g in
  let e2 := Enemy.set_shoot_t (Enemy.shoot_t e1 - dt) e1 in
  if Qle_bool (Enemy.shoot_t e2) 0 then
    let shots := map (fun d => Surge.new_default (Enemy.pos e2) d
                                 SURGE_SPEED_ENEMY enemy)
                     [RIGHT; LEFT; DOWN; UP] in
    let (st, r2) := rand_between VIRUS_SHOOT_CD (rng g1) in
    (Enemy.set_shoot_t st e2, shots,
     add_shake 2 (sfx_play "enemyfire" (set_rng r2 g1)))
  else (e2, [], g1).

Definition Bug_update (dt : Q) (e : Enemy.t) (g : t)
    : Enemy.t * list Surge.t * t :=
  let (e1, r1) := Enemy.common_move dt BUG_SPEED e (rng g) in
  let g1 := set_rng r1 g in
  let e2 := Enemy.set_shoot_t (Enemy.shoot_t e1 - dt) e1 in
  if Qle_bool (Enemy.shoot_t e2) 0 then
    let to_hero := vsub (Hero.pos (hero g1)) (Enemy.pos e2) in
    let d := cardinal_from to_hero in
    let shots := [Surge.new_default (Enemy.pos e2) d
                    (SURGE_SPEED_ENEMY * (105 # 100)) enemy] in
    let (st, r2) := rand_between BUG_SHOOT_CD (rng g1) in
    (Enemy.set_shoot_t st e2, shots, sfx_play "enemyfire" (set_rng r2 g1))
  else (e2, [], g1).

Definition Worm_update (dt : Q) (drop_t : Q) (e : Enemy.t) (g : t)
    : Enemy.t * list Surge.t * t :=
  let (e1, r1) := Enemy.common_move dt WORM_SPEED e (rng g) in
  let g1 := set_rng r1 g in
  let drop1 := drop_t - dt in
  let '(drop2, g2) :=
    if Qle_bool drop1 0 then
      let g' := spawn_glitch (Enemy.pos e1) g1 in
      let (d, r2) := uniform (35 # 100) (65 # 100) (rng g') in
      (d, set_rng r2 g')
    else (drop1, g1) in
  let e2 := Enemy.set_shoot_t (Enemy.shoot_t e1 - dt)
              (Enemy.set_kind (Worm drop2) e1) in
  if Qle_bool (Enemy.shoot_t e2) 0 then
    let dirs := if Qltb 0 (Qabs (vx (Enemy.dir e2)))
                then [RIGHT; LEFT] else [DOWN; UP] in
    let shots := map (fun d => Surge.new_default (Enemy.pos e2) d
                                 (SURGE_SPEED_ENEMY * (95 # 100)) enemy) dirs in
    let (st, r3) := rand_between WORM_SHOOT_CD (rng g2) in
    (Enemy.set_shoot_t st e2, shots,
     add_shake 2 (sfx_play "enemyfire" (set_rng r3 g2)))
  else (e2, [], g2).

(** [e.update(dt, self)], dispatched on the class of [e]. *)
Definition enemy_update (dt : Q) (e : Enemy.t) (g : t)
    : Enemy.t * list Surge.t * t :=
  match Enemy.kind e with
  | Virus _ => Virus_update dt e g
  | Bug => Bug_update dt e g
  | Worm d => Worm_update dt d e g
  end.

(** [SurgeEmitter.update(dt, game)]. *)
Definition emitter_update (dt : Q) (m : SurgeEmitter.t) (g : t)
    : SurgeEmitter.t * t :=
  if negb (SurgeEmitter.active m) then (m, g)
  else
    let m1 := SurgeEmitter.set_fire_t (SurgeEmitter.fire_t m - dt) m in
    let '(m2, g2) :=
      if Qle_bool (SurgeEmitter.fire_t m1) 0 && (0 <? SurgeEmitter.count m1)%Z
      then
        let m' := SurgeEmitter.set_count (SurgeEmitter.count m1 - 1)%Z
                    (SurgeEmitter.set_fire_t (7 # 100) m1) in
        let d := SurgeEmitter.dir m' in
        let p := match SurgeEmitter.axis m' with
                 | row => mkVec (if Qltb 0 (vx d) then 12 else W - 12)
                                (SurgeEmitter.x_or_y m')
                 | col => mkVec (SurgeEmitter.x_or_y m')
                                (if Qltb 0 (vy d) then 12 else H - 12)
                 end in
        (m', sfx_play "natural"
               (set_surges (surges g ++
                  [Surge.new_default p d SURGE_SPEED_NATURAL natural]) g))
      else (m1, g) in
    if (SurgeEmitter.count m2 <=? 0)%Z
    then (SurgeEmitter.set_active false m2, g2) else (m2, g2).

(** *** The passes of [Game.update] *)

(** [self.hero.update(dt, keys)]. *)
Definition hero_phase (dt : Q) (inp : Input) (g : t) : t :=
  set_hero (Hero.update dt (keys inp) (hero g)) g.

(** The four surges of the blast, in the order of [dirs]. *)
Definition blast_surges (p : Vec) : list Surge.t :=
  map (fun d => Surge.new p d OC_SURGE_SPEED oc OC_SURGE_R OC_SURGE_TTL
                  OC_SURGE_DMG true)
      [RIGHT; LEFT; DOWN; UP].

Definition fire_overclock_blast (g : t) : t :=
  let p := Hero.pos (hero g) in
  let g1 := set_surges (surges g ++ blast_surges p) g in
  let g2 := set_hero (Hero.reset_overclock (hero g1)) g1 in
  spark 14 (sfx_play "over_on" g2).

(** The OVERCLOCK BLAST trigger. *)
Definition blast_phase (inp : Input) (g : t) : t :=
  if (keys inp K_LSHIFT || keys inp K_RSHIFT)
     && Hero.ready_overclock (hero g)
  then add_shake OC_BLAST_SHAKE_STRENGTH
         (set_oc_blast_timer OC_BLAST_SHAKE_TIME (fire_overclock_blast g))
  else g.

(** Maintain shake during blast. *)
Definition blast_shake_phase (dt : Q) (g : t) : t :=
  if Qltb 0 (oc_blast_timer g)
  then add_shake (OC_BLAST_SHAKE_STRENGTH * (75 # 100))
         (set_oc_blast_timer (pymax 0 (oc_blast_timer g - dt)) g)
  else g.

(** Normal firing. *)
Definition fire_phase (inp : Input) (g : t) : t :=
  let aim := vsub (mouse_pos inp) (Hero.pos (hero g)) in
  if (mouse_left inp || keys inp K_SPACE) && Hero.can_shoot (hero g) then
    let (surge, h) := Hero.shoot aim (hero g) in
    add_shake SHAKE_SHOOT
      (sfx_play "fire" (set_surges (surges g ++ [surge]) (set_hero h g)))
  else g.

(** Natural surge scheduling, then both emitters. *)
Definition natural_phase (dt : Q) (g : t) : t :=
  let g1 :=
    if negb (SurgeEmitter.active (emit_row g) || SurgeEmitter.active (emit_col g))
    then
      let ga := set_nat_timer (nat_timer g - dt) g in
      if Qle_bool (nat_timer ga) 0 then
        let (u, r1) := random (rng ga) in
        let gb :=
          if Qltb u (1 # 2) then
            let (m, r2) := SurgeEmitter.schedule (emit_row ga) r1 in
            set_rng r2 (set_emit_row m ga)
          else
            let (m, r2) := SurgeEmitter.schedule (emit_col ga) r1 in
            set_rng r2 (set_emit_col m ga) in
        let (nt, r3) := rand_between NAT_SURGE_EVERY (rng gb) in
        set_nat_timer nt (set_rng r3 gb)
      else ga
    else g in
  let (mr, g2) := emitter_update dt (emit_row g1) g1 in
  let g3 := set_emit_row mr g2 in
  let (mc, g4) := emitter_update dt (emit_col g3) g3 in
  set_emit_col mc g4.

(** The loop [for e in list(self.enemies)]: every enemy is updated in
    place, the shots are collected. *)
Fixpoint update_enemies (dt : Q) (es : list Enemy.t) (g : t)
    : list Enemy.t * list Surge.t * t :=
  match es with
  | [] => ([], [], g)
  | e :: rest =>
      let '(e', shots, g1) := enemy_update dt e g in
      let '(rest', more, g2) := update_enemies dt rest g1 in
      (e' :: rest', shots ++ more, g2)
  end.

Definition enemies_phase (dt : Q) (g : t) : t :=
  let '(es, new_surges, g1) := update_enemies dt (enemies g) g in
  set_surges (surges g1 ++ new_surges) (set_enemies es g1).

(** The child of the pair [ei], [ej]: near the midpoint, of the class of
    [ei] (a Virus takes the tier of [ei]), already on cooldown. *)
Definition mitosis_child (ei ej : Enemy.t) (r : Rng) : Enemy.t * Rng :=
  let (jx, r1) := uniform (-6) 6 r in
  let (jy, r2) := uniform (-6) 6 r1 in
  let p := vadd (vdiv (vadd (Enemy.pos ei) (Enemy.pos ej)) 2) (mkVec jx jy) in
  let (child, r3) :=
    match Enemy.kind ei with
    | Virus tier => Enemy.new_Virus p tier r2
    | Bug => Enemy.new_Bug p r2
    | Worm _ => Enemy.new_Worm p r2
    end in
  (Enemy.set_rep_cd (3 # 4) child, r3).

(** The body of the two nested loops of [handle_enemy_mitosis], for the
    pair of indices [i < j]; [to_add] is carried along with the game. *)
Definition mitosis_pair (i j : nat) (st : t * list Enemy.t)
    : t * list Enemy.t :=
  let (g, to_add) := st in
  match nth_error (enemies g) i, nth_error (enemies g) j with
  | Some ei, Some ej =>
      if negb (Enemy.same_type ei ej) then st
      else if Qltb 0 (Enemy.rep_cd ei) || Qltb 0 (Enemy.rep_cd ej) then st
      else if within (Enemy.pos ei) (Enemy.pos ej)
                (inject_Z (Enemy.r ei + Enemy.r ej)) then
        if (MAX_ENEMIES_ON_FIELD <=? length (enemies g) + length to_add)%nat
        then st
        else
          let (child, r3) := mitosis_child ei ej (rng g) in
          let es := set_nth j (Enemy.set_rep_cd (3 # 4) ej)
                      (set_nth i (Enemy.set_rep_cd (3 # 4) ei) (enemies g)) in
          (spark 10 (sfx_play "clone" (set_rng r3 (set_enemies es g))),
           to_add ++ [child])
      else st
  | _, _ => st
  end.

(** The inner loop [for j in range(i+1, n)]. *)
Definition mitosis_row (n : nat) (st : t * list Enemy.t) (i : nat)
    : t * list Enemy.t :=
  fold_left (fun st j => mitosis_pair i j st) (seq (S i) (n - S i)) st.

Definition handle_enemy_mitosis (g : t) : t :=
  let n := length (enemies g) in
  let (g1, to_add) := fold_left (mitosis_row n) (seq 0 n) (g, []) in
  match to_add with
  | [] => g1
  | _ => set_enemies (enemies g1 ++ to_add) g1
  end.

(** Glitches decay. *)
Definition glitch_decay (dt : Q) (g : t) : t :=
  set_glitches
    (map (fun pa => (fst pa, pymax 0 (snd pa - dt * (1 # 2))))
         (filter (fun pa => Qltb 0 (snd pa - dt * (1 # 2))) (glitches g)))
    g.

(** Surges move; the dead ones are dropped. *)
Fixpoint move_surges (dt : Q) (ss : list Surge.t) : list Surge.t :=
  match ss with
  | [] => []
  | s :: rest =>
      let (ok, s') := Surge.update dt s in
      if ok then s' :: move_surges dt rest else move_surges dt rest
  end.

Definition surges_phase (dt : Q) (g : t) : t :=
  set_surges (move_surges dt (surges g)) g.

(** *** Surge against surge *)

Definition is_friend (o : Owner) : bool :=
  match o with player | oc => true | _ => false end.

Definition is_foe (o : Owner) : bool :=
  match o with enemy | natural => true | _ => false end.

(** The set [dead] of indices. *)
Definition in_dead (k : nat) (d : list nat) : bool := existsb (Nat.eqb k) d.
Definition dead_add (k : nat) (d : list nat) : list nat :=
  if in_dead k d then d else k :: d.

(** One friendly and one hostile owner, in either order. *)
Definition clash (si sj : Surge.t) : bool :=
  (is_friend (Surge.owner si) && is_foe (Surge.owner sj))
  || (is_friend (Surge.owner sj) && is_foe (Surge.owner si)).

Definition in_cancel_range (si sj : Surge.t) : bool :=
  within (Surge.pos si) (Surge.pos sj)
         (inject_Z (Surge.r si + Surge.r sj + 1)).

(** What a pairing that resolves does to [dead] and to the game. *)
Definition resolve_cancel (i j : nat) (si sj : Surge.t) (st : list nat * t)
    : list nat * t :=
  let (dead, g) := st in
  let dead1 :=
    if Owner_eqb (Surge.owner si) oc && is_foe (Surge.owner sj) then dead_add j dead
    else if Owner_eqb (Surge.owner sj) oc && is_foe (Surge.owner si)
         then dead_add i dead
         else dead_add j (dead_add i dead) in
  let g1 := spark 8 (sfx_play "cancel" g) in
  let g2 :=
    if Owner_eqb (Surge.owner si) player || Owner_eqb (Surge.owner sj) player
    then set_hero (Hero.add_oc OC_FILL_PER_CANCEL (hero g1)) g1
    else g1 in
  (dead1, g2).

(** The body of the inner loop, for the surge [si] of index [i] and the
    index [j]. *)
Definition cancel_pair (ss : list Surge.t) (i : nat) (si : Surge.t)
    (st : list nat * t) (j : nat) : list nat * t :=
  if in_dead j (fst st) then st
  else match nth_error ss j with
       | None => st
       | Some sj =>
           if clash si sj then
             if in_cancel_range si sj then resolve_cancel i j si sj st
             else st
           else st
       end.

(** The body of the outer loop. *)
Definition cancel_row (ss : list Surge.t) (st : list nat * t) (i : nat)
    : list nat * t :=
  if in_dead i (fst st) then st
  else match nth_error ss i with
       | None => st
       | Some si =>
           fold_left (cancel_pair ss i si) (seq (S i) (length ss - S i)) st
       end.

(** The two loops over the first [k] rows. *)
Definition cancel_rows (k : nat) (g : t) : list nat * t :=
  fold_left (cancel_row (surges g)) (seq 0 k) ([], g).

(** [[s for k,s in enumerate(self.surges) if k not in dead]], from index
    [k] on. *)
Fixpoint remove_dead (dead : list nat) (k : nat) (ss : list Surge.t)
    : list Surge.t :=
  match ss with
  | [] => []
  | s :: rest =>
      if in_dead k dead then remove_dead dead (S k) rest
      else s :: remove_dead dead (S k) rest
  end.

Definition handle_surge_cancels (g : t) : t :=
  let (dead, g1) := cancel_rows (length (surges g)) g in
  match dead with
  | [] => g1
  | _ => set_surges (remove_dead dead 0 (surges g1)) g1
  end.

(** *** Surge hits *)

(** Virus children are appended while the field is below the cap;
    [n] is [len(self.enemies)] before the first of them. *)
Fixpoint insert_children (children : list Enemy.t) (n : nat)
    (added : list Enemy.t) : list Enemy.t :=
  match children with
  | [] => added
  | c :: rest =>
      if (n + length added <? MAX_ENEMIES_ON_FIELD)%nat
      then insert_children rest n (added ++ [c])
      else insert_children rest n added
  end.

(** The loop [for e in list(self.enemies)] for one friendly surge [s].
    [self.enemies] is [kept ++ rest ++ added] throughout: [kept] are the
    enemies of the copy already visited and still on the field, [rest]
    those not visited yet, [added] the children appended so far. The
    result is the enemy list at the end, whether [s] was removed from
    [self.surges], and the game. *)
Fixpoint hit_enemies (s : Surge.t) (kept rest added : list Enemy.t) (g : t)
    : list Enemy.t * bool * t :=
  match rest with
  | [] => (kept ++ added, false, g)
  | e :: rest' =>
      if within (Enemy.pos e) (Surge.pos s)
                (inject_Z (Enemy.r e + Surge.r s)) then
        let (died, e1) := Enemy.take_damage (Surge.dmg s) e in
        let g1 := spark 10 (sfx_play "hit" g) in
        let g2 :=
          if Owner_eqb (Surge.owner s) player
          then set_hero (Hero.add_oc OC_FILL_PER_KILL (hero g1))
                 (set_score (score g1 + 45)%Z g1)
          else set_score (score g1 + 35)%Z g1 in
        let '(kept', added', g3) :=
          if died then
            let ga := spark 18 (sfx_play "explode" g2) in
            let '(added1, gb) :=
              if Enemy.is_Virus e1 then
                let (children, r1) := Enemy.on_death e1 (rng ga) in
                (insert_children children (length kept + length rest') added,
                 set_rng r1 ga)
              else (added, ga) in
            (kept, added1,
             set_score (score gb + (if Owner_eqb (Surge.owner s) player
                                    then 120 else 90))%Z gb)
          else (kept ++ [e1], added, g2) in
        if negb (Surge.pierce s) then (kept' ++ rest' ++ added', true, g3)
        else hit_enemies s kept' rest' added' g3
      else hit_enemies s (kept ++ [e]) rest' added g
  end.

(** One iteration of [for s in list(self.surges)]: whether [s] stays in
    [self.surges], and the game. *)
Definition hit_surge (s : Surge.t) (g : t) : bool * t :=
  if is_friend (Surge.owner s) then
    let '(es, removed, g1) := hit_enemies s [] (enemies g) [] g in
    (negb removed, set_enemies es g1)
  else if within (Hero.pos (hero g)) (Surge.pos s)
            (inject_Z (Hero.r (hero g) + Surge.r s)) then
    let (landed, h) := Hero.hurt (hero g) in
    let g1 := set_hero h g in
    (false, if landed then add_shake 6 (sfx_play "hurt" g1) else g1)
  else (true, g).

(** The surges of the copy that are still in [self.surges] at the end. *)
Fixpoint hit_surges (copy : list Surge.t) (g : t) : list Surge.t * t :=
  match copy with
  | [] => ([], g)
  | s :: rest =>
      let (stays, g1) := hit_surge s g in
      let (left, g2) := hit_surges rest g1 in
      (if stays then s :: left else left, g2)
  end.

Definition handle_surge_hits (g : t) : t :=
  let (left, g1) := hit_surges (surges g) g in
  set_surges left g1.

(** Glitch hazards against the hero. *)
Definition glitch_hit (g : t) (ga : Vec * Q) : t :=
  if within (Hero.pos (hero g)) (fst ga) (inject_Z (Hero.r (hero g) + 7)) then
    let (landed, h) := Hero.hurt (hero g) in
    let g1 := set_hero h g in
    if landed then add_shake 5 (sfx_play "hurt" g1) else g1
  else g.

Definition glitch_phase (g : t) : t := fold_left glitch_hit (glitches g) g.

(** Win / lose. *)
Definition win_lose (g : t) : t :=
  if negb (Hero.alive (hero g)) then
    set_highscore (Z.max (highscore g) (score g))
      (sfx_play "lose" (set_state gameover g))
  else match enemies g with
       | [] => set_highscore (Z.max (highscore g) (score g))
                 (sfx_play "win" (set_state sectorclear g))
       | _ => g
       end.

Definition shake_decay (g : t) : t :=
  if Qltb 0 (shake g)
  then set_shake (pymax 0 (shake g - SHAKE_DECAY * (1 / FPS))) g
  else g.

(** The part of [Game.update] after the blast trigger. *)
Definition after_blast (dt : Q) (inp : Input) (g : t) : t :=
  shake_decay
    (win_lose
       (glitch_phase
          (handle_surge_hits
             (handle_surge_cancels
                (surges_phase dt
                   (glitch_decay dt
                      (handle_enemy_mitosis
                         (enemies_phase dt
                            (natural_phase dt
                               (fire_phase inp
                                  (blast_shake_phase dt g))))))))))).

(** [Game.update]. *)
Definition update (dt : Q) (inp : Input) (g : t) : t :=
  match state g with
  | menu => g
  | gameover | sectorclear => g
  | _ => after_blast dt inp (blast_phase inp (hero_phase dt inp g))
  end.

(** *** Input events *)

(** A fresh run: [score = 0; sector = 1; build_sector(...); state = "play"]. *)
Definition start_run (g : t) : t :=
  let '(v, b, w) := SECTOR_START_ENEMIES in
  set_state play (build_sector v b w (set_sector 1 (set_score 0 g))).

(** The next sector. *)
Definition next_sector (g : t) : t :=
  let g1 := set_sector (sector g + 1)%Z g in
  let '(v, b, w) := SECTOR_START_ENEMIES in
  let add := (sector g1 / 2)%Z in
  set_state play
    (build_sector (v + add) (b + add)
       (w + (if (sector g1 mod 3 =? 0)%Z then 1 else 0)) g1).

Definition Key_eqb (a b : Key) : bool :=
  match a, b with
  | K_a, K_a | K_LEFT, K_LEFT | K_d, K_d | K_RIGHT, K_RIGHT | K_w, K_w
  | K_UP, K_UP | K_s, K_s | K_DOWN, K_DOWN | K_LSHIFT, K_LSHIFT
  | K_RSHIFT, K_RSHIFT | K_SPACE, K_SPACE | K_RETURN, K_RETURN
  | K_ESCAPE, K_ESCAPE | K_p, K_p | K_v, K_v | K_m, K_m | K_r, K_r
  | K_other, K_other => true
  | _, _ => false
  end.

(** The chain of [if]s on a key press; each test reads the state the
    previous ones left. *)
Definition on_keydown (k : Key) (g : t) : t :=
  let g1 := if Key_eqb k K_p
               && (State_eqb (state g) play || State_eqb (state g) paused)
            then set_state (if State_eqb (state g) play then paused else play) g
            else g in
  let g2 := if Key_eqb k K_v then set_fancy_vfx (negb (fancy_vfx g1)) g1 else g1 in
  let g3 := if Key_eqb k K_m then set_show_scans (negb (show_scans g2)) g2 else g2 in
  let g4 := if Key_eqb k K_r && State_eqb (state g3) gameover
            then start_run g3 else g3 in
  let g5 := if State_eqb (state g4) menu
               && (Key_eqb k K_SPACE || Key_eqb k K_RETURN)
            then start_run g4 else g4 in
  if State_eqb (state g5) sectorclear
     && (Key_eqb k K_SPACE || Key_eqb k K_RETURN)
  then next_sector g5 else g5.

Definition on_mousedown (button : Z) (g : t) : t :=
  let g1 := if State_eqb (state g) menu && (button =? 1)%Z
            then start_run g else g in
  if State_eqb (state g1) sectorclear && (button =? 1)%Z
  then next_sector g1 else g1.

(** [handle_events]: [None] when the loop is to stop. *)
Fixpoint handle_events (evs : list Event) (g : t) : option t :=
  match evs with
  | [] => Some g
  | QUIT :: _ => None
  | KEYDOWN k :: rest =>
      if Key_eqb k K_ESCAPE then None
      else handle_events rest (on_keydown k g)
  | MOUSEBUTTONDOWN b :: rest => handle_events rest (on_mousedown b g)
  | OTHER_EVENT :: rest => handle_events rest g
  end.

(** What [draw] does to the model: the two draws of the shake offset. *)
Definition draw (g : t) : t :=
  if fancy_vfx g && Qltb 0 (shake g) then set_rng (skip 2 (rng g)) g else g.

(** One iteration of the loop of [Game.run], for the events [evs] of the
    frame, the polled input [inp] and the frame time [dt]. *)
Definition frame (evs : list Event) (inp : Input) (dt : Q) (g : t)
    : option t :=
  match handle_events evs g with
  | None => None
  | Some g1 =>
      if State_eqb (state g1) paused then Some (draw g1)
      else Some (draw (update dt inp g1))
  end.

(** [build_traces]: only its draws matter here. *)
Fixpoint trace_steps (len : nat) (r : Rng) : Rng :=
  match len with
  | O => r
  | S k =>
      let (u, r1) := random r in
      if Qltb u (1 # 2) then trace_steps k (snd (random r1))
      else trace_steps k r1
  end.

Fixpoint build_traces (n : nat) (r : Rng) : Rng :=
  match n with
  | O => r
  | S k =>
      let (len, r1) := randint 3 7 r in
      build_traces k (trace_steps (Z.to_nat len) (skip 3 r1))
  end.

(** [Game.__init__]. *)
Definition init (r : Rng) : t :=
  let r1 := build_traces 18 r in
  let (nt, r2) := rand_between NAT_SURGE_EVERY r1 in
  sfx_play "menu"
    (mk menu 1 0 0 (Hero.new CENTER) [] [] [] 0 true true 0 nt
        (SurgeEmitter.new row) (SurgeEmitter.new col) r2 []).

End Game.

(** * Sample inputs and states *)

(** A random source whose draws are all 0, and one whose draws are 1/2. *)
Definition rng_zero : Rng := fun _ => 0.
Definition rng_half : Rng := fun _ => 1 # 2.

(** No key held, the pointer at the origin, no button. *)
Definition idle : Input := mkInput (fun _ => false) (mkVec 0 0) false.

(** Only the left shift key held. *)
Definition shift_held : Input :=
  mkInput (fun k => match k with K_LSHIFT => true | _ => false end)
          (mkVec 0 0) false.

(** The game as constructed, in the menu. *)
Definition fresh : Game.t := Game.init rng_zero.

(** The game after SPACE in the menu: sector 1, in play. *)
Definition playing : Game.t := Game.start_run fresh.

(** The same with the overclock meter full. *)
Definition charged : Game.t :=
  Game.set_hero (Hero.set_oc_meter OC_MAX (Game.hero playing)) playing.

(** The surge [s] with the damage [f s] instead of its own when its owner
    is hostile. *)
Definition with_hostile_damage (f : Surge.t -> Z) (s : Surge.t) : Surge.t :=
  if Game.is_friend (Surge.owner s) then s else Surge.set_dmg (f s) s.

(** An overclock-strength surge in hostile hands, on top of the hero of
    [playing]. *)
Definition heavy_hostile : Surge.t :=
  Surge.new CENTER LEFT SURGE_SPEED_ENEMY enemy SURGE_R SURGE_LEN
            OC_SURGE_DMG false.

(** Two Viruses in contact on a wire crossing, of tiers [t0] and [t1],
    both off cooldown, and the game in play with just these two. *)
Definition virus_at (x : Q) (tier : Z) : Enemy.t :=
  fst (Enemy.new_Virus (mkVec x 96) tier rng_zero).

Definition virus_pair (t0 t1 : Z) : Game.t :=
  Game.set_enemies [virus_at 96 t0; virus_at 100 t1] playing.

(** The set [dead] when the cancellation pass has done the rows before
    row [i], and at the end of the pass. *)
Definition dead_before (i : nat) (g : Game.t) : list nat :=
  fst (Game.cancel_rows i g).

Definition cancel_dead (g : Game.t) : list nat :=
  dead_before (length (Game.surges g)) g.

(** How often a cue was requested. *)
Definition cue_count (c : string) (log : list string) : nat :=
  count_occ string_dec log c.

(** Surges for the examples: a plain player shot and two hostile shots. *)
Definition shot_P : Surge.t :=
  Surge.new_default (mkVec 96 96) RIGHT SURGE_SPEED_PLAYER player.
Definition shot_A : Surge.t :=
  Surge.new_default (mkVec 96 96) LEFT SURGE_SPEED_ENEMY enemy.
Definition shot_B : Surge.t :=
  Surge.new_default (mkVec 100 96) LEFT SURGE_SPEED_ENEMY enemy.

(** One player surge ahead of two hostile ones, all within range. *)
Definition one_against_two : Game.t :=
  Game.set_surges [shot_P; shot_A; shot_B] playing.

(** The player surge between the two hostile ones in the list. *)
Definition hostile_first : Game.t :=
  Game.set_surges [shot_A; shot_P; shot_B] playing.

(** The invariant of the cancellation pass on [dead]: no index of an
    overclock surge is in it. *)
Definition dead_spares_oc (ss : list Surge.t) (d : list nat) : Prop :=
  forall k s, Game.in_dead k d = true -> nth_error ss k = Some s ->
              Surge.owner s <> oc.

(** The health the hero is sure to keep through the rest of a frame: its
    health, less the one point a hit can take while no invulnerability
    runs. *)
Definition hero_floor (h : Hero.t) : Z :=
  (Hero.hp h - (if Qltb 0 (Hero.ifr h) then 0 else 1))%Z.

(** [g'] comes after [g] within the passes of a frame: the floor of the
    hero's health has not dropped, the state is the same, and the enemy
    count is at most the larger of the earlier count and the cap. *)
Definition steps_to (g g' : Game.t) : Prop :=
  (hero_floor (Game.hero g) <= hero_floor (Game.hero g'))%Z /\
  Game.state g' = Game.state g /\
  (length (Game.enemies g') <=
   Nat.max (length (Game.enemies g)) MAX_ENEMIES_ON_FIELD)%nat.

(** The games a session can be in: the game as constructed, and what a
    frame of the loop of [run] makes of such a game, for any events, any
    polled input and any frame time. *)
Inductive reachable : Game.t -> Prop :=
| reach_init (r : Rng) : reachable (Game.init r)
| reach_frame (g g' : Game.t) (evs : list Event) (inp : Input) (dt : Q) :
    reachable g -> Game.frame evs inp dt g = Some g' -> reachable g'.

(** What a session keeps about the hero's health. *)
Definition health_inv (g : Game.t) : Prop :=
  (0 <= Hero.hp (Game.hero g))%Z /\
  (Game.state g = play \/ Game.state g = paused ->
   (1 <= Hero.hp (Game.hero g))%Z).

(** Sector 13 just cleared, and the game one SPACE press later: sector
    14, which [build_sector] fills with 9 Viruses, 9 Bugs and 1 Worm. *)
Definition cleared13 : Game.t :=
  Game.set_state sectorclear (Game.set_sector 13 playing).

Definition sector14 : Game.t := Game.next_sector cleared13.

(** A Virus of tier 2 down to its last point of health, and the game with
    just this Virus and a player surge on top of it. *)
Definition weak_virus : Enemy.t := Enemy.set_hp 1 (virus_at 96 2).

Definition shot_at_virus : Game.t :=
  Game.set_surges [shot_P] (Game.set_enemies [weak_virus] playing).

(** ** Samples for the session, frame and cancellation properties *)

(** Only the down arrow held. *)
Definition down_held : Input :=
  mkInput (fun k => match k with K_DOWN => true | _ => false end)
          (mkVec 0 0) false.

(** A session in which the hero is hit. With every draw 1/2 all five
    enemies of the first sector start at (480, 288), heading down. In the
    first frame SPACE starts the run and the hero goes down after them for
    a quarter of a second; in the second frame the Worm drops a hazard at
    (480, 336), one pixel from the hero, and the hero is hit. In the third
    frame the hero is still on the hazard. *)
Definition opening : Game.t := Game.init rng_half.

Definition chase : Game.t :=
  Game.draw (Game.update (1 # 4) down_held (Game.start_run opening)).

Definition struck : Game.t := Game.draw (Game.update (3 # 20) idle chase).

Definition lingering : Game.t := Game.draw (Game.update (1 # 10) idle struck).

(** The hazard the hero of [struck] stands on. *)
Definition hazard_under_hero : Vec * Q := hd (CENTER, 0) (Game.glitches struck).

(** A hostile surge of damage 2 on top of the hero of [struck]. *)
Definition heavy_on_struck : Surge.t :=
  Surge.new (Hero.pos (Game.hero struck)) LEFT SURGE_SPEED_ENEMY enemy
            SURGE_R SURGE_LEN OC_SURGE_DMG false.

(** The events that take a game out of the state [s] into play: P when
    paused, R after a game over, SPACE, RETURN or the left button in the
    menu and after a sector is cleared. *)
Definition wakes (s : State) (ev : Event) : bool :=
  match s, ev with
  | paused, KEYDOWN k => Game.Key_eqb k K_p
  | gameover, KEYDOWN k => Game.Key_eqb k K_r
  | menu, KEYDOWN k | sectorclear, KEYDOWN k =>
      Game.Key_eqb k K_SPACE || Game.Key_eqb k K_RETURN
  | menu, MOUSEBUTTONDOWN b | sectorclear, MOUSEBUTTONDOWN b => (b =? 1)%Z
  | _, _ => false
  end.

(** The first sector, paused. *)
Definition dozing : Game.t := Game.set_state paused playing.

(** What an event leaves alone when it does not wake the game. *)
Definition same_scene (g g' : Game.t) : Prop :=
  Game.state g' = Game.state g /\
  Game.hero g' = Game.hero g /\
  Game.enemies g' = Game.enemies g /\
  Game.surges g' = Game.surges g /\
  Game.glitches g' = Game.glitches g /\
  Game.score g' = Game.score g.

(** The surges of [ss] whose index is not in [dead], in their order. *)
Definition survivors (dead : list nat) (ss : list Surge.t) : list Surge.t :=
  map snd
    (filter (fun p => negb (existsb (Nat.eqb (fst p)) dead))
            (combine (seq 0 (length ss)) ss)).

(** The set [dead] at the moment the inner loop of row [i] comes to [j];
    when row [i] is skipped, the set at that point. *)
Definition dead_when_reached (i j : nat) (g : Game.t) : list nat :=
  let st := Game.cancel_rows i g in
  match nth_error (Game.surges g) i with
  | Some si =>
      if Game.in_dead i (fst st) then fst st
      else fst (fold_left (Game.cancel_pair (Game.surges g) i si)
                  (seq (S i) (j - S i)) st)
  | None => fst st
  end.

(** A player shot against one hostile shot, with the meter at 196. *)
Definition duel : Game.t :=
  Game.set_surges [shot_P; shot_A]
    (Game.set_hero (Hero.set_oc_meter 196 (Game.hero playing)) playing).

(** An overclock surge against one hostile shot, with the meter at 196. *)
Definition oc_duel : Game.t :=
  Game.set_surges
    [Surge.new (mkVec 96 96) RIGHT OC_SURGE_SPEED oc OC_SURGE_R OC_SURGE_TTL
       OC_SURGE_DMG true; shot_A]
    (Game.set_hero (Hero.set_oc_meter 196 (Game.hero playing)) playing).

(** ** Predicates for the further properties *)

(** One of the four unit vectors along the axes. *)
Definition is_cardinal (v : Vec) : Prop :=
  v = RIGHT \/ v = LEFT \/ v = DOWN \/ v = UP.

(** Inside the playfield margin that heroes and enemies are clamped to. *)
Definition in_field (p : Vec) : Prop :=
  12 <= vx p /\ vx p <= W - 12 /\ 12 <= vy p /\ vy p <= H - 12.

(** The overclock meter is within its range. *)
Definition meter_ok (g : Game.t) : Prop :=
  (0 <= Hero.oc_meter (Game.hero g) <= OC_MAX)%Z.

(** [g'] comes after [g] without loss: score and high score have not
    dropped, and the meter is in range if it was. *)
Definition fair_step (g g' : Game.t) : Prop :=
  (Game.score g <= Game.score g')%Z /\
  (Game.highscore g <= Game.highscore g')%Z /\
  (meter_ok g -> meter_ok g').

(** The events that end the loop of [run]. *)
Definition stops (ev : Event) : bool :=
  match ev with
  | QUIT => true
  | KEYDOWN K_ESCAPE => true
  | _ => false
  end.

(** At most one of the two emitters runs a train. *)
Definition one_train (g : Game.t) : Prop :=
  SurgeEmitter.active (Game.emit_row g) = false \/
  SurgeEmitter.active (Game.emit_col g) = false.

(** What keeps the pair [ei], [ej] from mitosis whatever the population:
    different classes, a running cooldown, or no contact. *)
Definition no_mitosis (ei ej : Enemy.t) : bool :=
  negb (Enemy.same_type ei ej)
  || (Qltb 0 (Enemy.rep_cd ei) || Qltb 0 (Enemy.rep_cd ej))
  || negb (within (Enemy.pos ei) (Enemy.pos ej)
                  (inject_Z (Enemy.r ei + Enemy.r ej))).

(** Surge [s] is in contact with enemy [e], as [handle_surge_hits] tests
    it. *)
Definition touches (s : Surge.t) (e : Enemy.t) : bool :=
  within (Enemy.pos e) (Surge.pos s) (inject_Z (Enemy.r e + Surge.r s)).

(** Surge [s] is in contact with the hero of [g]. *)
Definition reaches_hero (g : Game.t) (s : Surge.t) : bool :=
  within (Hero.pos (Game.hero g)) (Surge.pos s)
         (inject_Z (Hero.r (Game.hero g) + Surge.r s)).

(** A shot as the enemies fire it. *)
Definition enemy_shot (s : Surge.t) : Prop :=
  Surge.owner s = enemy /\ Surge.dmg s = 1%Z /\ Surge.pierce s = false /\
  is_cardinal (Surge.dir s) /\ Surge.r s = SURGE_R /\ Surge.ttl s = SURGE_LEN.

(** The number of shots in one volley of an enemy. *)
Definition volley (e : Enemy.t) : nat :=
  match Enemy.kind e with Virus _ => 4 | Bug => 1 | Worm _ => 2 end.

(** [e'] is [e] as far as class, tier, radius and health go. *)
Definition same_body (e e' : Enemy.t) : Prop :=
  Enemy.hp e' = Enemy.hp e /\ Enemy.r e' = Enemy.r e /\
  match Enemy.kind e with
  | Virus t => Enemy.kind e' = Virus t
  | Bug => Enemy.kind e' = Bug
  | Worm _ => exists d, Enemy.kind e' = Worm d
  end.

(** The screen shake is within the range that [add_shake] caps it to. *)
Definition shake_ok (g : Game.t) : Prop :=
  0 <= Game.shake g /\ Game.shake g <= 12.

(** * Properties *)

(** ** The model on small inputs *)

(** [round] goes to the even neighbour on a tie. *)
Example py_round_ties :
  py_round (5 # 2) = 2%Z /\ py_round (7 # 2) = 4%Z /\
  py_round (-5 # 2) = (-2)%Z /\ py_round (26 # 10) = 3%Z.
Proof. vm_compute. repeat split. Qed.

(** Ties between the axes go to the horizontal one; the zero vector
    gives rightward. *)
Example cardinal_from_samples :
  cardinal_from (mkVec 0 0) = RIGHT /\
  cardinal_from (mkVec 3 (-3)) = RIGHT /\
  cardinal_from (mkVec (-3) 2) = LEFT /\
  cardinal_from (mkVec 1 (-2)) = UP /\
  cardinal_from (mkVec 0 5) = DOWN.
Proof. vm_compute. repeat split. Qed.

(** A horizontal mover is locked in y, a vertical one in x. *)
Example snap_axis_sample :
  snap_axis (mkVec 100 100) RIGHT = mkVec 100 (inject_Z 2 * GRID) /\
  snap_axis (mkVec 100 100) DOWN = mkVec (inject_Z 2 * GRID) 100.
Proof. vm_compute. repeat split. Qed.

(** A Virus of tier 0 leaves no children, tiers 1 and 2 leave two of
    the tier below. *)
Example on_death_counts :
  length (fst (Enemy.on_death (fst (Enemy.new_Virus CENTER 0 rng_zero)) rng_zero)) = 0%nat /\
  map Enemy.kind (fst (Enemy.on_death (fst (Enemy.new_Virus CENTER 2 rng_zero)) rng_zero))
    = [Virus 1; Virus 1] /\
  map Enemy.kind (fst (Enemy.on_death (fst (Enemy.new_Virus CENTER 1 rng_zero)) rng_zero))
    = [Virus 0; Virus 0].
Proof. vm_compute. repeat split. Qed.

(** The first sector: 2 Viruses, 2 Bugs, 1 Worm, nothing else on the
    field, a hero at full health. *)
Example first_sector :
  length (Game.enemies playing) = 5%nat /\
  map Enemy.kind (firstn 4 (Game.enemies playing)) =
    [Virus 2; Virus 2; Bug; Bug] /\
  map Enemy.hp (Game.enemies playing) = [3; 3; 2; 2; 4]%Z /\
  map Enemy.r (Game.enemies playing) = [22; 22; 14; 14; 18]%Z /\
  Game.surges playing = [] /\ Game.glitches playing = [] /\
  Hero.hp (Game.hero playing) = 5%Z.
Proof. vm_compute. repeat split. Qed.

(** The second of two hits in a row is blocked. *)
Example hurt_twice :
  fst (Hero.hurt (Hero.new CENTER)) = true /\
  Hero.hp (snd (Hero.hurt (Hero.new CENTER))) = 4%Z /\
  fst (Hero.hurt (snd (Hero.hurt (Hero.new CENTER)))) = false /\
  Hero.hp (snd (Hero.hurt (snd (Hero.hurt (Hero.new CENTER))))) = 4%Z.
Proof. vm_compute. repeat split. Qed.

(** A plain player surge on a Virus of tier 2 with one point of health
    left: the Virus goes, its two children come, the surge is used up. *)
Example lethal_hit :
  map Enemy.kind (Game.enemies (Game.handle_surge_hits shot_at_virus)) = [Virus 1; Virus 1] /\
  Game.surges (Game.handle_surge_hits shot_at_virus) = [] /\
  Game.score (Game.handle_surge_hits shot_at_virus) = (45 + 120)%Z /\
  Hero.oc_meter (Game.hero (Game.handle_surge_hits shot_at_virus)) = 12%Z.
Proof. vm_compute. repeat split. Qed.

(** ** Basic facts on the numeric tests *)

Lemma Qltb_true (a b : Q) : Qltb a b = true <-> a < b.
Proof.
  unfold Qltb. rewrite negb_true_iff.
  split; intro Hab.
  - apply Qnot_le_lt. intro Hle. apply Qle_bool_iff in Hle. congruence.
  - destruct (Qle_bool b a) eqn:E; [|reflexivity].
    apply Qle_bool_iff in E. exfalso. apply (Qlt_not_le _ _ Hab E).
Qed.

Lemma Qltb_false (a b : Q) : Qltb a b = false <-> b <= a.
Proof.
  unfold Qltb. rewrite negb_false_iff. apply Qle_bool_iff.
Qed.

Lemma State_eqb_eq (a b : State) : State_eqb a b = true <-> a = b.
Proof. destruct a, b; simpl; split; congruence. Qed.

Lemma Owner_eqb_eq (a b : Owner) : Owner_eqb a b = true <-> a = b.
Proof. destruct a, b; simpl; split; congruence. Qed.

(** An invariant of a [fold_left] loop. *)
Lemma fold_left_inv {A B : Type} (P : A -> Prop) (f : A -> B -> A) (l : list B) :
  (forall a x, In x l -> P a -> P (f a x)) ->
  forall a, P a -> P (fold_left f l a).
Proof.
  induction l as [|x l IH]; intros Hstep a Ha; simpl; [exact Ha|].
  apply IH.
  - intros a' y Hy. apply Hstep. now right.
  - apply Hstep; [now left | exact Ha].
Qed.

(** ** Frames outside the play state *)

(** What [draw] leaves alone. *)
Lemma draw_keeps (g : Game.t) :
  Game.state (Game.draw g) = Game.state g /\
  Game.hero (Game.draw g) = Game.hero g /\
  Game.enemies (Game.draw g) = Game.enemies g /\
  Game.surges (Game.draw g) = Game.surges g /\
  Game.glitches (Game.draw g) = Game.glitches g /\
  Game.score (Game.draw g) = Game.score g.
Proof.
  unfold Game.draw.
  destruct (Game.fancy_vfx g && Qltb 0 (Game.shake g)); simpl; repeat split.
Qed.

(** [Game.update] returns at once in the menu, after a game over and
    after a sector is cleared. *)
Lemma update_early_return (dt : Q) (inp : Input) (g : Game.t) :
  Game.state g = menu \/ Game.state g = gameover \/ Game.state g = sectorclear ->
  Game.update dt inp g = g.
Proof.
  unfold Game.update. intros [E | [E | E]]; rewrite E; reflexivity.
Qed.

(** Outside the play state the loop body of [run] only draws. *)
Lemma frame_outside_play (evs : list Event) (inp : Input) (dt : Q)
    (g g1 : Game.t) :
  Game.handle_events evs g = Some g1 ->
  Game.state g1 <> play ->
  Game.frame evs inp dt g = Some (Game.draw g1).
Proof.
  intros Hev Hst. unfold Game.frame. rewrite Hev.
  destruct (Game.state g1) eqn:E; simpl; try reflexivity.
  - rewrite update_early_return; [reflexivity | now left].
  - congruence.
  - rewrite update_early_return; [reflexivity | right; now left].
  - rewrite update_early_return; [reflexivity | right; now right].
Qed.

Lemma same_scene_refl (g : Game.t) : same_scene g g.
Proof. unfold same_scene. repeat split. Qed.

Lemma same_scene_trans (a b c : Game.t) :
  same_scene a b -> same_scene b c -> same_scene a c.
Proof.
  unfold same_scene.
  intros (A1 & A2 & A3 & A4 & A5 & A6) (B1 & B2 & B3 & B4 & B5 & B6).
  repeat split; congruence.
Qed.

Lemma on_keydown_asleep (k : Key) (g : Game.t) :
  Game.state g <> play ->
  wakes (Game.state g) (KEYDOWN k) = false ->
  same_scene g (Game.on_keydown k g).
Proof.
  intros Hs Hw. unfold Game.on_keydown.
  set (g1 := if Game.Key_eqb k K_p && _ then _ else g).
  assert (H1 : g1 = g).
  { unfold g1.
    destruct (Game.state g) eqn:Est; try congruence; cbn [State_eqb orb];
      cbn [wakes] in Hw; rewrite ?Hw, ?andb_false_r; reflexivity. }
  clearbody g1. subst g1.
  set (g2 := if Game.Key_eqb k K_v then _ else g).
  assert (H2 : same_scene g g2)
    by (unfold g2; destruct (Game.Key_eqb k K_v);
        [unfold same_scene; repeat split | apply same_scene_refl]).
  clearbody g2.
  set (g3 := if Game.Key_eqb k K_m then _ else g2).
  assert (H3 : same_scene g g3).
  { unfold g3. destruct (Game.Key_eqb k K_m); [|exact H2].
    eapply same_scene_trans; [exact H2|]. unfold same_scene. repeat split. }
  clearbody g3.
  assert (E3 : Game.state g3 = Game.state g) by apply H3.
  set (g4 := if Game.Key_eqb k K_r && _ then _ else g3).
  assert (H4 : g4 = g3).
  { unfold g4. rewrite E3.
    destruct (Game.state g) eqn:Est; try congruence; cbn [State_eqb];
      cbn [wakes] in Hw; rewrite ?Hw, ?andb_false_r; reflexivity. }
  clearbody g4. subst g4.
  set (g5 := if State_eqb (Game.state g3) menu && _ then _ else g3).
  assert (H5 : g5 = g3).
  { unfold g5. rewrite E3.
    destruct (Game.state g) eqn:Est; try congruence; cbn [State_eqb andb];
      cbn [wakes] in Hw; rewrite ?Hw; reflexivity. }
  clearbody g5. subst g5.
  assert (H6 : (if State_eqb (Game.state g3) sectorclear
                   && (Game.Key_eqb k K_SPACE || Game.Key_eqb k K_RETURN)
                then Game.next_sector g3 else g3) = g3).
  { rewrite E3.
    destruct (Game.state g) eqn:Est; try congruence; cbn [State_eqb andb];
      cbn [wakes] in Hw; rewrite ?Hw; reflexivity. }
  rewrite H6. exact H3.
Qed.

Lemma on_mousedown_asleep (b : Z) (g : Game.t) :
  Game.state g <> play ->
  wakes (Game.state g) (MOUSEBUTTONDOWN b) = false ->
  Game.on_mousedown b g = g.
Proof.
  intros Hs Hw. unfold Game.on_mousedown.
  set (g1 := if State_eqb (Game.state g) menu && _ then _ else g).
  assert (H1 : g1 = g).
  { unfold g1.
    destruct (Game.state g) eqn:Est; try congruence; cbn [State_eqb andb];
      cbn [wakes] in Hw; rewrite ?Hw; reflexivity. }
  clearbody g1. subst g1.
  destruct (Game.state g) eqn:Est; try congruence; cbn [State_eqb andb];
    cbn [wakes] in Hw; rewrite ?Hw; reflexivity.
Qed.

Lemma handle_events_asleep (evs : list Event) :
  forall g g1,
    Game.state g <> play ->
    forallb (fun ev => negb (wakes (Game.state g) ev)) evs = true ->
    Game.handle_events evs g = Some g1 ->
    same_scene g g1.
Proof.
  induction evs as [|ev evs IH]; intros g g1 Hs Hall Hev.
  - cbn in Hev. inversion Hev. apply same_scene_refl.
  - cbn [forallb] in Hall. apply andb_true_iff in Hall.
    destruct Hall as [Hw Hall]. apply negb_true_iff in Hw.
    destruct ev as [|k|b|]; cbn [Game.handle_events] in Hev.
    + discriminate.
    + destruct (Game.Key_eqb k K_ESCAPE); [discriminate|].
      pose proof (on_keydown_asleep k g Hs Hw) as Hk.
      assert (Es : Game.state (Game.on_keydown k g) = Game.state g) by apply Hk.
      eapply same_scene_trans; [exact Hk|].
      apply IH; [congruence | now rewrite Es | exact Hev].
    + rewrite (on_mousedown_asleep b g Hs Hw) in Hev. now apply IH.
    + now apply IH.
Qed.

(** C8 (as amended). In a state other than "play" (menu, paused,
    gameover, sectorclear) a frame none of whose events takes the game
    into play (P when paused, R after a game over, SPACE, RETURN or the
    left button in the menu and after a cleared sector) advances no
    entity: the frame goes through, and the hero (with its overclock
    meter), the enemies, the surges, the hazards, the score and the state
    after it are those before it. *)
Theorem frame_static_outside_play (evs : list Event) (inp : Input) (dt : Q)
    (g : Game.t) :
  Game.state g <> play ->
  forallb (fun ev => negb (wakes (Game.state g) ev)) evs = true ->
  Game.handle_events evs g <> None ->
  exists g' : Game.t,
    Game.frame evs inp dt g = Some g' /\
    Game.state g' = Game.state g /\
    Game.hero g' = Game.hero g /\
    Hero.oc_meter (Game.hero g') = Hero.oc_meter (Game.hero g) /\
    Game.enemies g' = Game.enemies g /\
    Game.surges g' = Game.surges g /\
    Game.glitches g' = Game.glitches g /\
    Game.score g' = Game.score g.
Proof.
  intros Hs Hall Hgo.
  destruct (Game.handle_events evs g) as [g1|] eqn:Hev; [|congruence].
  destruct (handle_events_asleep evs g g1 Hs Hall Hev)
    as (A1 & A2 & A3 & A4 & A5 & A6).
  exists (Game.draw g1).
  split; [apply frame_outside_play; [exact Hev | congruence]|].
  destruct (draw_keeps g1) as (E1 & E2 & E3 & E4 & E5 & E6).
  rewrite E2. repeat split; congruence.
Qed.

(** The theorem at a paused game and a frame in which V and M are
    pressed and the pointer clicks. *)
Lemma frame_static_outside_play_witness :
  exists g' : Game.t,
    Game.frame [KEYDOWN K_v; MOUSEBUTTONDOWN 1; KEYDOWN K_m] shift_held
      (1 # 60) dozing = Some g' /\
    Game.state g' = paused /\
    Game.hero g' = Game.hero dozing /\
    Game.enemies g' = Game.enemies dozing /\
    Game.surges g' = Game.surges dozing /\
    Game.score g' = Game.score dozing.
Proof.
  destruct (frame_static_outside_play
              [KEYDOWN K_v; MOUSEBUTTONDOWN 1; KEYDOWN K_m] shift_held
              (1 # 60) dozing)
    as (g' & E & Est & Eh & _ & Ee & Es & _ & Esc).
  - vm_compute. discriminate.
  - vm_compute. reflexivity.
  - vm_compute. discriminate.
  - exists g'. split; [exact E|]. split; [rewrite Est; reflexivity|].
    repeat split; assumption.
Defined.

(** C8 as stated fails: a frame that starts in a state other than play
    runs the update when one of its events takes the game into play. The
    P key on the paused first sector resumes it, and the update of the
    same frame moves the enemies and lets them divide: 7 enemies where
    there were 5. *)
Lemma frame_can_leave_pause :
  ~ (forall (evs : list Event) (inp : Input) (dt : Q) (g g' : Game.t),
        Game.state g <> play ->
        Game.frame evs inp dt g = Some g' ->
        Game.hero g' = Game.hero g /\
        Game.enemies g' = Game.enemies g /\
        Game.surges g' = Game.surges g /\
        Game.glitches g' = Game.glitches g /\
        Game.score g' = Game.score g).
Proof.
  intro Hclaim.
  assert (Hf : Game.frame [KEYDOWN K_p] idle (1 # 60) dozing =
               Some (Game.draw (Game.update (1 # 60) idle
                                  (Game.set_state play dozing))))
    by (vm_compute; reflexivity).
  assert (Hs : Game.state dozing <> play) by (vm_compute; discriminate).
  destruct (Hclaim _ _ _ _ _ Hs Hf) as (_ & Ee & _).
  apply (f_equal (@length Enemy.t)) in Ee.
  vm_compute in Ee. discriminate.
Qed.

(** The same frame, spelled out. *)
Lemma resumed_frame_advances :
  Game.state dozing = paused /\
  length (Game.enemies dozing) = 5%nat /\
  exists g' : Game.t,
    Game.frame [KEYDOWN K_p] idle (1 # 60) dozing = Some g' /\
    Game.state g' = play /\
    length (Game.enemies g') = 7%nat.
Proof.
  split; [vm_compute; reflexivity|]. split; [vm_compute; reflexivity|].
  exists (Game.draw (Game.update (1 # 60) idle (Game.set_state play dozing))).
  vm_compute. repeat split.
Qed.

(** A frame without input events changes nothing of the simulation
    outside the play state. *)
Lemma quiet_frame_static (inp : Input) (dt : Q) (g : Game.t) :
  Game.state g <> play ->
  Game.frame [] inp dt g = Some (Game.draw g).
Proof. intro Hst. now apply frame_outside_play. Qed.

(** ** The overclock blast *)

(** [Hero.update] moves the hero and runs its timers down; health, meter
    and radius stay. *)
Lemma Hero_update_keeps (dt : Q) (ks : Key -> bool) (h : Hero.t) :
  Hero.hp (Hero.update dt ks h) = Hero.hp h /\
  Hero.oc_meter (Hero.update dt ks h) = Hero.oc_meter h /\
  Hero.r (Hero.update dt ks h) = Hero.r h.
Proof.
  unfold Hero.update.
  set (m := normalize_move _).
  set (c1 := Qltb 0 (length_squared _)).
  destruct c1; cbn [Hero.pos Hero.set_pos Hero.set_face Hero.ifr Hero.cd];
  match goal with |- context [Qltb 0 (Hero.ifr ?h)] => destruct (Qltb 0 (Hero.ifr h)) end;
  cbn [Hero.cd Hero.set_ifr Hero.set_pos Hero.set_face];
  match goal with |- context [Qltb 0 (Hero.cd ?h)] => destruct (Qltb 0 (Hero.cd h)) end;
  repeat split.
Qed.

Lemma add_shake_keeps (a : Q) (g : Game.t) :
  Game.state (Game.add_shake a g) = Game.state g /\
  Game.hero (Game.add_shake a g) = Game.hero g /\
  Game.enemies (Game.add_shake a g) = Game.enemies g /\
  Game.surges (Game.add_shake a g) = Game.surges g /\
  Game.glitches (Game.add_shake a g) = Game.glitches g /\
  Game.score (Game.add_shake a g) = Game.score g.
Proof.
  unfold Game.add_shake. destruct (Game.fancy_vfx g); simpl; repeat split.
Qed.

(** The blast list, spelled out. *)
Lemma blast_surges_eq (p : Vec) :
  Game.blast_surges p =
      [ Surge.mk p RIGHT OC_SURGE_SPEED OC_SURGE_TTL oc OC_SURGE_R
                 OC_SURGE_DMG true [];
        Surge.mk p LEFT OC_SURGE_SPEED OC_SURGE_TTL oc OC_SURGE_R
                 OC_SURGE_DMG true [];
        Surge.mk p DOWN OC_SURGE_SPEED OC_SURGE_TTL oc OC_SURGE_R
                 OC_SURGE_DMG true [];
        Surge.mk p UP OC_SURGE_SPEED OC_SURGE_TTL oc OC_SURGE_R
                 OC_SURGE_DMG true [] ].
Proof. reflexivity. Qed.

(** C5. In a play-state update with the meter full and a shift key held,
    the blast trigger (which follows the hero's own update and precedes
    everything else of the frame) appends exactly four surges to the surge
    list, one for each of right, left, down and up, all at the hero's
    position, piercing, owned by the overclock faction, and leaves the
    meter at exactly 0. *)
Theorem overclock_blast_fires (dt : Q) (inp : Input) (g : Game.t) :
  Game.state g = play ->
  (OC_MAX <= Hero.oc_meter (Game.hero g))%Z ->
  keys inp K_LSHIFT = true \/ keys inp K_RSHIFT = true ->
  let g1 := Game.hero_phase dt inp g in
  let g2 := Game.blast_phase inp g1 in
  let p := Hero.pos (Game.hero g1) in
  Game.update dt inp g = Game.after_blast dt inp g2 /\
  Game.surges g2 =
    Game.surges g ++
      [ Surge.mk p RIGHT OC_SURGE_SPEED OC_SURGE_TTL oc OC_SURGE_R
                 OC_SURGE_DMG true [];
        Surge.mk p LEFT OC_SURGE_SPEED OC_SURGE_TTL oc OC_SURGE_R
                 OC_SURGE_DMG true [];
        Surge.mk p DOWN OC_SURGE_SPEED OC_SURGE_TTL oc OC_SURGE_R
                 OC_SURGE_DMG true [];
        Surge.mk p UP OC_SURGE_SPEED OC_SURGE_TTL oc OC_SURGE_R
                 OC_SURGE_DMG true [] ] /\
  Hero.oc_meter (Game.hero g2) = 0%Z /\
  Hero.pos (Game.hero g2) = p.
Proof.
  intros Hst Hfull Hkey g1 g2 p.
  assert (Hready : Hero.ready_overclock (Game.hero g1) = true).
  { unfold Hero.ready_overclock, g1, Game.hero_phase.
    cbn [Game.hero Game.set_hero].
    destruct (Hero_update_keeps dt (keys inp) (Game.hero g)) as (_ & E & _).
    rewrite E. now apply Z.leb_le. }
  assert (Hk : keys inp K_LSHIFT || keys inp K_RSHIFT = true).
  { apply orb_true_iff. exact Hkey. }
  split.
  { unfold Game.update. rewrite Hst. reflexivity. }
  assert (Es1 : Game.surges g1 = Game.surges g) by reflexivity.
  unfold g2, Game.blast_phase. rewrite Hk, Hready. cbn [andb].
  destruct (add_shake_keeps OC_BLAST_SHAKE_STRENGTH
              (Game.set_oc_blast_timer OC_BLAST_SHAKE_TIME
                 (Game.fire_overclock_blast g1)))
    as (_ & Eh & _ & Es & _).
  rewrite Eh, Es. clear Eh Es.
  unfold Game.fire_overclock_blast.
  cbn [Game.hero Game.surges Game.set_oc_blast_timer Game.spark Game.sfx_play
       Game.set_rng Game.set_sfx_log Game.set_hero Game.set_surges
       Hero.reset_overclock Hero.set_oc_meter Hero.oc_meter Hero.pos].
  rewrite Es1, blast_surges_eq. fold p. repeat split.
Qed.

(** The theorem at a game in play with a full meter and left shift held. *)
Lemma overclock_blast_fires_witness :
  length (Game.surges
            (Game.blast_phase shift_held
               (Game.hero_phase (1 # 60) shift_held charged))) =
    (length (Game.surges charged) + 4)%nat /\
  Hero.oc_meter
    (Game.hero (Game.blast_phase shift_held
                  (Game.hero_phase (1 # 60) shift_held charged))) = 0%Z.
Proof.
  destruct (overclock_blast_fires (1 # 60) shift_held charged)
    as (_ & Es & Em & _).
  - reflexivity.
  - vm_compute. discriminate.
  - left. reflexivity.
  - split; [rewrite Es; rewrite length_app; reflexivity | exact Em].
Defined.

(** ** The meter and surge cancellation *)

Lemma clampZ_bounds (v a b : Z) : (a <= b)%Z -> (a <= clampZ v a b <= b)%Z.
Proof.
  intro Hab. unfold clampZ.
  destruct (v <? a)%Z eqn:E1; [lia|].
  destruct (b <? v)%Z eqn:E2; [lia|].
  apply Z.ltb_ge in E1, E2. lia.
Qed.

Lemma clampZ_min (v b : Z) : (0 <= v)%Z -> clampZ v 0 b = Z.min v b.
Proof.
  intro Hv. unfold clampZ.
  destruct (v <? 0)%Z eqn:E1; [apply Z.ltb_lt in E1; lia|].
  destruct (b <? v)%Z eqn:E2;
    [apply Z.ltb_lt in E2 | apply Z.ltb_ge in E2]; lia.
Qed.

(** The meter stays within its bounds whatever is added. *)
Lemma add_oc_bounds (v : Z) (h : Hero.t) :
  (0 <= Hero.oc_meter (Hero.add_oc v h) <= OC_MAX)%Z.
Proof.
  unfold Hero.add_oc. simpl. apply clampZ_bounds. unfold OC_MAX. lia.
Qed.

Lemma spark_keeps_hero (n : nat) (g : Game.t) :
  Game.hero (Game.spark n g) = Game.hero g.
Proof. reflexivity. Qed.

(** A pass without a plain player surge leaves the hero alone. *)
Lemma cancel_pair_no_player (ss : list Surge.t) (i : nat) (si : Surge.t)
    (st : list nat * Game.t) (j : nat) :
  Surge.owner si <> player ->
  (forall s, In s ss -> Surge.owner s <> player) ->
  Game.hero (snd (Game.cancel_pair ss i si st j)) = Game.hero (snd st).
Proof.
  intros Hi Hall. unfold Game.cancel_pair.
  destruct (Game.in_dead j (fst st)); [reflexivity|].
  destruct (nth_error ss j) as [sj|] eqn:Ej; [|reflexivity].
  destruct (Game.clash si sj); [|reflexivity].
  destruct (Game.in_cancel_range si sj); [|reflexivity].
  destruct st as [dead g]. unfold Game.resolve_cancel.
  assert (Hj : Surge.owner sj <> player)
    by (apply Hall; eapply nth_error_In; eassumption).
  destruct (Owner_eqb (Surge.owner si) player) eqn:E1;
    [apply Owner_eqb_eq in E1; contradiction|].
  destruct (Owner_eqb (Surge.owner sj) player) eqn:E2;
    [apply Owner_eqb_eq in E2; contradiction|].
  reflexivity.
Qed.

Lemma cancel_rows_no_player (k : nat) (g : Game.t) :
  (forall s, In s (Game.surges g) -> Surge.owner s <> player) ->
  Game.hero (snd (Game.cancel_rows k g)) = Game.hero g.
Proof.
  intro Hall. unfold Game.cancel_rows.
  apply (fold_left_inv (fun st => Game.hero (snd st) = Game.hero g)); [|reflexivity].
  intros st i _ Hst. unfold Game.cancel_row.
  destruct (Game.in_dead i (fst st)); [exact Hst|].
  destruct (nth_error (Game.surges g) i) as [si|] eqn:Ei; [|exact Hst].
  apply (fold_left_inv (fun st => Game.hero (snd st) = Game.hero g)); [|exact Hst].
  intros st' j _ Hst'. rewrite cancel_pair_no_player; auto.
  apply Hall. eapply nth_error_In; eassumption.
Qed.

(** ** Damage to the hero *)

Lemma hit_surge_ignores_hostile_damage (s : Surge.t) (d : Z) (g : Game.t) :
  Game.is_friend (Surge.owner s) = false ->
  Game.hit_surge (Surge.set_dmg d s) g = Game.hit_surge s g.
Proof.
  intro Hs. unfold Game.hit_surge. simpl. rewrite Hs. reflexivity.
Qed.

(** C10. A hit that lands on the hero takes exactly 1 health, whatever
    the damage field of the surge: [hurt] has no damage argument; a
    hostile surge in contact with a hero who is not invulnerable leaves
    the health one lower and is itself consumed; and the game after the
    whole surge-hit pass is the same when the hostile surges carry any
    other damage values. *)
Theorem hero_damage_is_always_one :
  (forall h h' : Hero.t,
      Hero.hurt h = (true, h') -> Hero.hp h' = (Hero.hp h - 1)%Z) /\
  (forall (s : Surge.t) (g : Game.t),
      Game.is_friend (Surge.owner s) = false ->
      within (Hero.pos (Game.hero g)) (Surge.pos s)
             (inject_Z (Hero.r (Game.hero g) + Surge.r s)) = true ->
      Hero.ifr (Game.hero g) <= 0 ->
      fst (Game.hit_surge s g) = false /\
      Hero.hp (Game.hero (snd (Game.hit_surge s g))) =
        (Hero.hp (Game.hero g) - 1)%Z) /\
  (forall (f : Surge.t -> Z) (copy : list Surge.t) (g : Game.t),
      snd (Game.hit_surges (map (with_hostile_damage f) copy) g) =
      snd (Game.hit_surges copy g)).
Proof.
  split; [|split].
  - intros h h'. unfold Hero.hurt.
    destruct (Qltb 0 (Hero.ifr h)); intro E; inversion E. reflexivity.
  - intros s g Hs Hin Hifr. unfold Game.hit_surge. rewrite Hs, Hin.
    unfold Hero.hurt.
    apply Qltb_false in Hifr. rewrite Hifr. simpl.
    destruct (add_shake_keeps 6
                (Game.sfx_play "hurt"
                   (Game.set_hero
                      (Hero.set_ifr HERO_IFRAMES
                         (Hero.set_hp (Hero.hp (Game.hero g) - 1)
                            (Game.hero g))) g)))
      as (_ & Eh & _).
    rewrite Eh. simpl. split; reflexivity.
  - intros f copy. induction copy as [|s rest IH]; intro g; [reflexivity|].
    simpl.
    assert (E : Game.hit_surge (with_hostile_damage f s) g = Game.hit_surge s g).
    { unfold with_hostile_damage.
      destruct (Game.is_friend (Surge.owner s)) eqn:Hs; [reflexivity|].
      now apply hit_surge_ignores_hostile_damage. }
    rewrite E. destruct (Game.hit_surge s g) as [stays g1].
    specialize (IH g1).
    destruct (Game.hit_surges (map (with_hostile_damage f) rest) g1) as [l1 ga].
    destruct (Game.hit_surges rest g1) as [l2 gb].
    simpl in IH. simpl. exact IH.
Qed.

(** The theorem at a hostile surge of damage 2 on top of a fresh hero:
    the health goes from 5 to 4. *)
Lemma hero_damage_is_always_one_witness :
  Surge.dmg heavy_hostile = 2%Z /\
  Hero.hp (Game.hero (snd (Game.hit_surge heavy_hostile playing))) = 4%Z.
Proof.
  split; [reflexivity|].
  destruct hero_damage_is_always_one as (_ & Hhit & _).
  destruct (Hhit heavy_hostile playing) as [_ E].
  - reflexivity.
  - reflexivity.
  - vm_compute. discriminate.
  - rewrite E. reflexivity.
Defined.

(** ** Mitosis *)

(** The constructors give the class asked for, and the position. *)
Lemma new_Virus_fields (p : Vec) (tier : Z) (r : Rng) :
  Enemy.kind (fst (Enemy.new_Virus p tier r)) = Virus tier /\
  Enemy.pos (fst (Enemy.new_Virus p tier r)) = p.
Proof. split; reflexivity. Qed.

Lemma new_Bug_fields (p : Vec) (r : Rng) :
  Enemy.kind (fst (Enemy.new_Bug p r)) = Bug /\
  Enemy.pos (fst (Enemy.new_Bug p r)) = p.
Proof. split; reflexivity. Qed.

Lemma new_Worm_fields (p : Vec) (r : Rng) :
  (exists d, Enemy.kind (fst (Enemy.new_Worm p r)) = Worm d) /\
  Enemy.pos (fst (Enemy.new_Worm p r)) = p.
Proof. split; [eexists|]; reflexivity. Qed.

(** The pass on a field of exactly two enemies that qualify: the two
    parents stay at their indices, on cooldown, and the child is appended. *)
Lemma mitosis_two (g : Game.t) (e0 e1 : Enemy.t) :
  Game.enemies g = [e0; e1] ->
  Enemy.same_type e0 e1 = true ->
  Enemy.rep_cd e0 <= 0 -> Enemy.rep_cd e1 <= 0 ->
  within (Enemy.pos e0) (Enemy.pos e1)
         (inject_Z (Enemy.r e0 + Enemy.r e1)) = true ->
  Game.enemies (Game.handle_enemy_mitosis g) =
    [Enemy.set_rep_cd (3 # 4) e0; Enemy.set_rep_cd (3 # 4) e1;
     fst (Game.mitosis_child e0 e1 (Game.rng g))].
Proof.
  intros He Hty H0 H1 Hin.
  apply Qltb_false in H0, H1.
  unfold Game.handle_enemy_mitosis, Game.mitosis_row. rewrite He.
  cbn [length seq Nat.sub fold_left].
  unfold Game.mitosis_pair. rewrite He. cbn [nth_error].
  rewrite Hty, H0, H1, Hin. cbn [negb orb length Nat.add].
  change (MAX_ENEMIES_ON_FIELD <=? 2)%nat with false.
  destruct (Game.mitosis_child e0 e1 (Game.rng g)) as [child r3].
  reflexivity.
Qed.

Lemma uniform_6_bound (r : Rng) :
  unit_draws r -> Qabs (fst (uniform (-6) 6 r)) <= 6.
Proof.
  intro Hr. unfold uniform, random. cbn [fst].
  destruct (Hr 0%nat) as [Hlo Hhi].
  apply Qabs_Qle_condition. split; lra.
Qed.

Lemma unit_draws_tail (r : Rng) :
  unit_draws r -> unit_draws (snd (random r)).
Proof. intros Hr n. apply (Hr (S n)). Qed.

(** The child is within 6 of the midpoint on each axis. *)
Lemma mitosis_child_near (e0 e1 : Enemy.t) (r : Rng) :
  unit_draws r ->
  let c := fst (Game.mitosis_child e0 e1 r) in
  Qabs (vx (Enemy.pos c) - (vx (Enemy.pos e0) + vx (Enemy.pos e1)) / 2) <= 6 /\
  Qabs (vy (Enemy.pos c) - (vy (Enemy.pos e0) + vy (Enemy.pos e1)) / 2) <= 6.
Proof.
  intros Hr c.
  pose proof (uniform_6_bound r Hr) as Hx.
  pose proof (uniform_6_bound _ (unit_draws_tail r Hr)) as Hy.
  assert (Epos : Enemy.pos c =
                 vadd (vdiv (vadd (Enemy.pos e0) (Enemy.pos e1)) 2)
                      (mkVec (fst (uniform (-6) 6 r))
                             (fst (uniform (-6) 6 (snd (random r)))))).
  { unfold c, Game.mitosis_child. destruct (Enemy.kind e0); reflexivity. }
  rewrite Epos. unfold vadd, vdiv. cbn [vx vy].
  apply Qabs_Qle_condition in Hx, Hy.
  split; apply Qabs_Qle_condition; split; lra.
Qed.

Lemma mitosis_child_fields (e0 e1 : Enemy.t) (r : Rng) :
  Enemy.same_type (fst (Game.mitosis_child e0 e1 r)) e0 = true /\
  Enemy.rep_cd (fst (Game.mitosis_child e0 e1 r)) = 3 # 4 /\
  (forall tier, Enemy.kind e0 = Virus tier ->
                Enemy.kind (fst (Game.mitosis_child e0 e1 r)) = Virus tier).
Proof.
  unfold Game.mitosis_child, Enemy.same_type.
  destruct (Enemy.kind e0) eqn:E; simpl; repeat split; congruence.
Qed.

Lemma unit_draws_half : unit_draws rng_half.
Proof. intro n. unfold rng_half. split; lra. Qed.

(** C6. On a field of exactly two enemies of the same concrete type, both
    with a mitosis cooldown of zero and no further apart than the sum of
    their radii (the count, 2, is below MAX_ENEMIES_ON_FIELD), one run of
    the mitosis pass yields exactly three enemies: the two parents and one
    child of the parents' type, whose position is within 6 of the pair's
    midpoint on each axis; all three have a positive mitosis cooldown
    (0.75). *)
Theorem mitosis_spawns_one_child (g : Game.t) (e0 e1 : Enemy.t) :
  Game.enemies g = [e0; e1] ->
  Enemy.same_type e0 e1 = true ->
  Enemy.rep_cd e0 == 0 -> Enemy.rep_cd e1 == 0 ->
  within (Enemy.pos e0) (Enemy.pos e1)
         (inject_Z (Enemy.r e0 + Enemy.r e1)) = true ->
  unit_draws (Game.rng g) ->
  (length (Game.enemies g) < MAX_ENEMIES_ON_FIELD)%nat /\
  exists p0 p1 child,
    Game.enemies (Game.handle_enemy_mitosis g) = [p0; p1; child] /\
    p0 = Enemy.set_rep_cd (3 # 4) e0 /\
    p1 = Enemy.set_rep_cd (3 # 4) e1 /\
    Enemy.same_type child e0 = true /\
    Enemy.same_type child e1 = true /\
    0 < Enemy.rep_cd p0 /\ 0 < Enemy.rep_cd p1 /\ 0 < Enemy.rep_cd child /\
    Qabs (vx (Enemy.pos child)
          - (vx (Enemy.pos e0) + vx (Enemy.pos e1)) / 2) <= 6 /\
    Qabs (vy (Enemy.pos child)
          - (vy (Enemy.pos e0) + vy (Enemy.pos e1)) / 2) <= 6.
Proof.
  intros He Hty H0 H1 Hin Hr.
  split; [rewrite He; unfold MAX_ENEMIES_ON_FIELD; simpl; lia|].
  exists (Enemy.set_rep_cd (3 # 4) e0), (Enemy.set_rep_cd (3 # 4) e1),
         (fst (Game.mitosis_child e0 e1 (Game.rng g))).
  destruct (mitosis_child_fields e0 e1 (Game.rng g)) as (Hsame & Hcd & _).
  destruct (mitosis_child_near e0 e1 (Game.rng g) Hr) as [Hx Hy].
  split.
  { apply mitosis_two; try assumption.
    - rewrite H0. apply Qle_refl.
    - rewrite H1. apply Qle_refl. }
  repeat split; try assumption; try reflexivity.
  - revert Hsame Hty. unfold Enemy.same_type.
    destruct (Enemy.kind (fst (Game.mitosis_child e0 e1 (Game.rng g))));
      destruct (Enemy.kind e0); destruct (Enemy.kind e1); congruence.
  - rewrite Hcd. reflexivity.
Qed.

(** The theorem at two tier-2 Viruses 4 apart on the same wire. *)
Lemma mitosis_spawns_one_child_witness :
  length (Game.enemies
            (Game.handle_enemy_mitosis
               (Game.set_rng rng_half (virus_pair 2 2)))) = 3%nat.
Proof.
  destruct (mitosis_spawns_one_child
              (Game.set_rng rng_half (virus_pair 2 2))
              (virus_at 96 2) (virus_at 100 2))
    as (_ & p0 & p1 & child & E & _).
  - reflexivity.
  - reflexivity.
  - reflexivity.
  - reflexivity.
  - vm_compute. reflexivity.
  - exact unit_draws_half.
  - rewrite E. reflexivity.
Defined.

(** C9. Two Viruses count as the same concrete type whatever their tiers,
    and the child of a pair of Viruses takes the tier of the parent at the
    lower index: a tier-2 Virus at index 0 in contact with a tier-0 Virus
    at index 1 gets a tier-2 child. *)
Theorem virus_child_copies_first_parent_tier (g : Game.t) (e0 e1 : Enemy.t)
    (t0 t1 : Z) :
  Game.enemies g = [e0; e1] ->
  Enemy.kind e0 = Virus t0 ->
  Enemy.kind e1 = Virus t1 ->
  Enemy.rep_cd e0 <= 0 -> Enemy.rep_cd e1 <= 0 ->
  within (Enemy.pos e0) (Enemy.pos e1)
         (inject_Z (Enemy.r e0 + Enemy.r e1)) = true ->
  Enemy.same_type e0 e1 = true /\
  exists child,
    Game.enemies (Game.handle_enemy_mitosis g) =
      [Enemy.set_rep_cd (3 # 4) e0; Enemy.set_rep_cd (3 # 4) e1; child] /\
    Enemy.kind child = Virus t0.
Proof.
  intros He K0 K1 H0 H1 Hin.
  assert (Hty : Enemy.same_type e0 e1 = true)
    by (unfold Enemy.same_type; rewrite K0, K1; reflexivity).
  split; [exact Hty|].
  exists (fst (Game.mitosis_child e0 e1 (Game.rng g))).
  split; [now apply mitosis_two|].
  destruct (mitosis_child_fields e0 e1 (Game.rng g)) as (_ & _ & Hk).
  now apply Hk.
Qed.

(** The theorem at a tier-2 Virus followed by a tier-0 Virus: the child
    has tier 2. *)
Lemma virus_child_copies_first_parent_tier_witness :
  exists child,
    nth_error (Game.enemies (Game.handle_enemy_mitosis (virus_pair 2 0))) 2
      = Some child /\
    Enemy.kind child = Virus 2.
Proof.
  destruct (virus_child_copies_first_parent_tier (virus_pair 2 0)
              (virus_at 96 2) (virus_at 100 0) 2 0)
    as (_ & child & E & K).
  - reflexivity.
  - reflexivity.
  - reflexivity.
  - vm_compute. discriminate.
  - vm_compute. discriminate.
  - vm_compute. reflexivity.
  - exists child. rewrite E. split; [reflexivity | exact K].
Defined.

(** ** The surge-cancellation pass *)

Lemma in_dead_add (k k' : nat) (d : list nat) :
  Game.in_dead k (Game.dead_add k' d) = Nat.eqb k k' || Game.in_dead k d.
Proof.
  unfold Game.dead_add.
  destruct (Game.in_dead k' d) eqn:E.
  - destruct (Nat.eqb k k') eqn:Ek; [|reflexivity].
    apply Nat.eqb_eq in Ek. subst. exact E.
  - reflexivity.
Qed.

(** In a clash with an overclock surge the other surge is hostile. *)
Lemma clash_oc_left (si sj : Surge.t) :
  Game.clash si sj = true -> Surge.owner si = oc ->
  Game.is_foe (Surge.owner sj) = true.
Proof.
  unfold Game.clash. intros Hc Ho. rewrite Ho in Hc.
  destruct (Surge.owner sj); simpl in *; congruence.
Qed.

Lemma clash_oc_right (si sj : Surge.t) :
  Game.clash si sj = true -> Surge.owner sj = oc ->
  Game.is_foe (Surge.owner si) = true.
Proof.
  unfold Game.clash. intros Hc Ho. rewrite Ho in Hc.
  destruct (Surge.owner si); simpl in *; congruence.
Qed.

(** The indices a resolved pairing marks, by the factions involved. *)
Lemma resolve_cancel_dead (i j : nat) (si sj : Surge.t) (dead : list nat)
    (g : Game.t) (k : nat) :
  Game.clash si sj = true ->
  Game.in_dead k (fst (Game.resolve_cancel i j si sj (dead, g))) =
    (if Owner_eqb (Surge.owner si) oc then Nat.eqb k j
     else if Owner_eqb (Surge.owner sj) oc then Nat.eqb k i
     else Nat.eqb k j || Nat.eqb k i)
    || Game.in_dead k dead.
Proof.
  intro Hc. unfold Game.resolve_cancel. cbn [fst].
  destruct (Owner_eqb (Surge.owner si) oc) eqn:Ei.
  - apply Owner_eqb_eq in Ei. rewrite (clash_oc_left _ _ Hc Ei).
    simpl. apply in_dead_add.
  - simpl. destruct (Owner_eqb (Surge.owner sj) oc) eqn:Ej.
    + apply Owner_eqb_eq in Ej. rewrite (clash_oc_right _ _ Hc Ej).
      simpl. apply in_dead_add.
    + simpl. rewrite !in_dead_add. now rewrite orb_assoc.
Qed.

(** The steps of the pass never take an index out of [dead]. *)
Lemma cancel_pair_mono (ss : list Surge.t) (i : nat) (si : Surge.t)
    (st : list nat * Game.t) (j k : nat) :
  Game.in_dead k (fst st) = true ->
  Game.in_dead k (fst (Game.cancel_pair ss i si st j)) = true.
Proof.
  intro Hk. unfold Game.cancel_pair.
  destruct (Game.in_dead j (fst st)); [exact Hk|].
  destruct (nth_error ss j) as [sj|]; [|exact Hk].
  destruct (Game.clash si sj) eqn:Hc; [|exact Hk].
  destruct (Game.in_cancel_range si sj); [|exact Hk].
  destruct st as [dead g]. rewrite resolve_cancel_dead by exact Hc.
  simpl in Hk. rewrite Hk. apply orb_true_r.
Qed.

Lemma cancel_inner_mono (ss : list Surge.t) (i : nat) (si : Surge.t)
    (l : list nat) (st : list nat * Game.t) (k : nat) :
  Game.in_dead k (fst st) = true ->
  Game.in_dead k (fst (fold_left (Game.cancel_pair ss i si) l st)) = true.
Proof.
  intro Hk.
  apply (fold_left_inv (fun st => Game.in_dead k (fst st) = true)); [|exact Hk].
  intros a x _. apply cancel_pair_mono.
Qed.

Lemma cancel_row_mono (ss : list Surge.t) (st : list nat * Game.t) (i k : nat) :
  Game.in_dead k (fst st) = true ->
  Game.in_dead k (fst (Game.cancel_row ss st i)) = true.
Proof.
  intro Hk. unfold Game.cancel_row.
  destruct (Game.in_dead i (fst st)); [exact Hk|].
  destruct (nth_error ss i); [|exact Hk].
  now apply cancel_inner_mono.
Qed.

Lemma cancel_outer_mono (ss : list Surge.t) (l : list nat)
    (st : list nat * Game.t) (k : nat) :
  Game.in_dead k (fst st) = true ->
  Game.in_dead k (fst (fold_left (Game.cancel_row ss) l st)) = true.
Proof.
  intro Hk.
  apply (fold_left_inv (fun st => Game.in_dead k (fst st) = true)); [|exact Hk].
  intros a x _. apply cancel_row_mono.
Qed.

(** A step of row [i] at [j'] marks no index other than [i] and [j']. *)
Lemma cancel_pair_other (ss : list Surge.t) (i : nat) (si : Surge.t)
    (st : list nat * Game.t) (j' k : nat) :
  k <> i -> k <> j' ->
  Game.in_dead k (fst (Game.cancel_pair ss i si st j')) =
  Game.in_dead k (fst st).
Proof.
  intros Hi Hj. unfold Game.cancel_pair.
  destruct (Game.in_dead j' (fst st)); [reflexivity|].
  destruct (nth_error ss j') as [sj|]; [|reflexivity].
  destruct (Game.clash si sj) eqn:Hc; [|reflexivity].
  destruct (Game.in_cancel_range si sj); [|reflexivity].
  destruct st as [dead g]. rewrite resolve_cancel_dead by exact Hc.
  apply Nat.eqb_neq in Hi, Hj. rewrite Hi, Hj. cbn [fst].
  destruct (Owner_eqb (Surge.owner si) oc);
    destruct (Owner_eqb (Surge.owner sj) oc); reflexivity.
Qed.

Lemma cancel_inner_other (ss : list Surge.t) (i : nat) (si : Surge.t)
    (l : list nat) (st : list nat * Game.t) (k : nat) :
  k <> i -> ~ In k l ->
  Game.in_dead k (fst (fold_left (Game.cancel_pair ss i si) l st)) =
  Game.in_dead k (fst st).
Proof.
  intros Hi. revert st. induction l as [|x l IH]; intros st Hk; [reflexivity|].
  simpl. rewrite IH by (intro Hin; apply Hk; now right).
  apply cancel_pair_other; [exact Hi|]. intro E. apply Hk. now left.
Qed.

(** The pass reads [self.surges] and only replaces it at the end. *)
Lemma cancel_pair_surges (ss : list Surge.t) (i : nat) (si : Surge.t)
    (st : list nat * Game.t) (j : nat) :
  Game.surges (snd (Game.cancel_pair ss i si st j)) = Game.surges (snd st).
Proof.
  unfold Game.cancel_pair.
  destruct (Game.in_dead j (fst st)); [reflexivity|].
  destruct (nth_error ss j) as [sj|]; [|reflexivity].
  destruct (Game.clash si sj); [|reflexivity].
  destruct (Game.in_cancel_range si sj); [|reflexivity].
  destruct st as [dead g]. unfold Game.resolve_cancel.
  destruct (Owner_eqb (Surge.owner si) player || Owner_eqb (Surge.owner sj) player);
    reflexivity.
Qed.

Lemma cancel_rows_surges (k : nat) (g : Game.t) :
  Game.surges (snd (Game.cancel_rows k g)) = Game.surges g.
Proof.
  unfold Game.cancel_rows.
  apply (fold_left_inv (fun st => Game.surges (snd st) = Game.surges g));
    [|reflexivity].
  intros st i _ Hst. unfold Game.cancel_row.
  destruct (Game.in_dead i (fst st)); [exact Hst|].
  destruct (nth_error (Game.surges g) i) as [si|]; [|exact Hst].
  apply (fold_left_inv (fun st => Game.surges (snd st) = Game.surges g));
    [|exact Hst].
  intros st' j _ Hst'. now rewrite cancel_pair_surges.
Qed.

Lemma remove_dead_nil (k : nat) (ss : list Surge.t) :
  Game.remove_dead [] k ss = ss.
Proof.
  revert k. induction ss as [|s ss IH]; intro k; simpl; [reflexivity|].
  now rewrite IH.
Qed.

(** The surge list after the pass: the surges whose index is not dead. *)
Lemma handle_surge_cancels_surges (g : Game.t) :
  Game.surges (Game.handle_surge_cancels g) =
  Game.remove_dead (cancel_dead g) 0 (Game.surges g).
Proof.
  unfold Game.handle_surge_cancels, cancel_dead, dead_before.
  pose proof (cancel_rows_surges (length (Game.surges g)) g) as E.
  destruct (Game.cancel_rows (length (Game.surges g)) g) as [dead g1].
  cbn [fst snd] in *. destruct dead as [|d dead].
  - rewrite remove_dead_nil. exact E.
  - cbn [Game.surges Game.set_surges]. now rewrite E.
Qed.

Lemma cancel_pair_spares_oc (ss : list Surge.t) (i : nat) (si : Surge.t)
    (st : list nat * Game.t) (j : nat) :
  nth_error ss i = Some si ->
  dead_spares_oc ss (fst st) ->
  dead_spares_oc ss (fst (Game.cancel_pair ss i si st j)).
Proof.
  intros Hi Hst. unfold Game.cancel_pair.
  destruct (Game.in_dead j (fst st)); [exact Hst|].
  destruct (nth_error ss j) as [sj|] eqn:Hj; [|exact Hst].
  destruct (Game.clash si sj) eqn:Hc; [|exact Hst].
  destruct (Game.in_cancel_range si sj); [|exact Hst].
  destruct st as [dead g]. intros k s Hk Hs.
  rewrite resolve_cancel_dead in Hk by exact Hc.
  apply orb_true_iff in Hk. destruct Hk as [Hk | Hk];
    [| exact (Hst k s Hk Hs)].
  destruct (Owner_eqb (Surge.owner si) oc) eqn:Ei.
  - apply Owner_eqb_eq in Ei. apply Nat.eqb_eq in Hk. subst k.
    assert (s = sj) by congruence. subst s.
    pose proof (clash_oc_left _ _ Hc Ei) as Hf.
    intro Ho. rewrite Ho in Hf. discriminate.
  - destruct (Owner_eqb (Surge.owner sj) oc) eqn:Ej.
    + apply Owner_eqb_eq in Ej. apply Nat.eqb_eq in Hk. subst k.
      assert (s = si) by congruence. subst s.
      pose proof (clash_oc_right _ _ Hc Ej) as Hf.
      intro Ho. rewrite Ho in Hf. discriminate.
    + apply orb_true_iff in Hk.
      destruct Hk as [Hk | Hk]; apply Nat.eqb_eq in Hk; subst k;
        intro Ho; apply Owner_eqb_eq in Ho; congruence.
Qed.

Lemma cancel_rows_spares_oc (k : nat) (g : Game.t) :
  dead_spares_oc (Game.surges g) (fst (Game.cancel_rows k g)).
Proof.
  unfold Game.cancel_rows.
  apply (fold_left_inv (fun st => dead_spares_oc (Game.surges g) (fst st))).
  - intros st i _ Hst. unfold Game.cancel_row.
    destruct (Game.in_dead i (fst st)); [exact Hst|].
    destruct (nth_error (Game.surges g) i) as [si|] eqn:Hi; [|exact Hst].
    apply (fold_left_inv (fun st => dead_spares_oc (Game.surges g) (fst st)));
      [|exact Hst].
    intros st' j _ Hst'. now apply cancel_pair_spares_oc.
  - intros k' s Hk. discriminate.
Qed.

(** The rows up to [n], cut at row [i]. *)
Lemma cancel_rows_split (i n : nat) (g : Game.t) :
  (i < n)%nat ->
  Game.cancel_rows n g =
  fold_left (Game.cancel_row (Game.surges g)) (seq (S i) (n - S i))
    (Game.cancel_row (Game.surges g) (Game.cancel_rows i g) i).
Proof.
  intro Hin. unfold Game.cancel_rows.
  replace n with (i + S (n - S i))%nat at 1 by lia.
  rewrite seq_app, fold_left_app. reflexivity.
Qed.

(** The inner loop of row [i], cut at [j]. *)
Lemma cancel_inner_split (ss : list Surge.t) (i j n : nat) (si : Surge.t)
    (st : list nat * Game.t) :
  (i < j < n)%nat ->
  fold_left (Game.cancel_pair ss i si) (seq (S i) (n - S i)) st =
  fold_left (Game.cancel_pair ss i si) (seq (S j) (n - S j))
    (Game.cancel_pair ss i si
       (fold_left (Game.cancel_pair ss i si) (seq (S i) (j - S i)) st) j).
Proof.
  intro Hij.
  replace (n - S i)%nat with ((j - S i) + S (n - S j))%nat by lia.
  rewrite seq_app, fold_left_app.
  replace (S i + (j - S i))%nat with j by lia. reflexivity.
Qed.

(** What the step of row [i] at [j] does when it finds a pair that
    clashes within range and [j] is not marked yet. *)
Lemma cancel_pair_resolves (ss : list Surge.t) (i j : nat) (si sj : Surge.t)
    (st : list nat * Game.t) (k : nat) :
  nth_error ss j = Some sj ->
  Game.clash si sj = true ->
  Game.in_cancel_range si sj = true ->
  Game.in_dead j (fst st) = false ->
  Game.in_dead k (fst (Game.cancel_pair ss i si st j)) =
    (if Owner_eqb (Surge.owner si) oc then Nat.eqb k j
     else if Owner_eqb (Surge.owner sj) oc then Nat.eqb k i
     else Nat.eqb k j || Nat.eqb k i)
    || Game.in_dead k (fst st).
Proof.
  intros Hj Hc Hr Hd. unfold Game.cancel_pair. rewrite Hd, Hj, Hc, Hr.
  destruct st as [dead g]. now apply resolve_cancel_dead.
Qed.

(** A row whose surge is not marked runs its inner loop. *)
Lemma cancel_row_live (ss : list Surge.t) (st : list nat * Game.t) (i : nat)
    (si : Surge.t) :
  Game.in_dead i (fst st) = false ->
  nth_error ss i = Some si ->
  Game.cancel_row ss st i =
  fold_left (Game.cancel_pair ss i si) (seq (S i) (length ss - S i)) st.
Proof. intros Hd Hi. unfold Game.cancel_row. now rewrite Hd, Hi. Qed.

(** Of a clashing pair within range at least one index ends up marked. *)
Lemma clashing_pair_one_dead (g : Game.t) (i j : nat) (si sj : Surge.t) :
  (i < j)%nat ->
  nth_error (Game.surges g) i = Some si ->
  nth_error (Game.surges g) j = Some sj ->
  Game.clash si sj = true ->
  Game.in_cancel_range si sj = true ->
  Game.in_dead i (cancel_dead g) = true \/
  Game.in_dead j (cancel_dead g) = true.
Proof.
  intros Hij Hi Hj Hc Hr.
  assert (Hjn : (j < length (Game.surges g))%nat)
    by (apply nth_error_Some; congruence).
  unfold cancel_dead, dead_before.
  rewrite (cancel_rows_split i) by lia.
  set (st := Game.cancel_rows i g).
  destruct (Game.in_dead i (fst st)) eqn:Hdi.
  { left. now apply cancel_outer_mono, cancel_row_mono. }
  rewrite (cancel_row_live _ st i si Hdi Hi).
  rewrite (cancel_inner_split _ i j) by lia.
  set (st' := fold_left _ (seq (S i) (j - S i)) st).
  destruct (Game.in_dead j (fst st')) eqn:Hdj.
  { right. apply cancel_outer_mono, cancel_inner_mono.
    now apply cancel_pair_mono. }
  assert (Hone : Game.in_dead i
                   (fst (Game.cancel_pair (Game.surges g) i si st' j)) = true
                 \/ Game.in_dead j
                   (fst (Game.cancel_pair (Game.surges g) i si st' j)) = true).
  { rewrite !(cancel_pair_resolves _ i j si sj) by assumption.
    rewrite !Nat.eqb_refl.
    destruct (Owner_eqb (Surge.owner si) oc);
      [right; reflexivity|].
    destruct (Owner_eqb (Surge.owner sj) oc);
      [left; reflexivity|].
    right. reflexivity. }
  destruct Hone as [Hone | Hone]; [left | right];
    now apply cancel_outer_mono, cancel_inner_mono.
Qed.

(** An overclock surge is never marked. *)
Lemma oc_surge_survives (g : Game.t) (k : nat) (s : Surge.t) :
  nth_error (Game.surges g) k = Some s ->
  Surge.owner s = oc ->
  Game.in_dead k (cancel_dead g) = false.
Proof.
  intros Hk Ho. unfold cancel_dead, dead_before.
  destruct (Game.in_dead k (fst (Game.cancel_rows (length (Game.surges g)) g)))
    eqn:E; [|reflexivity].
  exfalso. exact (cancel_rows_spares_oc _ g k s E Hk Ho).
Qed.

(** The list after the pass is no longer than before and holds only
    surges of the list before. *)
Lemma remove_dead_sub (dead : list nat) (k : nat) (ss : list Surge.t) :
  (length (Game.remove_dead dead k ss) <= length ss)%nat /\
  (forall s, In s (Game.remove_dead dead k ss) -> In s ss).
Proof.
  revert k. induction ss as [|s ss IH]; intro k; cbn [Game.remove_dead].
  - split; [lia | auto].
  - destruct (IH (S k)) as [L I].
    destruct (Game.in_dead k dead); cbn [length In]; split; try lia.
    + intros x Hx. right. now apply I.
    + intros x [Hx | Hx]; [now left | right; now apply I].
Qed.

(** The list comprehension at the end of the pass keeps exactly the
    surges whose index is not marked. *)
Lemma remove_dead_filter (dead : list nat) (ss : list Surge.t) :
  forall k,
    Game.remove_dead dead k ss =
    map snd
      (filter (fun p => negb (existsb (Nat.eqb (fst p)) dead))
              (combine (seq k (length ss)) ss)).
Proof.
  induction ss as [|s ss IH]; intro k; [reflexivity|].
  cbn [Game.remove_dead length seq combine filter fst].
  unfold Game.in_dead at 1.
  destruct (existsb (Nat.eqb k) dead); cbn [negb map snd];
    now rewrite IH.
Qed.

Lemma remove_dead_In (dead : list nat) (ss : list Surge.t) (s : Surge.t) :
  forall k,
    In s (Game.remove_dead dead k ss) <->
    exists n, nth_error ss n = Some s /\ Game.in_dead (k + n) dead = false.
Proof.
  induction ss as [|x ss IH]; intro k; cbn [Game.remove_dead].
  - split; [intros [] | intros (n & Hn & _); destruct n; discriminate].
  - destruct (Game.in_dead k dead) eqn:Ek.
    + rewrite IH. split.
      * intros (n & Hn & Hd). exists (S n). split; [exact Hn|].
        now rewrite Nat.add_succ_r.
      * intros (n & Hn & Hd). destruct n as [|n].
        -- rewrite Nat.add_0_r in Hd. congruence.
        -- exists n. split; [exact Hn|]. now rewrite Nat.add_succ_r in Hd.
    + cbn [In]. rewrite IH. split.
      * intros [E | (n & Hn & Hd)].
        -- exists 0%nat. split; [now subst | now rewrite Nat.add_0_r].
        -- exists (S n). split; [exact Hn|]. now rewrite Nat.add_succ_r.
      * intros (n & Hn & Hd). destruct n as [|n].
        -- left. cbn in Hn. congruence.
        -- right. exists n. split; [exact Hn|].
           now rewrite Nat.add_succ_r in Hd.
Qed.

(** A marked index shortens the list, two marked indices shorten it by
    two. *)
Lemma remove_dead_shorter (dead : list nat) (ss : list Surge.t) :
  forall k n,
    (n < length ss)%nat -> Game.in_dead (k + n) dead = true ->
    (length (Game.remove_dead dead k ss) < length ss)%nat.
Proof.
  induction ss as [|x ss IH]; intros k n Hn Hd; [cbn in Hn; lia|].
  cbn [Game.remove_dead length] in *. destruct n as [|n].
  - rewrite Nat.add_0_r in Hd. rewrite Hd.
    pose proof (proj1 (remove_dead_sub dead (S k) ss)). lia.
  - rewrite Nat.add_succ_r in Hd.
    pose proof (IH (S k) n ltac:(lia) Hd).
    destruct (Game.in_dead k dead); cbn [length]; lia.
Qed.

Lemma remove_dead_shorter_by_two (dead : list nat) (ss : list Surge.t) :
  forall k n m,
    (n < m < length ss)%nat ->
    Game.in_dead (k + n) dead = true -> Game.in_dead (k + m) dead = true ->
    (length (Game.remove_dead dead k ss) + 2 <= length ss)%nat.
Proof.
  induction ss as [|x ss IH]; intros k n m Hnm Hn Hm; [cbn in Hnm; lia|].
  cbn [Game.remove_dead length] in *. destruct m as [|m]; [lia|].
  rewrite Nat.add_succ_r in Hm. destruct n as [|n].
  - rewrite Nat.add_0_r in Hn. rewrite Hn.
    pose proof (remove_dead_shorter dead ss (S k) m ltac:(lia) Hm). lia.
  - rewrite Nat.add_succ_r in Hn.
    pose proof (IH (S k) n m ltac:(lia) Hn Hm).
    destruct (Game.in_dead k dead); cbn [length]; lia.
Qed.

(** With no two equal surges in the list, a surge whose index is marked
    is not in the list after the pass. *)
Lemma marked_is_gone (g : Game.t) (k : nat) (s : Surge.t) :
  NoDup (Game.surges g) ->
  nth_error (Game.surges g) k = Some s ->
  Game.in_dead k (cancel_dead g) = true ->
  ~ In s (Game.surges (Game.handle_surge_cancels g)).
Proof.
  intros Hnd Hk Hd Hin. rewrite handle_surge_cancels_surges in Hin.
  apply remove_dead_In in Hin. destruct Hin as (n & Hn & Hdn).
  cbn [Nat.add] in Hdn.
  assert (n = k).
  { apply (proj1 (NoDup_nth_error (Game.surges g)) Hnd);
      [apply nth_error_Some; congruence | congruence]. }
  subst n. congruence.
Qed.

(** A surge whose index is not marked is still in the list. *)
Lemma unmarked_stays (g : Game.t) (k : nat) (s : Surge.t) :
  nth_error (Game.surges g) k = Some s ->
  Game.in_dead k (cancel_dead g) = false ->
  In s (Game.surges (Game.handle_surge_cancels g)).
Proof.
  intros Hk Hd. rewrite handle_surge_cancels_surges.
  apply remove_dead_In. exists k. split; [exact Hk | exact Hd].
Qed.

(** Both indices of a pair of a plain player surge and a hostile one end
    up marked when neither is at the moment the pass comes to the pair. *)
Lemma reached_pair_both_dead (g : Game.t) (i j : nat) (si sj : Surge.t) :
  (i < j)%nat ->
  nth_error (Game.surges g) i = Some si ->
  nth_error (Game.surges g) j = Some sj ->
  Game.clash si sj = true ->
  Game.in_cancel_range si sj = true ->
  Surge.owner si <> oc -> Surge.owner sj <> oc ->
  Game.in_dead i (dead_when_reached i j g) = false ->
  Game.in_dead j (dead_when_reached i j g) = false ->
  Game.in_dead i (cancel_dead g) = true /\
  Game.in_dead j (cancel_dead g) = true.
Proof.
  intros Hij Hi Hj Hc Hr Hoi Hoj.
  assert (Hjn : (j < length (Game.surges g))%nat)
    by (apply nth_error_Some; congruence).
  unfold dead_when_reached. rewrite Hi. cbv zeta.
  set (st := Game.cancel_rows i g).
  destruct (Game.in_dead i (fst st)) eqn:Hdi; [congruence|].
  set (st' := fold_left _ (seq (S i) (j - S i)) st).
  intros _ Hdj'.
  unfold cancel_dead, dead_before.
  rewrite (cancel_rows_split i) by lia. fold st.
  rewrite (cancel_row_live _ st i si Hdi Hi).
  rewrite (cancel_inner_split _ i j) by lia. fold st'.
  assert (Ei : Owner_eqb (Surge.owner si) oc = false).
  { destruct (Owner_eqb (Surge.owner si) oc) eqn:E; [|reflexivity].
    apply Owner_eqb_eq in E. contradiction. }
  assert (Ej : Owner_eqb (Surge.owner sj) oc = false).
  { destruct (Owner_eqb (Surge.owner sj) oc) eqn:E; [|reflexivity].
    apply Owner_eqb_eq in E. contradiction. }
  split; apply cancel_outer_mono, cancel_inner_mono;
    rewrite (cancel_pair_resolves _ i j si sj) by assumption;
    rewrite Ei, Ej, Nat.eqb_refl; [rewrite orb_true_r|]; reflexivity.
Qed.

(** The example surges are pairwise different. *)
Lemma example_surges_distinct :
  NoDup [shot_P; shot_A; shot_B] /\ NoDup [shot_A; shot_P; shot_B].
Proof.
  assert (PA : shot_P <> shot_A)
    by (intro E; apply (f_equal Surge.owner) in E; vm_compute in E;
        discriminate).
  assert (PB : shot_P <> shot_B)
    by (intro E; apply (f_equal Surge.owner) in E; vm_compute in E;
        discriminate).
  assert (AB : shot_A <> shot_B)
    by (intro E; apply (f_equal (fun s => Qnum (vx (Surge.pos s)))) in E;
        vm_compute in E; discriminate).
  split; repeat constructor; cbn [In]; intuition congruence.
Qed.

(** C3 (as amended). For two surges at indices [i < j] of the surge list,
    one friendly (player or overclock) and one hostile (enemy or natural),
    within the sum of their radii plus 1 when the pass runs. The list
    after the pass holds exactly the surges whose index was not marked,
    and is shorter than before: at least one of the two is removed. If
    one of the two is overclock-faction, that one stays in the list and
    the hostile one is removed. If neither is overclock-faction and
    neither was marked when the pass came to this pair, both are removed.
    With no two equal surges in the list, a removed surge is nowhere in
    the list after the pass. *)
Theorem cancel_pass_on_clashing_pair (g : Game.t) (i j : nat)
    (si sj : Surge.t) :
  (i < j)%nat ->
  nth_error (Game.surges g) i = Some si ->
  nth_error (Game.surges g) j = Some sj ->
  Game.clash si sj = true ->
  Game.in_cancel_range si sj = true ->
  let after := Game.surges (Game.handle_surge_cancels g) in
  after = survivors (cancel_dead g) (Game.surges g) /\
  (length after < length (Game.surges g))%nat /\
  (Game.in_dead i (cancel_dead g) = true \/
   Game.in_dead j (cancel_dead g) = true) /\
  (Surge.owner si = oc ->
   Game.in_dead i (cancel_dead g) = false /\
   Game.in_dead j (cancel_dead g) = true /\ In si after) /\
  (Surge.owner sj = oc ->
   Game.in_dead j (cancel_dead g) = false /\
   Game.in_dead i (cancel_dead g) = true /\ In sj after) /\
  (Surge.owner si <> oc -> Surge.owner sj <> oc ->
   Game.in_dead i (dead_when_reached i j g) = false ->
   Game.in_dead j (dead_when_reached i j g) = false ->
   Game.in_dead i (cancel_dead g) = true /\
   Game.in_dead j (cancel_dead g) = true /\
   (length after + 2 <= length (Game.surges g))%nat) /\
  (NoDup (Game.surges g) ->
   (~ In si after \/ ~ In sj after) /\
   (Surge.owner si = oc -> ~ In sj after) /\
   (Surge.owner sj = oc -> ~ In si after) /\
   (Surge.owner si <> oc -> Surge.owner sj <> oc ->
    Game.in_dead i (dead_when_reached i j g) = false ->
    Game.in_dead j (dead_when_reached i j g) = false ->
    ~ In si after /\ ~ In sj after)).
Proof.
  intros Hij Hi Hj Hc Hr after.
  assert (Hin : (i < length (Game.surges g))%nat)
    by (apply nth_error_Some; congruence).
  assert (Hjn : (j < length (Game.surges g))%nat)
    by (apply nth_error_Some; congruence).
  pose proof (clashing_pair_one_dead g i j si sj Hij Hi Hj Hc Hr) as Hone.
  assert (Hafter : after = Game.remove_dead (cancel_dead g) 0 (Game.surges g))
    by apply handle_surge_cancels_surges.
  assert (Hoi : Surge.owner si = oc ->
                Game.in_dead i (cancel_dead g) = false /\
                Game.in_dead j (cancel_dead g) = true).
  { intro Ho. pose proof (oc_surge_survives g i si Hi Ho) as Hs.
    split; [exact Hs|]. destruct Hone as [H1 | H1]; congruence. }
  assert (Hoj : Surge.owner sj = oc ->
                Game.in_dead j (cancel_dead g) = false /\
                Game.in_dead i (cancel_dead g) = true).
  { intro Ho. pose proof (oc_surge_survives g j sj Hj Ho) as Hs.
    split; [exact Hs|]. destruct Hone as [H1 | H1]; congruence. }
  split; [rewrite Hafter; apply remove_dead_filter|].
  split.
  { rewrite Hafter.
    destruct Hone as [H1 | H1];
      [apply (remove_dead_shorter _ _ 0 i) | apply (remove_dead_shorter _ _ 0 j)];
      assumption. }
  split; [exact Hone|].
  split.
  { intro Ho. destruct (Hoi Ho) as [A B]. split; [exact A|]. split; [exact B|].
    now apply (unmarked_stays g i). }
  split.
  { intro Ho. destruct (Hoj Ho) as [A B]. split; [exact A|]. split; [exact B|].
    now apply (unmarked_stays g j). }
  split.
  { intros Hni Hnj Hdi Hdj.
    destruct (reached_pair_both_dead g i j si sj Hij Hi Hj Hc Hr Hni Hnj Hdi Hdj)
      as [A B].
    split; [exact A|]. split; [exact B|].
    rewrite Hafter. apply (remove_dead_shorter_by_two _ _ 0 i j); [lia | |];
      assumption. }
  intro Hnd. split.
  { destruct Hone as [H1 | H1]; [left | right];
      [apply (marked_is_gone g i) | apply (marked_is_gone g j)]; assumption. }
  split.
  { intro Ho. destruct (Hoi Ho) as [_ B]. now apply (marked_is_gone g j). }
  split.
  { intro Ho. destruct (Hoj Ho) as [_ B]. now apply (marked_is_gone g i). }
  intros Hni Hnj Hdi Hdj.
  destruct (reached_pair_both_dead g i j si sj Hij Hi Hj Hc Hr Hni Hnj Hdi Hdj)
    as [A B].
  split; [apply (marked_is_gone g i) | apply (marked_is_gone g j)]; assumption.
Qed.

(** The theorem at a player surge ahead of two hostile ones, for the
    pair of indices 0 and 1: both are gone from the list after the pass,
    which is shorter by two at least. *)
Lemma cancel_pass_on_clashing_pair_witness :
  ~ In shot_P (Game.surges (Game.handle_surge_cancels one_against_two)) /\
  ~ In shot_A (Game.surges (Game.handle_surge_cancels one_against_two)) /\
  (length (Game.surges (Game.handle_surge_cancels one_against_two)) + 2
   <= length (Game.surges one_against_two))%nat.
Proof.
  destruct (cancel_pass_on_clashing_pair one_against_two 0 1 shot_P shot_A)
    as (_ & _ & _ & _ & _ & Hboth & Hlist).
  - lia.
  - reflexivity.
  - reflexivity.
  - reflexivity.
  - vm_compute. reflexivity.
  - destruct Hboth as (_ & _ & Hlen).
    + discriminate.
    + discriminate.
    + vm_compute. reflexivity.
    + vm_compute. reflexivity.
    + destruct Hlist as (_ & _ & _ & Hgone).
      * exact (proj1 example_surges_distinct).
      * destruct Hgone as [G1 G2].
        -- discriminate.
        -- discriminate.
        -- vm_compute. reflexivity.
        -- vm_compute. reflexivity.
        -- split; [exact G1|]. split; [exact G2 | exact Hlen].
Defined.

(** The surge list of the other example after the pass: the second
    hostile surge alone. *)
Lemma hostile_first_leaves_one :
  Game.surges (Game.handle_surge_cancels hostile_first) = [shot_B].
Proof. vm_compute. reflexivity. Qed.

(** C3 as stated fails: with a hostile surge, a player surge and another
    hostile surge in this order, all within range, the player surge is
    cancelled against the first hostile one; when the pass comes to the
    pair of the player surge and the second hostile one, the player surge
    is marked already, and the second hostile surge, although in range of
    it, stays in the list. *)
Lemma clashing_pair_not_always_both_removed :
  ~ (forall (g : Game.t) (i j : nat) (si sj : Surge.t),
        (i < j)%nat ->
        nth_error (Game.surges g) i = Some si ->
        nth_error (Game.surges g) j = Some sj ->
        Game.clash si sj = true ->
        Game.in_cancel_range si sj = true ->
        Surge.owner si <> oc -> Surge.owner sj <> oc ->
        ~ In si (Game.surges (Game.handle_surge_cancels g)) /\
        ~ In sj (Game.surges (Game.handle_surge_cancels g))).
Proof.
  intro Hclaim.
  destruct (Hclaim hostile_first 1%nat 2%nat shot_P shot_B) as [_ Hb].
  - lia.
  - reflexivity.
  - reflexivity.
  - reflexivity.
  - vm_compute. reflexivity.
  - discriminate.
  - discriminate.
  - apply Hb. rewrite hostile_first_leaves_one. now left.
Qed.

(** In the first example the pair of the player surge and the second
    hostile one is reached with the player surge marked already. *)
Lemma second_pairing_comes_late :
  Game.in_dead 0 (dead_when_reached 0 2 one_against_two) = true.
Proof. vm_compute. reflexivity. Qed.

(** C7 fails on the code. One player surge ahead of two hostile surges,
    all within range: the first pairing marks the player surge (index 0)
    dead, and the inner loop goes on with it, so the second pairing
    resolves too. The pass requests the cancel cue twice, feeds the meter
    twice, and removes all three surges. *)
Theorem dead_surge_resolves_again :
  let ss := Game.surges one_against_two in
  let st1 := Game.cancel_pair ss 0 shot_P ([], one_against_two) 1 in
  let st2 := Game.cancel_pair ss 0 shot_P st1 2 in
  Game.in_dead 0 (fst st1) = true /\
  Hero.oc_meter (Game.hero (snd st1)) = OC_FILL_PER_CANCEL /\
  Hero.oc_meter (Game.hero (snd st2)) = (2 * OC_FILL_PER_CANCEL)%Z /\
  Game.in_dead 2 (fst st2) = true /\
  Hero.oc_meter (Game.hero one_against_two) = 0%Z /\
  Hero.oc_meter (Game.hero (Game.handle_surge_cancels one_against_two)) = 16%Z /\
  cue_count "cancel" (Game.sfx_log (Game.handle_surge_cancels one_against_two)) =
    (2 + cue_count "cancel" (Game.sfx_log one_against_two))%nat /\
  Game.surges (Game.handle_surge_cancels one_against_two) = [].
Proof.
  vm_compute. repeat split; reflexivity.
Qed.

(** ** The meter through the cancellation pass *)

(** The pass over a list of two surges is the step for the pair (0, 1). *)
Lemma cancel_pass_of_two (g : Game.t) (a b : Surge.t) :
  Game.surges g = [a; b] ->
  Game.hero (Game.handle_surge_cancels g) =
    Game.hero (snd (Game.cancel_pair [a; b] 0 a ([], g) 1)) /\
  Game.sfx_log (Game.handle_surge_cancels g) =
    Game.sfx_log (snd (Game.cancel_pair [a; b] 0 a ([], g) 1)).
Proof.
  intro Hs.
  assert (E0 : Game.cancel_row [a; b] ([], g) 0 =
               Game.cancel_pair [a; b] 0 a ([], g) 1) by reflexivity.
  assert (E1 : forall st, Game.cancel_row [a; b] st 1 = st).
  { intro st. unfold Game.cancel_row.
    destruct (Game.in_dead 1 (fst st)); reflexivity. }
  unfold Game.handle_surge_cancels, Game.cancel_rows.
  rewrite Hs. cbn [length seq fold_left]. rewrite E0, E1.
  destruct (Game.cancel_pair [a; b] 0 a ([], g) 1) as [dead g1]. cbn [snd].
  destruct dead; split; reflexivity.
Qed.

Lemma cue_added (c : string) (log : list string) :
  cue_count c (c :: log) = S (cue_count c log).
Proof. unfold cue_count. now apply count_occ_cons_eq. Qed.

(** In a clash of two surges neither of which is overclock-faction the
    friendly one is a plain player surge. *)
Lemma clash_without_oc (si sj : Surge.t) :
  Game.clash si sj = true ->
  Surge.owner si <> oc -> Surge.owner sj <> oc ->
  Owner_eqb (Surge.owner si) player || Owner_eqb (Surge.owner sj) player = true.
Proof.
  unfold Game.clash. intros Hc Hi Hj.
  destruct (Surge.owner si), (Surge.owner sj); cbn in *; congruence.
Qed.

(** In a clash with no plain player surge the friendly one is
    overclock-faction. *)
Lemma clash_without_player (si sj : Surge.t) :
  Game.clash si sj = true ->
  Surge.owner si <> player -> Surge.owner sj <> player ->
  Surge.owner si = oc \/ Surge.owner sj = oc.
Proof.
  unfold Game.clash. intros Hc Hi Hj.
  destruct (Surge.owner si), (Surge.owner sj); cbn in *; auto; congruence.
Qed.

(** What a pairing that resolves does to the hero and to the cue log. *)
Lemma resolve_cancel_effect (i j : nat) (si sj : Surge.t) (dead : list nat)
    (g : Game.t) :
  let g' := snd (Game.resolve_cancel i j si sj (dead, g)) in
  Game.sfx_log g' = "cancel"%string :: Game.sfx_log g /\
  Game.hero g' =
    (if Owner_eqb (Surge.owner si) player || Owner_eqb (Surge.owner sj) player
     then Hero.add_oc OC_FILL_PER_CANCEL (Game.hero g) else Game.hero g).
Proof.
  cbv zeta. unfold Game.resolve_cancel.
  destruct (Owner_eqb (Surge.owner si) player || Owner_eqb (Surge.owner sj) player);
    split; reflexivity.
Qed.

(** The pass without overclock surges, by the number [n] of pairings that
    have resolved. *)
Lemma cancel_rows_count (k : nat) (g : Game.t) :
  (forall s, In s (Game.surges g) -> Surge.owner s <> oc) ->
  (0 <= Hero.oc_meter (Game.hero g) <= OC_MAX)%Z ->
  exists n : nat,
    cue_count "cancel" (Game.sfx_log (snd (Game.cancel_rows k g))) =
      (cue_count "cancel" (Game.sfx_log g) + n)%nat /\
    Hero.oc_meter (Game.hero (snd (Game.cancel_rows k g))) =
      Z.min OC_MAX
        (Hero.oc_meter (Game.hero g) + OC_FILL_PER_CANCEL * Z.of_nat n) /\
    ((exists x, Game.in_dead x (fst (Game.cancel_rows k g)) = true) ->
     (1 <= n)%nat).
Proof.
  intros Hall Hm. unfold Game.cancel_rows.
  set (Inv := fun st : list nat * Game.t =>
    exists n : nat,
      cue_count "cancel" (Game.sfx_log (snd st)) =
        (cue_count "cancel" (Game.sfx_log g) + n)%nat /\
      Hero.oc_meter (Game.hero (snd st)) =
        Z.min OC_MAX
          (Hero.oc_meter (Game.hero g) + OC_FILL_PER_CANCEL * Z.of_nat n) /\
      ((exists x, Game.in_dead x (fst st) = true) -> (1 <= n)%nat)).
  change (Inv (fold_left (Game.cancel_row (Game.surges g)) (seq 0 k) ([], g))).
  apply fold_left_inv.
  - intros st i _ Hst. unfold Game.cancel_row.
    destruct (Game.in_dead i (fst st)); [exact Hst|].
    destruct (nth_error (Game.surges g) i) as [si|] eqn:Ei; [|exact Hst].
    apply fold_left_inv; [|exact Hst].
    intros st' j _ Hst'. unfold Game.cancel_pair.
    destruct (Game.in_dead j (fst st')); [exact Hst'|].
    destruct (nth_error (Game.surges g) j) as [sj|] eqn:Ej; [|exact Hst'].
    destruct (Game.clash si sj) eqn:Hc; [|exact Hst'].
    destruct (Game.in_cancel_range si sj); [|exact Hst'].
    destruct st' as [dead g']. destruct Hst' as (n & Hcue & Hmeter & _).
    cbn [snd] in Hcue, Hmeter.
    destruct (resolve_cancel_effect i j si sj dead g') as [Elog Ehero].
    cbv zeta in Elog, Ehero.
    rewrite (clash_without_oc si sj Hc) in Ehero
      by (apply Hall; eapply nth_error_In; eassumption).
    exists (S n). rewrite Elog, Ehero, cue_added, Hcue.
    split; [lia|]. split; [|intros _; lia].
    unfold Hero.add_oc. cbn [Hero.oc_meter Hero.set_oc_meter].
    rewrite Hmeter. unfold OC_FILL_PER_CANCEL, OC_MAX in *.
    rewrite clampZ_min by lia. lia.
  - exists 0%nat. cbn [fst snd]. split; [lia|]. split.
    + unfold OC_FILL_PER_CANCEL, OC_MAX in *. lia.
    + intros [x Hx]. discriminate.
Qed.

(** C4. In the surge-cancellation pass a pairing that resolves with an
    overclock-faction surge and no plain player surge leaves the hero's
    meter (the whole hero) unchanged; one that resolves with a plain
    player surge sets the meter to the old value plus OC_FILL_PER_CANCEL
    clamped to [0, OC_MAX], which for a meter that is not negative is the
    smaller of that sum and OC_MAX. So it is for the pass itself. A pass
    over surges none of which is a plain player surge leaves the hero
    unchanged. A pass over two surges that clash within range resolves
    this one pairing (one cancel cue) and feeds the meter in just this
    way. A pass over surges none of which is overclock-faction, from a
    meter within [0, OC_MAX], ends with the meter at the smaller of
    OC_MAX and the old value plus OC_FILL_PER_CANCEL for each pairing
    resolved (each cancel cue requested), and at least one pairing is
    resolved when two of the surges clash within range. *)
Theorem cancel_feeds_meter_only_for_player :
  (forall (i j : nat) (si sj : Surge.t) (dead : list nat) (g : Game.t),
      let g' := snd (Game.resolve_cancel i j si sj (dead, g)) in
      (Surge.owner si = oc \/ Surge.owner sj = oc ->
       Surge.owner si <> player -> Surge.owner sj <> player ->
       Game.hero g' = Game.hero g) /\
      (Surge.owner si = player \/ Surge.owner sj = player ->
       Hero.oc_meter (Game.hero g') =
         clampZ (Hero.oc_meter (Game.hero g) + OC_FILL_PER_CANCEL) 0 OC_MAX /\
       (Hero.oc_meter (Game.hero g') <= OC_MAX)%Z /\
       ((0 <= Hero.oc_meter (Game.hero g))%Z ->
        Hero.oc_meter (Game.hero g') =
          Z.min (Hero.oc_meter (Game.hero g) + OC_FILL_PER_CANCEL) OC_MAX))) /\
  (forall g : Game.t,
      (forall s, In s (Game.surges g) -> Surge.owner s <> player) ->
      Game.hero (Game.handle_surge_cancels g) = Game.hero g) /\
  (forall (g : Game.t) (a b : Surge.t),
      Game.surges g = [a; b] ->
      Game.clash a b = true ->
      Game.in_cancel_range a b = true ->
      cue_count "cancel" (Game.sfx_log (Game.handle_surge_cancels g)) =
        S (cue_count "cancel" (Game.sfx_log g)) /\
      (Surge.owner a = player \/ Surge.owner b = player ->
       Hero.oc_meter (Game.hero (Game.handle_surge_cancels g)) =
         clampZ (Hero.oc_meter (Game.hero g) + OC_FILL_PER_CANCEL) 0 OC_MAX /\
       ((0 <= Hero.oc_meter (Game.hero g))%Z ->
        Hero.oc_meter (Game.hero (Game.handle_surge_cancels g)) =
          Z.min (Hero.oc_meter (Game.hero g) + OC_FILL_PER_CANCEL) OC_MAX)) /\
      (Surge.owner a <> player -> Surge.owner b <> player ->
       (Surge.owner a = oc \/ Surge.owner b = oc) /\
       Game.hero (Game.handle_surge_cancels g) = Game.hero g)) /\
  (forall g : Game.t,
      (forall s, In s (Game.surges g) -> Surge.owner s <> oc) ->
      (0 <= Hero.oc_meter (Game.hero g) <= OC_MAX)%Z ->
      exists n : nat,
        cue_count "cancel" (Game.sfx_log (Game.handle_surge_cancels g)) =
          (cue_count "cancel" (Game.sfx_log g) + n)%nat /\
        Hero.oc_meter (Game.hero (Game.handle_surge_cancels g)) =
          Z.min OC_MAX
            (Hero.oc_meter (Game.hero g) + OC_FILL_PER_CANCEL * Z.of_nat n) /\
        (forall (i j : nat) (si sj : Surge.t),
            (i < j)%nat ->
            nth_error (Game.surges g) i = Some si ->
            nth_error (Game.surges g) j = Some sj ->
            Game.clash si sj = true ->
            Game.in_cancel_range si sj = true ->
            (1 <= n)%nat)).
Proof.
  assert (Hnoplayer : forall g : Game.t,
             (forall s, In s (Game.surges g) -> Surge.owner s <> player) ->
             Game.hero (Game.handle_surge_cancels g) = Game.hero g).
  { intros g Hall. unfold Game.handle_surge_cancels.
    pose proof (cancel_rows_no_player (length (Game.surges g)) g Hall) as E.
    destruct (Game.cancel_rows (length (Game.surges g)) g) as [dead g1].
    simpl in E. destruct dead; simpl; exact E. }
  split; [|split; [exact Hnoplayer | split]].
  - intros i j si sj dead g g'. subst g'. unfold Game.resolve_cancel. split.
    + intros _ Hi Hj.
      destruct (Owner_eqb (Surge.owner si) player) eqn:E1;
        [apply Owner_eqb_eq in E1; contradiction|].
      destruct (Owner_eqb (Surge.owner sj) player) eqn:E2;
        [apply Owner_eqb_eq in E2; contradiction|].
      reflexivity.
    + intros Hp.
      assert (E : Owner_eqb (Surge.owner si) player
                  || Owner_eqb (Surge.owner sj) player = true).
      { apply orb_true_iff.
        destruct Hp as [Hp | Hp]; [left | right]; now apply Owner_eqb_eq. }
      rewrite E. cbn [snd Game.hero Game.set_hero Game.spark Game.sfx_play
                      Game.set_rng Game.set_sfx_log Hero.add_oc
                      Hero.oc_meter Hero.set_oc_meter].
      split; [reflexivity|]. split.
      * apply clampZ_bounds. unfold OC_MAX. lia.
      * intro Hm. apply clampZ_min. unfold OC_FILL_PER_CANCEL. lia.
  - intros g a b Hs Hc Hr.
    destruct (cancel_pass_of_two g a b Hs) as [Eh El].
    assert (Ep : Game.cancel_pair [a; b] 0 a ([], g) 1 =
                 Game.resolve_cancel 0 1 a b ([], g)).
    { unfold Game.cancel_pair.
      cbn [fst Game.in_dead existsb nth_error]. now rewrite Hc, Hr. }
    rewrite Ep in Eh, El.
    destruct (resolve_cancel_effect 0 1 a b [] g) as [Elog Ehero].
    cbv zeta in Elog, Ehero. rewrite Elog in El. rewrite Ehero in Eh.
    split; [rewrite El; apply cue_added|]. split.
    + intro Hp.
      assert (E : Owner_eqb (Surge.owner a) player
                  || Owner_eqb (Surge.owner b) player = true).
      { apply orb_true_iff.
        destruct Hp as [Hp | Hp]; [left | right]; now apply Owner_eqb_eq. }
      rewrite E in Eh. rewrite Eh.
      unfold Hero.add_oc. cbn [Hero.oc_meter Hero.set_oc_meter].
      split; [reflexivity|].
      intro Hm. apply clampZ_min. unfold OC_FILL_PER_CANCEL. lia.
    + intros Ha Hb. split; [now apply clash_without_player|].
      apply Hnoplayer. intros s Hin. rewrite Hs in Hin.
      destruct Hin as [<- | [<- | []]]; assumption.
  - intros g Hall Hm.
    destruct (cancel_rows_count (length (Game.surges g)) g Hall Hm)
      as (n & Hcue & Hmeter & Hone).
    exists n.
    assert (Esame :
      Game.sfx_log (Game.handle_surge_cancels g) =
        Game.sfx_log (snd (Game.cancel_rows (length (Game.surges g)) g)) /\
      Game.hero (Game.handle_surge_cancels g) =
        Game.hero (snd (Game.cancel_rows (length (Game.surges g)) g))).
    { unfold Game.handle_surge_cancels.
      destruct (Game.cancel_rows (length (Game.surges g)) g) as [dead g1].
      destruct dead; split; reflexivity. }
    destruct Esame as [El Eh]. rewrite El, Eh.
    split; [exact Hcue|]. split; [exact Hmeter|].
    intros i j si sj Hij Hi Hj Hc Hr. apply Hone.
    destruct (clashing_pair_one_dead g i j si sj Hij Hi Hj Hc Hr) as [Hd | Hd];
      [exists i | exists j]; exact Hd.
Qed.

(** The theorem at the pass itself, with the meter at 196: a player shot
    against a hostile one fills the meter to the cap, 200 and not 204; an
    overclock surge against the same hostile one leaves it at 196. *)
Lemma cancel_feeds_meter_only_for_player_witness :
  Hero.oc_meter (Game.hero (Game.handle_surge_cancels duel)) = 200%Z /\
  Hero.oc_meter (Game.hero (Game.handle_surge_cancels oc_duel)) = 196%Z.
Proof.
  destruct cancel_feeds_meter_only_for_player as (_ & _ & Htwo & _).
  split.
  - destruct (Htwo duel shot_P shot_A eq_refl eq_refl) as (_ & Hp & _).
    + vm_compute. reflexivity.
    + destruct Hp as [E _]; [left; reflexivity|].
      rewrite E. vm_compute. reflexivity.
  - destruct (Htwo oc_duel _ shot_A eq_refl eq_refl) as (_ & _ & Ho).
    + vm_compute. reflexivity.
    + destruct Ho as [_ E]; [discriminate | discriminate|].
      rewrite E. vm_compute. reflexivity.
Defined.

(** ** What the passes of a frame keep *)

Ltac break_lets :=
  repeat match goal with
         | |- context [if ?c then _ else _] => destruct c
         | |- context [match ?e with pair _ _ => _ end] => destruct e
         end.

Lemma steps_to_refl (g : Game.t) : steps_to g g.
Proof. unfold steps_to. repeat split; lia. Qed.

Lemma steps_to_trans (a b c : Game.t) :
  steps_to a b -> steps_to b c -> steps_to a c.
Proof.
  unfold steps_to. intros (H1 & H2 & H3) (H4 & H5 & H6).
  repeat split; [lia | congruence | lia].
Qed.

(** A pass that leaves hero, enemies and state alone. *)
Lemma steps_to_same (g g' : Game.t) :
  Game.hero g' = Game.hero g ->
  Game.enemies g' = Game.enemies g ->
  Game.state g' = Game.state g ->
  steps_to g g'.
Proof.
  intros E1 E2 E3. unfold steps_to. rewrite E1, E2, E3.
  repeat split; lia.
Qed.

(** A pass that changes neither health nor invulnerability. *)
Lemma steps_to_hero (g g' : Game.t) :
  Hero.hp (Game.hero g') = Hero.hp (Game.hero g) ->
  Hero.ifr (Game.hero g') = Hero.ifr (Game.hero g) ->
  Game.enemies g' = Game.enemies g ->
  Game.state g' = Game.state g ->
  steps_to g g'.
Proof.
  intros E1 E2 E3 E4. unfold steps_to, hero_floor. rewrite E1, E2, E3, E4.
  repeat split; lia.
Qed.

(** [hurt] never lowers the floor: a hit that lands starts the
    invulnerability. *)
Lemma hurt_floor (h : Hero.t) :
  hero_floor (snd (Hero.hurt h)) = hero_floor h.
Proof.
  unfold Hero.hurt, hero_floor.
  destruct (Qltb 0 (Hero.ifr h)) eqn:E; cbn [snd]; [now rewrite E|].
  cbn [Hero.hp Hero.ifr Hero.set_ifr Hero.set_hp].
  change (Qltb 0 HERO_IFRAMES) with true. cbv iota. lia.
Qed.

Lemma floor_le_hp (h : Hero.t) : (hero_floor h <= Hero.hp h)%Z.
Proof. unfold hero_floor. destruct (Qltb 0 (Hero.ifr h)); lia. Qed.

Lemma hp_le_floor (h : Hero.t) : (Hero.hp h - 1 <= hero_floor h)%Z.
Proof. unfold hero_floor. destruct (Qltb 0 (Hero.ifr h)); lia. Qed.

Lemma blast_phase_steps (inp : Input) (g : Game.t) :
  steps_to g (Game.blast_phase inp g).
Proof.
  unfold Game.blast_phase.
  destruct ((keys inp K_LSHIFT || keys inp K_RSHIFT)
            && Hero.ready_overclock (Game.hero g)); [|apply steps_to_refl].
  destruct (add_shake_keeps OC_BLAST_SHAKE_STRENGTH
              (Game.set_oc_blast_timer OC_BLAST_SHAKE_TIME
                 (Game.fire_overclock_blast g)))
    as (Es & Eh & Ee & _).
  apply steps_to_hero; rewrite ?Eh, ?Ee, ?Es; reflexivity.
Qed.

Lemma blast_shake_phase_steps (dt : Q) (g : Game.t) :
  steps_to g (Game.blast_shake_phase dt g).
Proof.
  unfold Game.blast_shake_phase.
  destruct (Qltb 0 (Game.oc_blast_timer g)); [|apply steps_to_refl].
  match goal with |- steps_to _ (Game.add_shake ?a ?x) =>
    destruct (add_shake_keeps a x) as (Es & Eh & Ee & _) end.
  apply steps_to_same; rewrite ?Eh, ?Ee, ?Es; reflexivity.
Qed.

Lemma fire_phase_steps (inp : Input) (g : Game.t) :
  steps_to g (Game.fire_phase inp g).
Proof.
  unfold Game.fire_phase.
  destruct ((mouse_left inp || keys inp K_SPACE) && Hero.can_shoot (Game.hero g));
    [|apply steps_to_refl].
  unfold Hero.shoot.
  match goal with |- steps_to _ (Game.add_shake ?a ?x) =>
    destruct (add_shake_keeps a x) as (Es & Eh & Ee & _) end.
  apply steps_to_hero; rewrite ?Eh, ?Ee, ?Es; reflexivity.
Qed.

Lemma emitter_update_keeps (dt : Q) (m : SurgeEmitter.t) (g : Game.t) :
  Game.hero (snd (Game.emitter_update dt m g)) = Game.hero g /\
  Game.enemies (snd (Game.emitter_update dt m g)) = Game.enemies g /\
  Game.state (snd (Game.emitter_update dt m g)) = Game.state g.
Proof.
  unfold Game.emitter_update. break_lets; cbn; repeat split.
Qed.

Lemma natural_phase_steps (dt : Q) (g : Game.t) :
  steps_to g (Game.natural_phase dt g).
Proof.
  unfold Game.natural_phase.
  set (g1 := if negb _ then _ else g).
  assert (E1 : Game.hero g1 = Game.hero g /\ Game.enemies g1 = Game.enemies g
               /\ Game.state g1 = Game.state g).
  { unfold g1. unfold SurgeEmitter.schedule, rand_between, uniform, randint, random.
    break_lets; cbn; repeat split. }
  clearbody g1. destruct E1 as (Eh1 & Ee1 & Es1).
  pose proof (emitter_update_keeps dt (Game.emit_row g1) g1) as (Eh2 & Ee2 & Es2).
  destruct (Game.emitter_update dt (Game.emit_row g1) g1) as [mr g2].
  cbn [snd] in *.
  pose proof (emitter_update_keeps dt
                (Game.emit_col (Game.set_emit_row mr g2))
                (Game.set_emit_row mr g2)) as (Eh3 & Ee3 & Es3).
  destruct (Game.emitter_update dt (Game.emit_col (Game.set_emit_row mr g2))
              (Game.set_emit_row mr g2)) as [mc g4].
  cbn [snd Game.hero Game.enemies Game.state Game.set_emit_row] in *.
  apply steps_to_same;
    cbn [Game.hero Game.enemies Game.state Game.set_emit_col]; congruence.
Qed.

(** Enemies act on themselves, on the random source, on the hazards and
    on the cosmetic state only. *)
Lemma enemy_update_keeps (dt : Q) (e : Enemy.t) (g : Game.t) :
  Game.hero (snd (Game.enemy_update dt e g)) = Game.hero g /\
  Game.state (snd (Game.enemy_update dt e g)) = Game.state g /\
  Game.enemies (snd (Game.enemy_update dt e g)) = Game.enemies g /\
  Game.surges (snd (Game.enemy_update dt e g)) = Game.surges g.
Proof.
  unfold Game.enemy_update, Game.Virus_update, Game.Bug_update,
    Game.Worm_update.
  destruct (Enemy.kind e);
    destruct (Enemy.common_move _ _ e (Game.rng g)) as [e1 r1];
    unfold rand_between, uniform, random, Game.add_shake;
    break_lets; cbn; repeat split.
Qed.

Lemma update_enemies_keeps (dt : Q) (es : list Enemy.t) (g : Game.t) :
  length (fst (fst (Game.update_enemies dt es g))) = length es /\
  Game.hero (snd (Game.update_enemies dt es g)) = Game.hero g /\
  Game.state (snd (Game.update_enemies dt es g)) = Game.state g.
Proof.
  revert g. induction es as [|e rest IH]; intro g; [repeat split|].
  cbn [Game.update_enemies].
  pose proof (enemy_update_keeps dt e g) as (Eh & Es & _).
  destruct (Game.enemy_update dt e g) as [[e' shots] g1]. cbn [snd] in *.
  specialize (IH g1). destruct IH as (Il & Ih & Is).
  destruct (Game.update_enemies dt rest g1) as [[rest' more] g2].
  cbn [fst snd length] in *. repeat split; congruence.
Qed.

Lemma enemies_phase_steps (dt : Q) (g : Game.t) :
  steps_to g (Game.enemies_phase dt g).
Proof.
  unfold Game.enemies_phase.
  pose proof (update_enemies_keeps dt (Game.enemies g) g) as (El & Eh & Es).
  destruct (Game.update_enemies dt (Game.enemies g) g) as [[es new] g1].
  cbn [fst snd] in *.
  unfold steps_to.
  cbn [Game.hero Game.state Game.enemies Game.set_surges Game.set_enemies].
  rewrite Eh, Es, El. repeat split; lia.
Qed.

Lemma set_nth_length {A : Type} (i : nat) (x : A) (l : list A) :
  length (Game.set_nth i x l) = length l.
Proof.
  revert i. induction l as [|y l IH]; intros [|i]; simpl; auto.
Qed.

(** The invariant of the mitosis loops: the list keeps its length and
    the children to add keep the total within the bound. *)
Lemma mitosis_pair_inv (g0 : Game.t) (i j : nat) (st : Game.t * list Enemy.t) :
  let n := length (Game.enemies g0) in
  (Game.hero (fst st) = Game.hero g0 /\
   Game.state (fst st) = Game.state g0 /\
   length (Game.enemies (fst st)) = n /\
   (n + length (snd st) <= Nat.max n MAX_ENEMIES_ON_FIELD)%nat) ->
  (Game.hero (fst (Game.mitosis_pair i j st)) = Game.hero g0 /\
   Game.state (fst (Game.mitosis_pair i j st)) = Game.state g0 /\
   length (Game.enemies (fst (Game.mitosis_pair i j st))) = n /\
   (n + length (snd (Game.mitosis_pair i j st))
    <= Nat.max n MAX_ENEMIES_ON_FIELD)%nat).
Proof.
  intros n Hst. unfold Game.mitosis_pair. destruct st as [g to_add].
  cbn [fst snd] in Hst. destruct Hst as (Hh & Hs & Hl & Hb).
  destruct (nth_error (Game.enemies g) i) as [ei|]; [|cbn; auto].
  destruct (nth_error (Game.enemies g) j) as [ej|]; [|cbn; auto].
  destruct (negb (Enemy.same_type ei ej)); [cbn; auto|].
  destruct (Qltb 0 (Enemy.rep_cd ei) || Qltb 0 (Enemy.rep_cd ej)); [cbn; auto|].
  destruct (within _ _ _); [|cbn; auto].
  destruct (MAX_ENEMIES_ON_FIELD <=? length (Game.enemies g) + length to_add)%nat
    eqn:Ecap; [cbn; auto|].
  apply Nat.leb_gt in Ecap.
  destruct (Game.mitosis_child ei ej (Game.rng g)) as [child r3].
  cbn [fst snd Game.hero Game.state Game.enemies Game.spark Game.sfx_play
       Game.set_rng Game.set_sfx_log Game.set_enemies].
  rewrite !set_nth_length, length_app. cbn [length].
  repeat split; try assumption. lia.
Qed.

Lemma handle_enemy_mitosis_steps (g : Game.t) :
  steps_to g (Game.handle_enemy_mitosis g).
Proof.
  unfold Game.handle_enemy_mitosis.
  set (n := length (Game.enemies g)).
  assert (Hinv :
    let st := fold_left (Game.mitosis_row n) (seq 0 n) (g, []) in
    Game.hero (fst st) = Game.hero g /\
    Game.state (fst st) = Game.state g /\
    length (Game.enemies (fst st)) = n /\
    (n + length (snd st) <= Nat.max n MAX_ENEMIES_ON_FIELD)%nat).
  { apply (fold_left_inv
             (fun st => Game.hero (fst st) = Game.hero g /\
                        Game.state (fst st) = Game.state g /\
                        length (Game.enemies (fst st)) = n /\
                        (n + length (snd st)
                         <= Nat.max n MAX_ENEMIES_ON_FIELD)%nat)).
    - intros st i _ Hst. unfold Game.mitosis_row.
      apply (fold_left_inv
               (fun st => Game.hero (fst st) = Game.hero g /\
                          Game.state (fst st) = Game.state g /\
                          length (Game.enemies (fst st)) = n /\
                          (n + length (snd st)
                           <= Nat.max n MAX_ENEMIES_ON_FIELD)%nat));
        [|exact Hst].
      intros st' j _ Hst'. now apply (mitosis_pair_inv g i j st').
    - cbn [fst snd length]. repeat split; lia. }
  cbv zeta in Hinv.
  destruct (fold_left (Game.mitosis_row n) (seq 0 n) (g, [])) as [g1 to_add].
  cbn [fst snd] in Hinv. destruct Hinv as (Hh & Hs & Hl & Hb).
  unfold steps_to. fold n.
  destruct to_add as [|c to_add];
    cbn [Game.hero Game.state Game.enemies Game.set_enemies];
    rewrite ?length_app; rewrite Hh, Hs, Hl; repeat split; lia.
Qed.

Lemma glitch_decay_steps (dt : Q) (g : Game.t) :
  steps_to g (Game.glitch_decay dt g).
Proof. apply steps_to_same; reflexivity. Qed.

Lemma surges_phase_steps (dt : Q) (g : Game.t) :
  steps_to g (Game.surges_phase dt g).
Proof. apply steps_to_same; reflexivity. Qed.

Lemma shake_decay_keeps (g : Game.t) :
  Game.hero (Game.shake_decay g) = Game.hero g /\
  Game.enemies (Game.shake_decay g) = Game.enemies g /\
  Game.state (Game.shake_decay g) = Game.state g.
Proof.
  unfold Game.shake_decay. destruct (Qltb 0 (Game.shake g)); repeat split.
Qed.

(** The cancellation pass touches the meter only. *)
Lemma cancel_pair_steps (ss : list Surge.t) (i : nat) (si : Surge.t)
    (st : list nat * Game.t) (j : nat) :
  steps_to (snd st) (snd (Game.cancel_pair ss i si st j)).
Proof.
  unfold Game.cancel_pair.
  destruct (Game.in_dead j (fst st)); [apply steps_to_refl|].
  destruct (nth_error ss j) as [sj|]; [|apply steps_to_refl].
  destruct (Game.clash si sj); [|apply steps_to_refl].
  destruct (Game.in_cancel_range si sj); [|apply steps_to_refl].
  destruct st as [dead g]. unfold Game.resolve_cancel.
  destruct (Owner_eqb (Surge.owner si) player || Owner_eqb (Surge.owner sj) player);
    apply steps_to_hero; reflexivity.
Qed.

Lemma handle_surge_cancels_steps (g : Game.t) :
  steps_to g (Game.handle_surge_cancels g).
Proof.
  unfold Game.handle_surge_cancels, Game.cancel_rows.
  assert (Hinv : steps_to g
            (snd (fold_left (Game.cancel_row (Game.surges g))
                    (seq 0 (length (Game.surges g))) ([], g)))).
  { apply (fold_left_inv (fun st => steps_to g (snd st)));
      [|apply steps_to_refl].
    intros st i _ Hst. unfold Game.cancel_row.
    destruct (Game.in_dead i (fst st)); [exact Hst|].
    destruct (nth_error (Game.surges g) i) as [si|]; [|exact Hst].
    apply (fold_left_inv (fun st => steps_to g (snd st))); [|exact Hst].
    intros st' j _ Hst'.
    eapply steps_to_trans; [exact Hst' | apply cancel_pair_steps]. }
  destruct (fold_left _ _ _) as [dead g1]. cbn [snd] in Hinv.
  destruct dead; [exact Hinv|].
  eapply steps_to_trans; [exact Hinv|]. apply steps_to_same; reflexivity.
Qed.

(** Children are only inserted below the cap. *)
Lemma insert_children_bound (cs : list Enemy.t) (n : nat) (added : list Enemy.t) :
  (n + length (Game.insert_children cs n added)
   <= Nat.max (n + length added) MAX_ENEMIES_ON_FIELD)%nat.
Proof.
  revert added. induction cs as [|c cs IH]; intro added; cbn [Game.insert_children].
  - lia.
  - destruct (n + length added <? MAX_ENEMIES_ON_FIELD)%nat eqn:E.
    + apply Nat.ltb_lt in E. specialize (IH (added ++ [c])).
      rewrite length_app in IH. cbn [length] in IH. lia.
    + apply IH.
Qed.

(** One friendly surge against the enemies: health and invulnerability
    of the hero and the state stay, and the enemy list at the end is no
    longer than the larger of the list at the start and the cap. *)
Lemma hit_enemies_keeps (s : Surge.t) (rest kept added : list Enemy.t)
    (g : Game.t) :
  let res := Game.hit_enemies s kept rest added g in
  Hero.hp (Game.hero (snd res)) = Hero.hp (Game.hero g) /\
  Hero.ifr (Game.hero (snd res)) = Hero.ifr (Game.hero g) /\
  Game.state (snd res) = Game.state g /\
  (length (fst (fst res))
   <= Nat.max (length kept + length rest + length added)
              MAX_ENEMIES_ON_FIELD)%nat.
Proof.
  revert kept added g.
  induction rest as [|e rest' IH]; intros kept added g; cbn zeta.
  - cbn [Game.hit_enemies fst snd]. rewrite length_app. cbn [length].
    repeat split; lia.
  - cbn [Game.hit_enemies].
    destruct (within (Enemy.pos e) (Surge.pos s)
                (inject_Z (Enemy.r e + Surge.r s))).
    + unfold Enemy.take_damage.
      set (e1 := Enemy.set_hp (Enemy.hp e - Surge.dmg s) e).
      set (g1 := Game.spark 10 (Game.sfx_play "hit" g)).
      set (g2 := if Owner_eqb (Surge.owner s) player then _ else _).
      assert (Hg2 : Hero.hp (Game.hero g2) = Hero.hp (Game.hero g) /\
                    Hero.ifr (Game.hero g2) = Hero.ifr (Game.hero g) /\
                    Game.state g2 = Game.state g).
      { unfold g2. destruct (Owner_eqb (Surge.owner s) player); repeat split. }
      clearbody g2. destruct Hg2 as (Hh2 & Hi2 & Hs2).
      destruct (Enemy.hp e1 <=? 0)%Z.
      * set (ga := Game.spark 18 (Game.sfx_play "explode" g2)).
        set (pr := if Enemy.is_Virus e1 then _ else (added, ga)).
        assert (Hpr : Hero.hp (Game.hero (snd pr)) = Hero.hp (Game.hero g) /\
                      Hero.ifr (Game.hero (snd pr)) = Hero.ifr (Game.hero g) /\
                      Game.state (snd pr) = Game.state g /\
                      (length kept + length rest' + length (fst pr)
                       <= Nat.max (length kept + length rest' + length added)
                                  MAX_ENEMIES_ON_FIELD)%nat).
        { unfold pr. destruct (Enemy.is_Virus e1).
          - destruct (Enemy.on_death e1 (Game.rng ga)) as [children r1].
            cbn [fst snd Game.hero Game.state Game.set_rng].
            repeat split; try assumption.
            apply insert_children_bound.
          - cbn [fst snd]. repeat split; try assumption. lia. }
        clearbody pr. destruct pr as [added1 gb]. cbn [fst snd] in Hpr.
        destruct Hpr as (Hh3 & Hi3 & Hs3 & Hb3).
        set (g3 := Game.set_score _ gb).
        assert (Hg3 : Hero.hp (Game.hero g3) = Hero.hp (Game.hero g) /\
                      Hero.ifr (Game.hero g3) = Hero.ifr (Game.hero g) /\
                      Game.state g3 = Game.state g)
          by (unfold g3; cbn [Game.hero Game.state Game.set_score];
              repeat split; assumption).
        clearbody g3. destruct Hg3 as (Hh4 & Hi4 & Hs4).
        destruct (negb (Surge.pierce s)).
        -- cbn [fst snd]. rewrite !length_app. cbn [length].
           repeat split; try assumption. lia.
        -- specialize (IH kept added1 g3). cbn zeta in IH.
           destruct IH as (I1 & I2 & I3 & I4).
           cbn [length]. repeat split; try congruence. lia.
      * destruct (negb (Surge.pierce s)).
        -- cbn [fst snd]. rewrite !length_app. cbn [length].
           repeat split; try assumption. lia.
        -- specialize (IH (kept ++ [e1]) added g2). cbn zeta in IH.
           destruct IH as (I1 & I2 & I3 & I4).
           rewrite length_app in I4. cbn [length] in *.
           repeat split; try congruence. lia.
    + specialize (IH (kept ++ [e]) added g). cbn zeta in IH.
      destruct IH as (I1 & I2 & I3 & I4).
      rewrite length_app in I4. cbn [length] in *.
      repeat split; try congruence. lia.
Qed.

Lemma hit_surge_steps (s : Surge.t) (g : Game.t) :
  steps_to g (snd (Game.hit_surge s g)).
Proof.
  unfold Game.hit_surge.
  destruct (Game.is_friend (Surge.owner s)).
  - pose proof (hit_enemies_keeps s (Game.enemies g) [] [] g) as Hk.
    cbn zeta in Hk.
    destruct (Game.hit_enemies s [] (Game.enemies g) [] g) as [[es removed] g1].
    cbn [fst snd length] in *. destruct Hk as (Hh & Hi & Hs & Hb).
    unfold steps_to, hero_floor.
    cbn [Game.hero Game.state Game.enemies Game.set_enemies].
    rewrite Hh, Hi, Hs. repeat split; lia.
  - destruct (within _ _ _); [|apply steps_to_refl].
    pose proof (hurt_floor (Game.hero g)) as Hf.
    destruct (Hero.hurt (Game.hero g)) as [landed h]. cbn [snd] in *.
    assert (Hbase : steps_to g (Game.set_hero h g)).
    { unfold steps_to. cbn [Game.hero Game.state Game.enemies Game.set_hero].
      rewrite Hf. repeat split; lia. }
    destruct landed; [|exact Hbase].
    eapply steps_to_trans; [exact Hbase|].
    match goal with |- steps_to _ (Game.add_shake ?a ?x) =>
      destruct (add_shake_keeps a x) as (Es & Eh & Ee & _) end.
    apply steps_to_same; rewrite ?Eh, ?Ee, ?Es; reflexivity.
Qed.

Lemma hit_surges_steps (copy : list Surge.t) (g : Game.t) :
  steps_to g (snd (Game.hit_surges copy g)).
Proof.
  revert g. induction copy as [|s rest IH]; intro g; [apply steps_to_refl|].
  cbn [Game.hit_surges].
  pose proof (hit_surge_steps s g) as H1.
  destruct (Game.hit_surge s g) as [stays g1]. cbn [snd] in H1.
  specialize (IH g1).
  destruct (Game.hit_surges rest g1) as [left g2]. cbn [snd] in *.
  eapply steps_to_trans; eassumption.
Qed.

Lemma handle_surge_hits_steps (g : Game.t) :
  steps_to g (Game.handle_surge_hits g).
Proof.
  unfold Game.handle_surge_hits.
  pose proof (hit_surges_steps (Game.surges g) g) as H1.
  destruct (Game.hit_surges (Game.surges g) g) as [left g1]. cbn [snd] in H1.
  eapply steps_to_trans; [exact H1|]. apply steps_to_same; reflexivity.
Qed.

Lemma glitch_hit_steps (g : Game.t) (ga : Vec * Q) :
  steps_to g (Game.glitch_hit g ga).
Proof.
  unfold Game.glitch_hit.
  destruct (within _ _ _); [|apply steps_to_refl].
  pose proof (hurt_floor (Game.hero g)) as Hf.
  destruct (Hero.hurt (Game.hero g)) as [landed h]. cbn [snd] in *.
  assert (Hbase : steps_to g (Game.set_hero h g)).
  { unfold steps_to. cbn [Game.hero Game.state Game.enemies Game.set_hero].
    rewrite Hf. repeat split; lia. }
  destruct landed; [|exact Hbase].
  eapply steps_to_trans; [exact Hbase|].
  match goal with |- steps_to _ (Game.add_shake ?a ?x) =>
    destruct (add_shake_keeps a x) as (Es & Eh & Ee & _) end.
  apply steps_to_same; rewrite ?Eh, ?Ee, ?Es; reflexivity.
Qed.

Lemma glitch_phase_steps (g : Game.t) : steps_to g (Game.glitch_phase g).
Proof.
  unfold Game.glitch_phase.
  apply (fold_left_inv (fun g' => steps_to g g')); [|apply steps_to_refl].
  intros g' ga _ Hg'.
  eapply steps_to_trans; [exact Hg' | apply glitch_hit_steps].
Qed.

(** From the blast trigger to the last hazard test. *)
Lemma passes_step (dt : Q) (inp : Input) (g : Game.t) :
  steps_to g
    (Game.glitch_phase
       (Game.handle_surge_hits
          (Game.handle_surge_cancels
             (Game.surges_phase dt
                (Game.glitch_decay dt
                   (Game.handle_enemy_mitosis
                      (Game.enemies_phase dt
                         (Game.natural_phase dt
                            (Game.fire_phase inp
                               (Game.blast_shake_phase dt
                                  (Game.blast_phase inp g))))))))))).
Proof.
  repeat first
    [ eapply steps_to_trans; [|apply glitch_phase_steps]
    | eapply steps_to_trans; [|apply handle_surge_hits_steps]
    | eapply steps_to_trans; [|apply handle_surge_cancels_steps]
    | eapply steps_to_trans; [|apply surges_phase_steps]
    | eapply steps_to_trans; [|apply glitch_decay_steps]
    | eapply steps_to_trans; [|apply handle_enemy_mitosis_steps]
    | eapply steps_to_trans; [|apply enemies_phase_steps]
    | eapply steps_to_trans; [|apply natural_phase_steps]
    | eapply steps_to_trans; [|apply fire_phase_steps]
    | eapply steps_to_trans; [|apply blast_shake_phase_steps] ].
  apply blast_phase_steps.
Qed.

Lemma win_lose_keeps (g : Game.t) :
  Game.hero (Game.win_lose g) = Game.hero g /\
  Game.enemies (Game.win_lose g) = Game.enemies g /\
  Game.state (Game.win_lose g) =
    (if negb (Hero.alive (Game.hero g)) then gameover
     else match Game.enemies g with [] => sectorclear | _ => Game.state g end).
Proof.
  unfold Game.win_lose.
  destruct (negb (Hero.alive (Game.hero g))); [repeat split|].
  destruct (Game.enemies g) eqn:E;
    cbn [Game.hero Game.enemies Game.state Game.set_highscore Game.sfx_play
         Game.set_sfx_log Game.set_state];
    rewrite ?E; repeat split.
Qed.

(** ** The population cap *)

(** An update never lets the enemy count exceed the larger of the count
    before it and the cap. *)
Lemma update_enemy_bound (dt : Q) (inp : Input) (g : Game.t) :
  (length (Game.enemies (Game.update dt inp g))
   <= Nat.max (length (Game.enemies g)) MAX_ENEMIES_ON_FIELD)%nat.
Proof.
  assert (Hgo : (length (Game.enemies
                   (Game.after_blast dt inp
                      (Game.blast_phase inp (Game.hero_phase dt inp g))))
                 <= Nat.max (length (Game.enemies g)) MAX_ENEMIES_ON_FIELD)%nat).
  { unfold Game.after_blast.
    destruct (shake_decay_keeps
                (Game.win_lose
                   (Game.glitch_phase
                      (Game.handle_surge_hits
                         (Game.handle_surge_cancels
                            (Game.surges_phase dt
                               (Game.glitch_decay dt
                                  (Game.handle_enemy_mitosis
                                     (Game.enemies_phase dt
                                        (Game.natural_phase dt
                                           (Game.fire_phase inp
                                              (Game.blast_shake_phase dt
                                                 (Game.blast_phase inp
                                                    (Game.hero_phase dt inp g))))))))))))))
      as (_ & Ee & _).
    rewrite Ee.
    match goal with |- context [Game.win_lose ?x] =>
      destruct (win_lose_keeps x) as (_ & Ew & _) end.
    rewrite Ew.
    destruct (passes_step dt inp (Game.hero_phase dt inp g)) as (_ & _ & Hb).
    exact Hb. }
  unfold Game.update. destruct (Game.state g); try exact Hgo; lia.
Qed.

(** Sector 14 is what SPACE gives after sector 13 is cleared; it is in
    play with 19 enemies. *)
Lemma sector14_built :
  Game.handle_events [KEYDOWN K_SPACE] cleared13 = Some sector14 /\
  Game.state sector14 = play /\
  Game.sector sector14 = 14%Z /\
  length (Game.enemies sector14) = 19%nat.
Proof.
  split; [reflexivity|]. vm_compute. repeat split.
Qed.

(** C1 fails on the code. The cap is checked where the update adds
    enemies (the mitosis pass and the children of a Virus), and the update
    never takes the field above the larger of its size and the cap; but
    [build_sector] appends its enemies without the check. SPACE after the
    13th sector builds sector 14 with 9 Viruses, 9 Bugs and 1 Worm: the
    game is in play with 19 enemies, and the update leaves 19, one above
    MAX_ENEMIES_ON_FIELD. *)
Theorem sector_start_exceeds_cap :
  Game.state cleared13 = sectorclear /\
  Game.handle_events [KEYDOWN K_SPACE] cleared13 = Some sector14 /\
  Game.state sector14 = play /\
  Game.sector sector14 = 14%Z /\
  length (Game.enemies sector14) = 19%nat /\
  length (Game.enemies (Game.update (1 # 60) idle sector14)) = 19%nat /\
  (MAX_ENEMIES_ON_FIELD
   < length (Game.enemies (Game.update (1 # 60) idle sector14)))%nat /\
  (forall (dt : Q) (inp : Input) (g : Game.t),
      (length (Game.enemies (Game.update dt inp g))
       <= Nat.max (length (Game.enemies g)) MAX_ENEMIES_ON_FIELD)%nat).
Proof.
  destruct sector14_built as (A & B & C & D).
  assert (E : length (Game.enemies (Game.update (1 # 60) idle sector14)) = 19%nat)
    by (vm_compute; reflexivity).
  split; [vm_compute; reflexivity|].
  split; [exact A|]. split; [exact B|]. split; [exact C|]. split; [exact D|].
  split; [exact E|]. split; [rewrite E; unfold MAX_ENEMIES_ON_FIELD; lia|].
  exact update_enemy_bound.
Qed.

(** ** The hero's health over a session *)

Lemma spawn_many_state (new : Vec -> Rng -> Enemy.t * Rng) (n : nat)
    (g : Game.t) :
  Game.state (Game.spawn_many new n g) = Game.state g.
Proof.
  revert g. induction n as [|k IH]; intro g; [reflexivity|].
  cbn [Game.spawn_many].
  destruct (Game.random_grid_pos (Game.rng g)) as [p r1].
  destruct (new p r1) as [e r2]. now rewrite IH.
Qed.

(** Every sector starts with a new hero at full health. *)
Lemma build_sector_hero (v b w : Z) (g : Game.t) :
  Game.hero (Game.build_sector v b w g) = Hero.new CENTER /\
  Game.state (Game.build_sector v b w g) = Game.state g.
Proof.
  unfold Game.build_sector, rand_between, uniform, random.
  cbn [Game.hero Game.state Game.set_oc_blast_timer Game.set_emit_col
       Game.set_emit_row Game.set_nat_timer Game.set_rng Game.set_hero
       Game.set_glitches Game.set_surges].
  split; [reflexivity|]. now rewrite !spawn_many_state.
Qed.

Lemma set_state_fields (s : State) (g : Game.t) :
  Game.hero (Game.set_state s g) = Game.hero g /\
  Game.state (Game.set_state s g) = s.
Proof. split; reflexivity. Qed.

Lemma start_run_unfold (g : Game.t) :
  Game.start_run g =
  Game.set_state play
    (Game.build_sector 2 2 1 (Game.set_sector 1 (Game.set_score 0 g))).
Proof. reflexivity. Qed.

(** A game whose hero is new satisfies the health invariant. *)
Lemma new_hero_health (g : Game.t) :
  Game.hero g = Hero.new CENTER -> health_inv g.
Proof.
  intro E. unfold health_inv. rewrite E.
  change (Hero.hp (Hero.new CENTER)) with 5%Z.
  split; [|intros _]; lia.
Qed.

Lemma start_run_health (g : Game.t) : health_inv (Game.start_run g).
Proof.
  apply new_hero_health. rewrite start_run_unfold.
  rewrite (proj1 (set_state_fields play _)).
  apply build_sector_hero.
Qed.

Lemma next_sector_health (g : Game.t) : health_inv (Game.next_sector g).
Proof.
  apply new_hero_health. unfold Game.next_sector.
  change SECTOR_START_ENEMIES with (2, 2, 1)%Z. cbv iota beta zeta.
  rewrite (proj1 (set_state_fields play _)).
  apply build_sector_hero.
Qed.

Lemma on_keydown_health (k : Key) (g : Game.t) :
  health_inv g -> health_inv (Game.on_keydown k g).
Proof.
  intro Hg. unfold Game.on_keydown.
  set (g1 := if Game.Key_eqb k K_p && _ then _ else g).
  assert (H1 : health_inv g1).
  { unfold g1.
    destruct (Game.Key_eqb k K_p
              && (State_eqb (Game.state g) play || State_eqb (Game.state g) paused))
      eqn:E; [|exact Hg].
    apply andb_true_iff in E. destruct E as [_ E].
    apply orb_true_iff in E.
    assert (Hst : Game.state g = play \/ Game.state g = paused)
      by (destruct E as [E | E]; apply State_eqb_eq in E; auto).
    destruct Hg as [Hg0 Hg1]. specialize (Hg1 Hst).
    unfold health_inv. cbn [Game.hero Game.state Game.set_state].
    split; [lia | intros _; exact Hg1]. }
  clearbody g1.
  set (g2 := if Game.Key_eqb k K_v then _ else g1).
  assert (H2 : health_inv g2) by (unfold g2; destruct (Game.Key_eqb k K_v); exact H1).
  clearbody g2.
  set (g3 := if Game.Key_eqb k K_m then _ else g2).
  assert (H3 : health_inv g3) by (unfold g3; destruct (Game.Key_eqb k K_m); exact H2).
  clearbody g3.
  set (g4 := if Game.Key_eqb k K_r && _ then _ else g3).
  assert (H4 : health_inv g4).
  { unfold g4. destruct (Game.Key_eqb k K_r && State_eqb (Game.state g3) gameover);
      [apply start_run_health | exact H3]. }
  clearbody g4.
  set (g5 := if State_eqb (Game.state g4) menu && _ then _ else g4).
  assert (H5 : health_inv g5).
  { unfold g5.
    destruct (State_eqb (Game.state g4) menu
              && (Game.Key_eqb k K_SPACE || Game.Key_eqb k K_RETURN));
      [apply start_run_health | exact H4]. }
  clearbody g5.
  destruct (State_eqb (Game.state g5) sectorclear
            && (Game.Key_eqb k K_SPACE || Game.Key_eqb k K_RETURN));
    [apply next_sector_health | exact H5].
Qed.

Lemma on_mousedown_health (b : Z) (g : Game.t) :
  health_inv g -> health_inv (Game.on_mousedown b g).
Proof.
  intro Hg. unfold Game.on_mousedown.
  set (g1 := if State_eqb (Game.state g) menu && _ then _ else g).
  assert (H1 : health_inv g1).
  { unfold g1. destruct (State_eqb (Game.state g) menu && (b =? 1)%Z);
      [apply start_run_health | exact Hg]. }
  clearbody g1.
  destruct (State_eqb (Game.state g1) sectorclear && (b =? 1)%Z);
    [apply next_sector_health | exact H1].
Qed.

Lemma handle_events_health (evs : list Event) (g g1 : Game.t) :
  health_inv g -> Game.handle_events evs g = Some g1 -> health_inv g1.
Proof.
  revert g. induction evs as [|ev evs IH]; intros g Hg Hev.
  - cbn in Hev. inversion Hev. subst. exact Hg.
  - destruct ev as [|k|b|]; cbn [Game.handle_events] in Hev.
    + discriminate.
    + destruct (Game.Key_eqb k K_ESCAPE); [discriminate|].
      eapply IH; [|exact Hev]. now apply on_keydown_health.
    + eapply IH; [|exact Hev]. now apply on_mousedown_health.
    + eapply IH; eassumption.
Qed.

(** An update takes at most one point of health, and a hero that is out
    of health ends the play state. *)
Lemma update_health (dt : Q) (inp : Input) (g : Game.t) :
  health_inv g -> health_inv (Game.update dt inp g).
Proof.
  intros Hg.
  assert (Hgo : (1 <= Hero.hp (Game.hero g))%Z ->
                health_inv (Game.after_blast dt inp
                              (Game.blast_phase inp (Game.hero_phase dt inp g)))).
  { intro Hhp. unfold Game.after_blast.
    match goal with |- health_inv (Game.shake_decay ?x) =>
      destruct (shake_decay_keeps x) as (Eh & _ & Es) end.
    unfold health_inv. rewrite Eh, Es. clear Eh Es.
    match goal with |- context [Game.win_lose ?x] =>
      destruct (win_lose_keeps x) as (Eh & _ & Es); set (gx := x) in * end.
    rewrite Eh, Es. clear Eh Es.
    pose proof (passes_step dt inp (Game.hero_phase dt inp g)) as (Hf & _ & _).
    fold gx in Hf.
    assert (Hhero : (Hero.hp (Game.hero g) - 1
                     <= hero_floor (Game.hero (Game.hero_phase dt inp g)))%Z).
    { unfold Game.hero_phase. cbn [Game.hero Game.set_hero].
      destruct (Hero_update_keeps dt (keys inp) (Game.hero g)) as (E & _ & _).
      rewrite <- E. apply hp_le_floor. }
    pose proof (floor_le_hp (Game.hero gx)) as Hle.
    assert (Hnn : (0 <= Hero.hp (Game.hero gx))%Z) by lia.
    split; [exact Hnn|].
    unfold Hero.alive.
    destruct (0 <? Hero.hp (Game.hero gx))%Z eqn:Ea; cbn [negb].
    - apply Z.ltb_lt in Ea. intros _. lia.
    - intros [E | E]; discriminate. }
  unfold Game.update.
  destruct (Game.state g) eqn:Est; try exact Hg;
    apply Hgo; apply (proj2 Hg); rewrite Est; auto.
Qed.

Lemma draw_health (g : Game.t) : health_inv g -> health_inv (Game.draw g).
Proof.
  unfold health_inv. destruct (draw_keeps g) as (Es & Eh & _).
  now rewrite Es, Eh.
Qed.

Lemma frame_health (evs : list Event) (inp : Input) (dt : Q) (g g' : Game.t) :
  health_inv g -> Game.frame evs inp dt g = Some g' -> health_inv g'.
Proof.
  intros Hg. unfold Game.frame.
  destruct (Game.handle_events evs g) as [g1|] eqn:Hev; [|discriminate].
  pose proof (handle_events_health evs g g1 Hg Hev) as H1.
  destruct (State_eqb (Game.state g1) paused); intro E; inversion E; subst.
  - now apply draw_health.
  - now apply draw_health, update_health.
Qed.

Lemma init_health (r : Rng) : health_inv (Game.init r).
Proof.
  apply new_hero_health.
  unfold Game.init, rand_between, uniform, random. reflexivity.
Qed.

Lemma reachable_health (g : Game.t) : reachable g -> health_inv g.
Proof.
  induction 1 as [r | g g' evs inp dt _ IH Hf].
  - apply init_health.
  - eapply frame_health; eassumption.
Qed.

(** C2. Over every session (any sequence of frames, with any events,
    input, frame times and random draws) the hero's health is never
    negative; and while the invulnerability timer is strictly positive a
    damage attempt is blocked: [hurt] returns false and leaves the hero as
    it is, so that the contact of a hostile surge or of a glitch leaves the
    hero unchanged; a hit that lands starts the timer. *)
Theorem hero_health_never_negative :
  (forall g : Game.t, reachable g -> (0 <= Hero.hp (Game.hero g))%Z) /\
  (forall h : Hero.t, 0 < Hero.ifr h -> Hero.hurt h = (false, h)) /\
  (forall (s : Surge.t) (g : Game.t),
      Game.is_friend (Surge.owner s) = false ->
      0 < Hero.ifr (Game.hero g) ->
      Game.hero (snd (Game.hit_surge s g)) = Game.hero g) /\
  (forall (g : Game.t) (ga : Vec * Q),
      0 < Hero.ifr (Game.hero g) -> Game.glitch_hit g ga = g) /\
  (forall h h' : Hero.t,
      Hero.hurt h = (true, h') ->
      Hero.ifr h <= 0 /\ Hero.ifr h' = HERO_IFRAMES /\ 0 < Hero.ifr h').
Proof.
  assert (Hblock : forall h : Hero.t,
             0 < Hero.ifr h -> Hero.hurt h = (false, h)).
  { intros h Hi. unfold Hero.hurt. apply Qltb_true in Hi. now rewrite Hi. }
  split; [|split; [|split; [|split]]].
  - intros g Hg. exact (proj1 (reachable_health g Hg)).
  - exact Hblock.
  - intros s g Hs Hi. unfold Game.hit_surge. rewrite Hs.
    destruct (within _ _ _); [|reflexivity].
    rewrite (Hblock _ Hi). reflexivity.
  - intros g ga Hi. unfold Game.glitch_hit.
    destruct (within _ _ _); [|reflexivity].
    rewrite (Hblock _ Hi). now destruct g.
  - intros h h'. unfold Hero.hurt.
    destruct (Qltb 0 (Hero.ifr h)) eqn:E; intro Eq; inversion Eq.
    apply Qltb_false in E. cbn. split; [exact E|]. split; [reflexivity|].
    unfold HERO_IFRAMES. lra.
Qed.

(** The session of [struck]: it is one of the loop, the hit of the second
    frame takes one point and starts the invulnerability, and in the third
    frame the hero, still in contact with the hazard, loses nothing. *)
Lemma struck_session :
  reachable chase /\ reachable struck /\ reachable lingering /\
  Hero.hp (Game.hero chase) = 5%Z /\ Hero.ifr (Game.hero chase) == 0 /\
  Hero.hp (Game.hero struck) = 4%Z /\
  Hero.ifr (Game.hero struck) == HERO_IFRAMES /\
  Game.state struck = play /\
  Game.glitches struck = [hazard_under_hero] /\
  within (Hero.pos (Game.hero struck)) (fst hazard_under_hero)
         (inject_Z (Hero.r (Game.hero struck) + 7)) = true /\
  within (Hero.pos (Game.hero struck)) (Surge.pos heavy_on_struck)
         (inject_Z (Hero.r (Game.hero struck) + Surge.r heavy_on_struck)) = true /\
  existsb (fun ga => within (Hero.pos (Game.hero struck)) (fst ga)
                       (inject_Z (Hero.r (Game.hero struck) + 7)))
          (Game.glitches lingering) = true /\
  Hero.hp (Game.hero lingering) = 4%Z /\
  0 < Hero.ifr (Game.hero lingering).
Proof.
  assert (R1 : reachable chase).
  { apply (reach_frame opening _ [KEYDOWN K_SPACE] down_held (1 # 4));
      [apply reach_init | vm_compute; reflexivity]. }
  assert (R2 : reachable struck).
  { apply (reach_frame chase _ [] idle (3 # 20));
      [exact R1 | vm_compute; reflexivity]. }
  assert (R3 : reachable lingering).
  { apply (reach_frame struck _ [] idle (1 # 10));
      [exact R2 | vm_compute; reflexivity]. }
  split; [exact R1|]. split; [exact R2|]. split; [exact R3|].
  vm_compute. repeat split.
Qed.

(** The theorem along that session: the health after the hit is not
    negative; with the timer running, [hurt] on the hero of [struck], a
    hostile surge of damage 2 on top of it, and the hazard it stands on
    all leave it as it is; and the hit itself, on the hero of the frame
    before, landed with the timer at 0 and set it to HERO_IFRAMES. *)
Lemma hero_health_never_negative_witness :
  (0 <= Hero.hp (Game.hero struck))%Z /\
  (0 <= Hero.hp (Game.hero lingering))%Z /\
  Hero.hurt (Game.hero struck) = (false, Game.hero struck) /\
  Game.hero (snd (Game.hit_surge heavy_on_struck struck)) = Game.hero struck /\
  Game.glitch_hit struck hazard_under_hero = struck /\
  (Hero.ifr (Game.hero chase) <= 0 /\
   Hero.ifr (snd (Hero.hurt (Game.hero chase))) = HERO_IFRAMES /\
   0 < Hero.ifr (snd (Hero.hurt (Game.hero chase)))).
Proof.
  destruct hero_health_never_negative as (Hreach & Hblock & Hsurge & Hglitch & Hland).
  destruct struck_session as (_ & R2 & R3 & _).
  assert (Hifr : 0 < Hero.ifr (Game.hero struck)) by (vm_compute; reflexivity).
  split; [exact (Hreach struck R2)|].
  split; [exact (Hreach lingering R3)|].
  split; [exact (Hblock (Game.hero struck) Hifr)|].
  split; [exact (Hsurge heavy_on_struck struck eq_refl Hifr)|].
  split; [exact (Hglitch struck hazard_under_hero Hifr)|].
  apply (Hland (Game.hero chase) (snd (Hero.hurt (Game.hero chase)))).
  vm_compute. reflexivity.
Defined.

(** * Further properties of the code *)

(** ** Geometry helpers *)

(** [cardinal_from] gives a unit vector along an axis and fixes such
    vectors. *)
Lemma cardinal_from_spec :
  (forall v : Vec, is_cardinal (cardinal_from v)) /\
  (forall v : Vec, is_cardinal v -> cardinal_from v = v).
Proof.
  assert (H1 : forall v : Vec, is_cardinal (cardinal_from v)).
  { intro v. unfold cardinal_from, is_cardinal, RIGHT, LEFT, DOWN, UP.
    destruct (Qeq_bool (length_squared v) 0); [now left|].
    destruct (Qle_bool (Qabs (vy v)) (Qabs (vx v))).
    - destruct (Qle_bool 0 (vx v)); [now left | right; now left].
    - destruct (Qle_bool 0 (vy v)); [right; right; now left | now repeat right]. }
  split; [exact H1|].
  intros v [E | [E | [E | E]]]; subst v; reflexivity.
Qed.

(** X1. [cardinal_from] always gives one of the four axis unit vectors,
    and on such a vector it is the identity (so applying it twice is the
    same as once). *)
Theorem cardinal_from_is_cardinal :
  (forall v : Vec, is_cardinal (cardinal_from v)) /\
  (forall v : Vec, is_cardinal v -> cardinal_from v = v) /\
  (forall v : Vec, cardinal_from (cardinal_from v) = cardinal_from v).
Proof.
  destruct cardinal_from_spec as [H1 H2].
  split; [exact H1|]. split; [exact H2|].
  intro v. apply H2, H1.
Qed.

(** The theorem on a diagonal vector: the tie goes to the horizontal axis. *)
Lemma cardinal_from_is_cardinal_witness :
  cardinal_from (mkVec (-3) 3) = LEFT /\ cardinal_from LEFT = LEFT.
Proof.
  split; [reflexivity|].
  apply (proj1 (proj2 cardinal_from_is_cardinal)).
  right. now left.
Defined.

Lemma Qltb_cases (a b : Q) : (Qltb a b = true /\ a < b) \/ (Qltb a b = false /\ b <= a).
Proof.
  destruct (Qltb a b) eqn:E.
  - left. split; [reflexivity|]. now apply Qltb_true.
  - right. split; [reflexivity|]. now apply Qltb_false.
Qed.

Lemma clamp_spec (v a b : Q) :
  a <= b ->
  a <= clamp v a b /\ clamp v a b <= b /\
  (a <= v -> v <= b -> clamp v a b = v).
Proof.
  intro Hab. unfold clamp.
  destruct (Qltb_cases v a) as [[E1 L1] | [E1 L1]]; rewrite E1.
  - split; [lra|]. split; [lra|]. intros. exfalso. lra.
  - destruct (Qltb_cases b v) as [[E2 L2] | [E2 L2]]; rewrite E2.
    + split; [lra|]. split; [lra|]. intros. exfalso. lra.
    + split; [lra|]. split; [lra|]. reflexivity.
Qed.

(** X2. [clamp(v, a, b)] with [a <= b] lies in [a, b], and is [v] itself
    when [v] already does. *)
Theorem clamp_in_range (v a b : Q) :
  a <= b ->
  a <= clamp v a b /\ clamp v a b <= b /\
  (a <= v -> v <= b -> clamp v a b = v).
Proof. apply clamp_spec. Qed.

Lemma clamp_in_range_witness :
  12 <= clamp (-5) 12 (W - 12) /\ clamp (-5) 12 (W - 12) <= W - 12.
Proof.
  destruct (clamp_in_range (-5) 12 (W - 12)) as (A & B & _).
  - unfold W. lra.
  - split; assumption.
Defined.

(** [round] is within one half of its argument. *)
Lemma py_round_near (q : Q) :
  Qabs (q - inject_Z (py_round q)) <= 1 # 2.
Proof.
  unfold py_round.
  pose proof (Qfloor_le q) as Hlo.
  pose proof (Qlt_floor q) as Hhi.
  rewrite inject_Z_plus in Hhi. change (inject_Z 1) with 1 in Hhi.
  apply Qabs_Qle_condition.
  destruct (Qcompare (q - inject_Z (Qfloor q)) (1 # 2)) eqn:E.
  - apply Qeq_alt in E.
    destruct (Z.even (Qfloor q)); rewrite ?inject_Z_plus;
      change (inject_Z 1) with 1; split; lra.
  - apply Qlt_alt in E. split; lra.
  - apply Qgt_alt in E. rewrite inject_Z_plus. change (inject_Z 1) with 1.
    split; lra.
Qed.

(** [round] of a whole number is that number. *)
Lemma py_round_integer (q : Q) (k : Z) : q == inject_Z k -> py_round q = k.
Proof.
  intro E. unfold py_round.
  assert (Ef : Qfloor q = k) by (rewrite E; apply Qfloor_Z).
  rewrite Ef.
  destruct (Qcompare (q - inject_Z k) (1 # 2)) eqn:C.
  - apply Qeq_alt in C. exfalso. lra.
  - reflexivity.
  - apply Qgt_alt in C. exfalso. lra.
Qed.

(** A coordinate on a grid line passes the intersection test. *)
Lemma near_grid_on_line (k : Z) : near_grid (inject_Z k * GRID) = true.
Proof.
  unfold near_grid.
  rewrite (py_round_integer (inject_Z k * GRID / GRID) k)
    by (unfold GRID; field).
  apply Qle_bool_iff. apply Qabs_Qle_condition. unfold JUNC_TOL. split; lra.
Qed.

Lemma snap_axis_spec (p d : Vec) :
  is_cardinal d ->
  (vy d = 0 ->
   vx (snap_axis p d) = vx p /\
   vy (snap_axis p d) = inject_Z (py_round (vy p / GRID)) * GRID /\
   Qabs (vy (snap_axis p d) - vy p) <= 24 /\
   near_grid (vy (snap_axis p d)) = true) /\
  (vx d = 0 ->
   vy (snap_axis p d) = vy p /\
   vx (snap_axis p d) = inject_Z (py_round (vx p / GRID)) * GRID /\
   Qabs (vx (snap_axis p d) - vx p) <= 24 /\
   near_grid (vx (snap_axis p d)) = true) /\
  snap_axis (snap_axis p d) d = snap_axis p d.
Proof.
  assert (Hnear : forall q, Qabs (inject_Z (py_round (q / GRID)) * GRID - q) <= 24).
  { intro q. pose proof (py_round_near (q / GRID)) as Hr.
    apply Qabs_Qle_condition in Hr. destruct Hr as [Hr1 Hr2].
    assert (Eq : q == q / GRID * GRID) by (unfold GRID; field).
    apply Qabs_Qle_condition. unfold GRID in *. split; lra. }
  assert (Hfix : forall q,
             py_round (inject_Z (py_round (q / GRID)) * GRID / GRID)
             = py_round (q / GRID)).
  { intro q. apply py_round_integer. unfold GRID. field. }
  intros [E | [E | [E | E]]]; subst d;
    unfold snap_axis, RIGHT, LEFT, DOWN, UP; cbn [vx vy];
    (change (Qltb 0 (Qabs 1)) with true
     || change (Qltb 0 (Qabs (-1))) with true);
    change (Qltb 0 (Qabs 0)) with false; cbv iota; cbn [vx vy];
    (split; [|split]);
    try (intro E0; exfalso; revert E0; discriminate);
    try (intros _; repeat split;
         [apply Hnear | apply near_grid_on_line]);
    rewrite Hfix; reflexivity.
Qed.

(** X3. [snap_axis] for a mover along x leaves x alone and puts y on the
    nearest grid line, at most half a grid step (24) away; for a mover
    along y the same with the axes exchanged. The snapped coordinate
    passes [near_grid], and snapping again changes nothing. *)
Theorem snap_axis_locks_to_wire (p d : Vec) :
  is_cardinal d ->
  (vy d = 0 ->
   vx (snap_axis p d) = vx p /\
   vy (snap_axis p d) = inject_Z (py_round (vy p / GRID)) * GRID /\
   Qabs (vy (snap_axis p d) - vy p) <= 24 /\
   near_grid (vy (snap_axis p d)) = true) /\
  (vx d = 0 ->
   vy (snap_axis p d) = vy p /\
   vx (snap_axis p d) = inject_Z (py_round (vx p / GRID)) * GRID /\
   Qabs (vx (snap_axis p d) - vx p) <= 24 /\
   near_grid (vx (snap_axis p d)) = true) /\
  snap_axis (snap_axis p d) d = snap_axis p d.
Proof. apply snap_axis_spec. Qed.

(** The theorem at a point off the grid, moving right: y goes from 100 to
    the line at 96. *)
Lemma snap_axis_locks_to_wire_witness :
  vx (snap_axis (mkVec 100 100) RIGHT) = 100 /\
  Qabs (vy (snap_axis (mkVec 100 100) RIGHT) - 100) <= 24.
Proof.
  destruct (snap_axis_locks_to_wire (mkVec 100 100) RIGHT) as (Hh & _ & _).
  - now left.
  - destruct Hh as (A & _ & B & _); [reflexivity|].
    split; [exact A | exact B].
Defined.

(** ** Surges *)

Lemma trail_append_length (tr : list Vec) (p : Vec) :
  (length tr <= 12)%nat ->
  (length (Surge.trail_append tr p) <= 12)%nat /\
  last (Surge.trail_append tr p) p = p.
Proof.
  intro Hl. unfold Surge.trail_append.
  rewrite length_skipn, length_app. cbn [length]. split; [lia|].
  destruct (Nat.le_gt_cases (length tr) 11) as [Hs | Hs].
  - replace (length tr + 1 - 12)%nat with 0%nat by lia.
    cbn [skipn]. apply last_last.
  - assert (length tr = 12%nat) by lia.
    destruct tr as [|a tr]; [discriminate|].
    replace (length (a :: tr) + 1 - 12)%nat with 1%nat by (cbn [length] in *; lia).
    cbn [app skipn].
    destruct tr as [|b tr]; [discriminate|]. apply (last_last (b :: tr)).
Qed.

(** X4. [Surge.update] on a surge that travels along an axis: owner,
    direction, speed, radius, damage and pierce flag stay, the lifetime
    drops by [dt], the trail keeps at most 12 points and ends with the
    position before the move, and the surge is on a wire afterwards (the
    coordinate across its direction passes [near_grid]). A surge reported
    alive has lifetime left and lies within 20 of the window. *)
Theorem surge_update_stays_on_wire (dt : Q) (s : Surge.t) :
  is_cardinal (Surge.dir s) ->
  (length (Surge.trail s) <= 12)%nat ->
  let s' := snd (Surge.update dt s) in
  Surge.owner s' = Surge.owner s /\ Surge.dir s' = Surge.dir s /\
  Surge.speed s' = Surge.speed s /\ Surge.r s' = Surge.r s /\
  Surge.dmg s' = Surge.dmg s /\ Surge.pierce s' = Surge.pierce s /\
  Surge.ttl s' = Surge.ttl s - dt /\
  (length (Surge.trail s') <= 12)%nat /\
  last (Surge.trail s') (Surge.pos s) = Surge.pos s /\
  (vy (Surge.dir s) = 0 -> near_grid (vy (Surge.pos s')) = true) /\
  (vx (Surge.dir s) = 0 -> near_grid (vx (Surge.pos s')) = true) /\
  (fst (Surge.update dt s) = true ->
   0 < Surge.ttl s' /\
   -20 < vx (Surge.pos s') /\ vx (Surge.pos s') < W + 20 /\
   -20 < vy (Surge.pos s') /\ vy (Surge.pos s') < H + 20).
Proof.
  intros Hd Hl s'. subst s'. unfold Surge.update.
  cbn [fst snd Surge.owner Surge.dir Surge.speed Surge.r Surge.dmg
       Surge.pierce Surge.ttl Surge.trail Surge.pos Surge.set_trail
       Surge.set_ttl Surge.set_pos].
  destruct (trail_append_length (Surge.trail s) (Surge.pos s) Hl) as [T1 T2].
  set (p1 := vadd (Surge.pos s) _).
  destruct (snap_axis_spec p1 (Surge.dir s) Hd) as (Sh & Sv & _).
  repeat (split; [first [reflexivity | assumption]|]).
  split; [intro E; now apply Sh|].
  split; [intro E; now apply Sv|].
  intro Halive.
  apply andb_true_iff in Halive. destruct Halive as [Ha Hy].
  apply andb_true_iff in Ha. destruct Ha as [Ht Hx].
  apply andb_true_iff in Hx. destruct Hx as [Hx1 Hx2].
  apply andb_true_iff in Hy. destruct Hy as [Hy1 Hy2].
  apply Qltb_true in Ht, Hx1, Hx2, Hy1, Hy2.
  repeat split; assumption.
Qed.

(** The theorem at a fresh player shot. *)
Lemma surge_update_stays_on_wire_witness :
  near_grid (vy (Surge.pos (snd (Surge.update (1 # 60) shot_P)))) = true /\
  Surge.ttl (snd (Surge.update (1 # 60) shot_P)) = SURGE_LEN - (1 # 60).
Proof.
  destruct (surge_update_stays_on_wire (1 # 60) shot_P)
    as (_ & _ & _ & _ & _ & _ & Et & _ & _ & Hh & _).
  - now left.
  - cbn. lia.
  - split; [apply Hh; reflexivity | exact Et].
Defined.

(** A surge as [Surge.__init__] builds it travels along an axis. *)
Lemma Surge_new_cardinal (p dirv : Vec) (sp : Q) (o : Owner) (rad : Z)
    (life : Q) (d : Z) (prc : bool) :
  is_cardinal (Surge.dir (Surge.new p dirv sp o rad life d prc)) /\
  Surge.trail (Surge.new p dirv sp o rad life d prc) = [].
Proof.
  split; [|reflexivity]. apply (proj1 cardinal_from_spec).
Qed.

(** ** The hero *)

(** X5. [Hero.update] leaves the hero inside the playfield margin
    ([12, W-12] by [12, H-12]) whatever the keys, the frame time and the
    position before; health and meter stay; for a frame time that
    is not negative, timers that are not negative stay so and do not
    grow. *)
Theorem hero_update_stays_in_field (dt : Q) (ks : Key -> bool) (h : Hero.t) :
  in_field (Hero.pos (Hero.update dt ks h)) /\
  Hero.hp (Hero.update dt ks h) = Hero.hp h /\
  Hero.oc_meter (Hero.update dt ks h) = Hero.oc_meter h /\
  (0 <= dt -> 0 <= Hero.ifr h ->
   0 <= Hero.ifr (Hero.update dt ks h) /\
   Hero.ifr (Hero.update dt ks h) <= Hero.ifr h) /\
  (0 <= dt -> 0 <= Hero.cd h ->
   0 <= Hero.cd (Hero.update dt ks h) /\
   Hero.cd (Hero.update dt ks h) <= Hero.cd h).
Proof.
  destruct (Hero_update_keeps dt ks h) as (Ehp & Eoc & _).
  split; [|split; [exact Ehp | split; [exact Eoc|]]].
  - unfold Hero.update.
    set (h1 := if Qltb 0 (length_squared _) then _ else h).
    clearbody h1.
    set (px := clamp (vx (Hero.pos h1)) 12 (W - 12)).
    set (py := clamp (vy (Hero.pos h1)) 12 (H - 12)).
    assert (Hin : in_field (mkVec px py)).
    { unfold in_field, px, py. cbn [vx vy].
      destruct (clamp_spec (vx (Hero.pos h1)) 12 (W - 12)) as (A & B & _);
        [unfold W; lra|].
      destruct (clamp_spec (vy (Hero.pos h1)) 12 (H - 12)) as (C & D & _);
        [unfold H; lra|].
      repeat split; assumption. }
    cbn [Hero.ifr Hero.cd Hero.set_pos].
    destruct (Qltb 0 (Hero.ifr h1));
      cbn [Hero.cd Hero.set_ifr Hero.set_pos];
      destruct (Qltb 0 (Hero.cd h1)); exact Hin.
  - unfold Hero.update.
    set (m := normalize_move _).
    set (c1 := Qltb 0 (length_squared _)).
    assert (Hpymax : forall t, 0 <= dt -> 0 <= t ->
              0 <= pymax 0 (t - dt) /\ pymax 0 (t - dt) <= t).
    { intros t Hdt Ht. unfold pymax.
      destruct (Qltb_cases 0 (t - dt)) as [[E L] | [E L]]; rewrite E;
        split; lra. }
    destruct c1; cbn [Hero.pos Hero.set_pos Hero.set_face Hero.ifr Hero.cd];
      destruct (Qltb_cases 0 (Hero.ifr h)) as [[Ei Li] | [Ei Li]]; rewrite Ei;
      cbn [Hero.cd Hero.ifr Hero.set_ifr Hero.set_pos Hero.set_face];
      destruct (Qltb_cases 0 (Hero.cd h)) as [[Ec Lc] | [Ec Lc]]; rewrite Ec;
      cbn [Hero.cd Hero.ifr Hero.set_cd Hero.set_ifr Hero.set_pos Hero.set_face];
      (split; intros Hdt Hn;
       [ try (apply Hpymax; assumption); split; lra
       | try (apply Hpymax; assumption); split; lra ]).
Qed.

(** The theorem at a new hero with no key held: the fire cooldown is
    still not negative after a frame. *)
Lemma hero_update_stays_in_field_witness :
  0 <= Hero.cd (Hero.update (1 # 60) (keys idle) (Hero.new CENTER)).
Proof.
  destruct (hero_update_stays_in_field (1 # 60) (keys idle) (Hero.new CENTER))
    as (_ & _ & _ & _ & Hcd).
  destruct Hcd as [Hc _].
  - lra.
  - unfold Hero.new. cbn [Hero.cd]. lra.
  - exact Hc.
Defined.

(** ** Enemies *)

Lemma uniform_10_bound (r : Rng) :
  unit_draws r -> Qabs (fst (uniform (-10) 10 r)) <= 10.
Proof.
  intro Hr. unfold uniform, random. cbn [fst].
  destruct (Hr 0%nat) as [Hlo Hhi].
  apply Qabs_Qle_condition. split; lra.
Qed.

Lemma unit_draws_skip (k : nat) (r : Rng) :
  unit_draws r -> unit_draws (skip k r).
Proof. intros Hr n. apply Hr. Qed.

Lemma new_Virus_draws (p : Vec) (tier : Z) (r : Rng) :
  unit_draws r -> unit_draws (snd (Enemy.new_Virus p tier r)).
Proof. intros Hr n. apply Hr. Qed.

(** Radius and health of a new Virus by tier. *)
Lemma new_Virus_stats (p : Vec) (tier : Z) (r : Rng) :
  let v := fst (Enemy.new_Virus p tier r) in
  Enemy.rep_cd v = 0 /\
  (tier = 2%Z -> Enemy.r v = 22%Z /\ Enemy.hp v = 3%Z) /\
  (tier = 1%Z -> Enemy.r v = 16%Z /\ Enemy.hp v = 2%Z) /\
  (tier <> 2%Z -> tier <> 1%Z -> Enemy.r v = 12%Z /\ Enemy.hp v = 1%Z).
Proof.
  cbn zeta. unfold Enemy.new_Virus, Enemy.init, choice, rand_between, uniform, random.
  cbn [fst snd Enemy.rep_cd Enemy.r Enemy.hp Enemy.set_shoot_t Enemy.set_turn_bias].
  split; [reflexivity|]. split; [|split].
  - intro E. subst. split; reflexivity.
  - intro E. subst. split; reflexivity.
  - intros N2 N1. apply Z.eqb_neq in N2, N1. rewrite N2, N1. split; reflexivity.
Qed.

(** X6. [Virus.on_death]: a Virus of tier 0 or below leaves no children
    and takes no draw; a Virus of a positive tier leaves exactly two
    Viruses of the tier below, off cooldown, each within 10 of the parent
    on both axes (for draws in [0,1)); an enemy that is no Virus leaves
    none. *)
Theorem virus_death_children (e : Enemy.t) (r : Rng) :
  (forall tier, Enemy.kind e = Virus tier -> (tier <= 0)%Z ->
     Enemy.on_death e r = ([], r)) /\
  (forall tier, Enemy.kind e = Virus tier -> (0 < tier)%Z ->
     exists c1 c2,
       fst (Enemy.on_death e r) = [c1; c2] /\
       Enemy.kind c1 = Virus (tier - 1) /\ Enemy.kind c2 = Virus (tier - 1) /\
       Enemy.rep_cd c1 = 0 /\ Enemy.rep_cd c2 = 0 /\
       (unit_draws r ->
        Qabs (vx (Enemy.pos c1) - vx (Enemy.pos e)) <= 10 /\
        Qabs (vy (Enemy.pos c1) - vy (Enemy.pos e)) <= 10 /\
        Qabs (vx (Enemy.pos c2) - vx (Enemy.pos e)) <= 10 /\
        Qabs (vy (Enemy.pos c2) - vy (Enemy.pos e)) <= 10)) /\
  (Enemy.is_Virus e = false -> Enemy.on_death e r = ([], r)).
Proof.
  split; [|split].
  - intros tier K Ht. unfold Enemy.on_death. rewrite K.
    destruct (0 <? tier)%Z eqn:E; [apply Z.ltb_lt in E; lia | reflexivity].
  - intros tier K Ht. unfold Enemy.on_death. rewrite K.
    apply Z.ltb_lt in Ht. rewrite Ht.
    set (r1 := snd (uniform (-10) 10 r)).
    set (j1 := mkVec (fst (uniform (-10) 10 r)) (fst (uniform (-10) 10 r1))).
    set (ra := snd (Enemy.new_Virus (vadd (Enemy.pos e) j1) (tier - 1)
                      (snd (uniform (-10) 10 r1)))).
    set (rb := snd (uniform (-10) 10 ra)).
    set (j2 := mkVec (fst (uniform (-10) 10 ra)) (fst (uniform (-10) 10 rb))).
    exists (fst (Enemy.new_Virus (vadd (Enemy.pos e) j1) (tier - 1)
                   (snd (uniform (-10) 10 r1)))),
           (fst (Enemy.new_Virus (vadd (Enemy.pos e) j2) (tier - 1)
                   (snd (uniform (-10) 10 rb)))).
    split; [reflexivity|].
    split; [reflexivity|]. split; [reflexivity|].
    split; [reflexivity|]. split; [reflexivity|].
    intro Hr.
    assert (Hr1 : unit_draws r1) by (intro n; apply Hr).
    assert (Hra : unit_draws ra) by (intro n; apply Hr).
    assert (Hrb : unit_draws rb) by (intro n; apply Hr).
    pose proof (uniform_10_bound r Hr) as B1.
    pose proof (uniform_10_bound r1 Hr1) as B2.
    pose proof (uniform_10_bound ra Hra) as B3.
    pose proof (uniform_10_bound rb Hrb) as B4.
    rewrite !(proj2 (new_Virus_fields _ _ _)).
    unfold vadd, j1, j2. cbn [vx vy].
    apply Qabs_Qle_condition in B1, B2, B3, B4.
    repeat split; apply Qabs_Qle_condition; split; lra.
  - intro Hv. unfold Enemy.on_death. unfold Enemy.is_Virus in Hv.
    destruct (Enemy.kind e); [discriminate | reflexivity | reflexivity].
Qed.

(** The theorem at a Virus of tier 2. *)
Lemma virus_death_children_witness :
  map Enemy.kind (fst (Enemy.on_death (virus_at 96 2) rng_half))
  = [Virus 1; Virus 1].
Proof.
  destruct (virus_death_children (virus_at 96 2) rng_half) as (_ & Hpos & _).
  destruct (Hpos 2%Z) as (c1 & c2 & E & K1 & K2 & _).
  - reflexivity.
  - lia.
  - rewrite E. cbn [map]. now rewrite K1, K2.
Defined.

Lemma choice_in {A : Type} (d : A) (l : list A) (r : Rng) :
  In (fst (choice d l r)) (d :: l).
Proof.
  unfold choice, random. cbn [fst].
  set (k := Z.to_nat _).
  destruct (Nat.lt_ge_cases k (length l)) as [Hk | Hk].
  - right. now apply nth_In.
  - left. symmetry. now apply nth_overflow.
Qed.

Ltac solve_cardinal :=
  unfold is_cardinal;
  first [ left; reflexivity
        | right; left; reflexivity
        | right; right; left; reflexivity
        | right; right; right; reflexivity ].

Ltac step_move :=
  repeat (cbv beta iota zeta;
          match goal with
          | |- context [choice ?d ?l ?r] =>
              let Hc := fresh "Hc" in
              pose proof (choice_in d l r) as Hc;
              destruct (choice d l r); cbn [fst] in Hc
          | |- context [if ?c then _ else _] => destruct c
          end).

Lemma common_move_spec (dt sp : Q) (e : Enemy.t) (r : Rng) :
  is_cardinal (Enemy.dir e) ->
  let e' := fst (Enemy.common_move dt sp e r) in
  is_cardinal (Enemy.dir e') /\
  Enemy.kind e' = Enemy.kind e /\ Enemy.r e' = Enemy.r e /\
  Enemy.hp e' = Enemy.hp e /\ Enemy.turn_bias e' = Enemy.turn_bias e /\
  Enemy.shoot_t e' = Enemy.shoot_t e /\
  Enemy.rep_cd e' =
    (if Qltb 0 (Enemy.rep_cd e) then pymax 0 (Enemy.rep_cd e - dt)
     else Enemy.rep_cd e) /\
  (0 <= dt -> 0 <= Enemy.rep_cd e ->
   0 <= Enemy.rep_cd e' /\ Enemy.rep_cd e' <= Enemy.rep_cd e).
Proof.
  intros Hd e'. subst e'.
  assert (Hcd : Enemy.rep_cd (fst (Enemy.common_move dt sp e r)) =
                (if Qltb 0 (Enemy.rep_cd e) then pymax 0 (Enemy.rep_cd e - dt)
                 else Enemy.rep_cd e)).
  { unfold Enemy.common_move. unfold random.
    set (c := if Qltb 0 (Enemy.rep_cd e) then _ else _). clearbody c.
    step_move; reflexivity. }
  split; [|split; [|split; [|split; [|split; [|split; [|split]]]]]].
  - unfold Enemy.common_move. unfold random.
    set (c := if Qltb 0 (Enemy.rep_cd e) then _ else _). clearbody c.
    set (p0 := snap_axis (Enemy.pos e) (Enemy.dir e)). clearbody p0.
    destruct Hd as [E | [E | [E | E]]]; rewrite E; clear E;
      step_move;
      cbn [fst Enemy.dir Enemy.set_rep_cd Enemy.set_dir Enemy.set_pos];
      repeat (match goal with
              | Hin : In _ _ |- _ =>
                  simpl in Hin; decompose [or] Hin;
                  try contradiction; subst
              end);
      solve_cardinal.
  - unfold Enemy.common_move. unfold random.
    set (c := if Qltb 0 (Enemy.rep_cd e) then _ else _). clearbody c.
    step_move; reflexivity.
  - unfold Enemy.common_move. unfold random.
    set (c := if Qltb 0 (Enemy.rep_cd e) then _ else _). clearbody c.
    step_move; reflexivity.
  - unfold Enemy.common_move. unfold random.
    set (c := if Qltb 0 (Enemy.rep_cd e) then _ else _). clearbody c.
    step_move; reflexivity.
  - unfold Enemy.common_move. unfold random.
    set (c := if Qltb 0 (Enemy.rep_cd e) then _ else _). clearbody c.
    step_move; reflexivity.
  - unfold Enemy.common_move. unfold random.
    set (c := if Qltb 0 (Enemy.rep_cd e) then _ else _). clearbody c.
    step_move; reflexivity.
  - exact Hcd.
  - intros Hdt Hn. rewrite Hcd. unfold pymax.
    destruct (Qltb_cases 0 (Enemy.rep_cd e)) as [[E1 L1] | [E1 L1]]; rewrite E1.
    + destruct (Qltb_cases 0 (Enemy.rep_cd e - dt)) as [[E2 L2] | [E2 L2]];
        rewrite E2; split; lra.
    + split; lra.
Qed.

(** X7. [Enemy.common_move] keeps an enemy on the axes: a direction that
    is one of the four unit vectors stays one (a bounce flips it, a turn
    picks one across). Class, radius, health, turning bias and fire timer
    are not touched. The mitosis cooldown runs down by [dt] and stops at
    0. *)
Theorem common_move_keeps_axis (dt sp : Q) (e : Enemy.t) (r : Rng) :
  is_cardinal (Enemy.dir e) ->
  let e' := fst (Enemy.common_move dt sp e r) in
  is_cardinal (Enemy.dir e') /\
  Enemy.kind e' = Enemy.kind e /\ Enemy.r e' = Enemy.r e /\
  Enemy.hp e' = Enemy.hp e /\ Enemy.turn_bias e' = Enemy.turn_bias e /\
  Enemy.shoot_t e' = Enemy.shoot_t e /\
  Enemy.rep_cd e' =
    (if Qltb 0 (Enemy.rep_cd e) then pymax 0 (Enemy.rep_cd e - dt)
     else Enemy.rep_cd e) /\
  (0 <= dt -> 0 <= Enemy.rep_cd e ->
   0 <= Enemy.rep_cd e' /\ Enemy.rep_cd e' <= Enemy.rep_cd e).
Proof. apply common_move_spec. Qed.

(** The theorem at a new Virus: after a move it still travels along an
    axis. *)
Lemma common_move_keeps_axis_witness :
  is_cardinal
    (Enemy.dir (fst (Enemy.common_move (1 # 60) VIRUS_SPEED (virus_at 96 2)
                       rng_half))).
Proof.
  apply (common_move_keeps_axis (1 # 60) VIRUS_SPEED (virus_at 96 2) rng_half).
  left. reflexivity.
Defined.

(** ** Sectors *)

Lemma random_grid_pos_crossing (r : Rng) :
  at_intersection (fst (Game.random_grid_pos r)) = true.
Proof.
  unfold Game.random_grid_pos, randint, random, at_intersection.
  cbn [fst vx vy]. now rewrite !near_grid_on_line.
Qed.

(** [spawn_many] appends [n] enemies, each where [random_grid_pos] put
    it. *)
Lemma spawn_many_enemies (new : Vec -> Rng -> Enemy.t * Rng) (n : nat)
    (g : Game.t) :
  (forall p r, Enemy.pos (fst (new p r)) = p) ->
  (forall p r, Enemy.rep_cd (fst (new p r)) = 0) ->
  exists added,
    Game.enemies (Game.spawn_many new n g) = Game.enemies g ++ added /\
    length added = n /\
    Forall (fun e => at_intersection (Enemy.pos e) = true /\
                     Enemy.rep_cd e = 0 /\
                     exists p r, e = fst (new p r)) added.
Proof.
  intros Hpos Hcd. revert g. induction n as [|k IH]; intro g.
  - exists []. cbn [Game.spawn_many]. rewrite app_nil_r. repeat split. constructor.
  - cbn [Game.spawn_many].
    pose proof (random_grid_pos_crossing (Game.rng g)) as Hx.
    destruct (Game.random_grid_pos (Game.rng g)) as [p r1]. cbn [fst] in Hx.
    pose proof (Hpos p r1) as Hp. pose proof (Hcd p r1) as Hc.
    assert (Hn : exists p' r', fst (new p r1) = fst (new p' r'))
      by (exists p, r1; reflexivity).
    destruct (new p r1) as [e r2]. cbn [fst] in Hp, Hc, Hn.
    destruct (IH (Game.set_rng r2 (Game.set_enemies (Game.enemies g ++ [e]) g)))
      as (added & E & L & F).
    exists (e :: added). rewrite E.
    cbn [Game.enemies Game.set_rng Game.set_enemies].
    rewrite <- app_assoc. cbn [app length]. repeat split; [lia|].
    constructor; [|exact F]. rewrite Hp. repeat split; assumption.
Qed.

Lemma spawn_many_keeps (new : Vec -> Rng -> Enemy.t * Rng) (n : nat)
    (g : Game.t) :
  Game.score (Game.spawn_many new n g) = Game.score g /\
  Game.sector (Game.spawn_many new n g) = Game.sector g /\
  Game.highscore (Game.spawn_many new n g) = Game.highscore g.
Proof.
  revert g. induction n as [|k IH]; intro g; [repeat split|].
  cbn [Game.spawn_many].
  destruct (Game.random_grid_pos (Game.rng g)) as [p r1].
  destruct (new p r1) as [e r2].
  destruct (IH (Game.set_rng r2 (Game.set_enemies (Game.enemies g ++ [e]) g)))
    as (A & B & C).
  rewrite A, B, C. repeat split.
Qed.

Lemma build_sector_spec (v b w : Z) (g : Game.t) :
  let g' := Game.build_sector v b w g in
  (exists vs bs ws,
      Game.enemies g' = vs ++ bs ++ ws /\
      length vs = Z.to_nat v /\ length bs = Z.to_nat b /\
      length ws = Z.to_nat w /\
      Forall (fun e => Enemy.kind e = Virus 2) vs /\
      Forall (fun e => Enemy.kind e = Bug) bs /\
      Forall (fun e => exists d, Enemy.kind e = Worm d) ws) /\
  length (Game.enemies g') = (Z.to_nat v + Z.to_nat b + Z.to_nat w)%nat /\
  Forall (fun e => at_intersection (Enemy.pos e) = true /\ Enemy.rep_cd e = 0)
         (Game.enemies g') /\
  Game.surges g' = [] /\ Game.glitches g' = [] /\
  Game.hero g' = Hero.new CENTER /\
  SurgeEmitter.active (Game.emit_row g') = false /\
  SurgeEmitter.active (Game.emit_col g') = false /\
  Game.oc_blast_timer g' = 0 /\
  Game.state g' = Game.state g /\ Game.score g' = Game.score g /\
  Game.sector g' = Game.sector g /\ Game.highscore g' = Game.highscore g.
Proof.
  cbn zeta.
  set (g1 := Game.set_enemies [] g).
  set (g2 := Game.spawn_many (fun p => Enemy.new_Virus p 2) (Z.to_nat v) g1).
  set (g3 := Game.spawn_many Enemy.new_Bug (Z.to_nat b) g2).
  set (g4 := Game.spawn_many Enemy.new_Worm (Z.to_nat w) g3).
  assert (Een : Game.enemies (Game.build_sector v b w g) = Game.enemies g4)
    by reflexivity.
  destruct (spawn_many_enemies (fun p => Enemy.new_Virus p 2) (Z.to_nat v) g1)
    as (vs & E2 & L2 & F2); [reflexivity | reflexivity |].
  destruct (spawn_many_enemies Enemy.new_Bug (Z.to_nat b) g2)
    as (bs & E3 & L3 & F3); [reflexivity | reflexivity |].
  destruct (spawn_many_enemies Enemy.new_Worm (Z.to_nat w) g3)
    as (ws & E4 & L4 & F4); [reflexivity | reflexivity |].
  fold g2 in E2, E3. fold g3 in E3, E4. fold g4 in E4.
  assert (Eall : Game.enemies g4 = vs ++ bs ++ ws).
  { rewrite E4, E3, E2. unfold g1. cbn [Game.enemies Game.set_enemies app].
    now rewrite app_assoc. }
  rewrite Een, Eall.
  split; [|split; [|split]].
  - exists vs, bs, ws. repeat split; try assumption.
    + eapply Forall_impl; [|exact F2]. cbn beta.
      intros e (_ & _ & p & r & Ee). subst e. reflexivity.
    + eapply Forall_impl; [|exact F3]. cbn beta.
      intros e (_ & _ & p & r & Ee). subst e. reflexivity.
    + eapply Forall_impl; [|exact F4]. cbn beta.
      intros e (_ & _ & p & r & Ee). subst e.
      apply (proj1 (new_Worm_fields p r)).
  - rewrite !length_app. lia.
  - rewrite !Forall_app. repeat split.
    + eapply Forall_impl; [|exact F2]. cbn beta. intros e (A & B & _). now split.
    + eapply Forall_impl; [|exact F3]. cbn beta. intros e (A & B & _). now split.
    + eapply Forall_impl; [|exact F4]. cbn beta. intros e (A & B & _). now split.
  - destruct (build_sector_hero v b w g) as [Eh Es].
    destruct (spawn_many_keeps Enemy.new_Worm (Z.to_nat w) g3) as (A4 & B4 & C4).
    destruct (spawn_many_keeps Enemy.new_Bug (Z.to_nat b) g2) as (A3 & B3 & C3).
    destruct (spawn_many_keeps (fun p => Enemy.new_Virus p 2) (Z.to_nat v) g1)
      as (A2 & B2 & C2).
    fold g2 in A2, B2, C2, A3, B3, C3. fold g3 in A3, B3, C3, A4, B4, C4.
    fold g4 in A4, B4, C4.
    assert (Esc : Game.score (Game.build_sector v b w g) = Game.score g4)
      by reflexivity.
    assert (Ese : Game.sector (Game.build_sector v b w g) = Game.sector g4)
      by reflexivity.
    assert (Ehi : Game.highscore (Game.build_sector v b w g) = Game.highscore g4)
      by reflexivity.
    rewrite Esc, Ese, Ehi, A4, B4, C4, A3, B3, C3, A2, B2, C2.
    repeat split; try assumption; reflexivity.
Qed.

(** X8. [build_sector(v, b, w)] leaves exactly [v] Viruses of tier 2,
    then [b] Bugs, then [w] Worms on the field (a negative count gives
    none), whatever was there before; each starts on a wire crossing and
    off mitosis cooldown. Surges and hazards are emptied, the hero is
    new, both emitters are inactive, the blast timer is 0; state, score,
    sector and high score are not touched. *)
Theorem build_sector_fresh_field (v b w : Z) (g : Game.t) :
  let g' := Game.build_sector v b w g in
  (exists vs bs ws,
      Game.enemies g' = vs ++ bs ++ ws /\
      length vs = Z.to_nat v /\ length bs = Z.to_nat b /\
      length ws = Z.to_nat w /\
      Forall (fun e => Enemy.kind e = Virus 2) vs /\
      Forall (fun e => Enemy.kind e = Bug) bs /\
      Forall (fun e => exists d, Enemy.kind e = Worm d) ws) /\
  length (Game.enemies g') = (Z.to_nat v + Z.to_nat b + Z.to_nat w)%nat /\
  Forall (fun e => at_intersection (Enemy.pos e) = true /\ Enemy.rep_cd e = 0)
         (Game.enemies g') /\
  Game.surges g' = [] /\ Game.glitches g' = [] /\
  Game.hero g' = Hero.new CENTER /\
  SurgeEmitter.active (Game.emit_row g') = false /\
  SurgeEmitter.active (Game.emit_col g') = false /\
  Game.oc_blast_timer g' = 0 /\
  Game.state g' = Game.state g /\ Game.score g' = Game.score g /\
  Game.sector g' = Game.sector g /\ Game.highscore g' = Game.highscore g.
Proof. apply build_sector_spec. Qed.

Lemma start_run_eq (g : Game.t) :
  Game.start_run g =
  Game.set_state play
    (Game.build_sector 2 2 1 (Game.set_sector 1 (Game.set_score 0 g))).
Proof. reflexivity. Qed.

Lemma next_sector_eq (g : Game.t) :
  Game.next_sector g =
  Game.set_state play
    (Game.build_sector
       (2 + (Game.sector g + 1) / 2) (2 + (Game.sector g + 1) / 2)
       (1 + (if ((Game.sector g + 1) mod 3 =? 0)%Z then 1 else 0))
       (Game.set_sector (Game.sector g + 1) g)).
Proof. reflexivity. Qed.

Lemma set_state_keeps (s : State) (g : Game.t) :
  Game.enemies (Game.set_state s g) = Game.enemies g /\
  Game.sector (Game.set_state s g) = Game.sector g /\
  Game.score (Game.set_state s g) = Game.score g /\
  Game.state (Game.set_state s g) = s.
Proof. repeat split. Qed.

(** X9. A new run starts in play at sector 1 with score 0 and 5 enemies.
    Going on from a cleared sector [n >= 0] gives sector [n+1], in play,
    with the score kept and [5 + 2*((n+1)/2)] enemies, one more when
    [n+1] is a multiple of 3; so every sector from the 14th on starts
    with more than MAX_ENEMIES_ON_FIELD enemies. *)
Theorem sector_sizes (g : Game.t) :
  (Game.state (Game.start_run g) = play /\
   Game.sector (Game.start_run g) = 1%Z /\
   Game.score (Game.start_run g) = 0%Z /\
   length (Game.enemies (Game.start_run g)) = 5%nat) /\
  (Game.state (Game.next_sector g) = play /\
   Game.sector (Game.next_sector g) = (Game.sector g + 1)%Z /\
   Game.score (Game.next_sector g) = Game.score g) /\
  ((0 <= Game.sector g)%Z ->
   Z.of_nat (length (Game.enemies (Game.next_sector g))) =
     (5 + 2 * ((Game.sector g + 1) / 2)
      + (if ((Game.sector g + 1) mod 3 =? 0)%Z then 1 else 0))%Z) /\
  ((13 <= Game.sector g)%Z ->
   (MAX_ENEMIES_ON_FIELD < length (Game.enemies (Game.next_sector g)))%nat).
Proof.
  assert (Hn : (0 <= Game.sector g)%Z ->
     Z.of_nat (length (Game.enemies (Game.next_sector g))) =
       (5 + 2 * ((Game.sector g + 1) / 2)
        + (if ((Game.sector g + 1) mod 3 =? 0)%Z then 1 else 0))%Z).
  { intro Hs. rewrite next_sector_eq.
    rewrite (proj1 (set_state_keeps play _)).
    match goal with |- context [Game.build_sector ?v ?b ?w ?x] =>
      destruct (build_sector_spec v b w x) as (_ & L & _) end.
    cbv zeta in L. rewrite L.
    assert (0 <= (Game.sector g + 1) / 2)%Z by (apply Z.div_pos; lia).
    destruct ((Game.sector g + 1) mod 3 =? 0)%Z; lia. }
  split; [|split; [|split]].
  - rewrite start_run_eq.
    destruct (set_state_keeps play
                (Game.build_sector 2 2 1 (Game.set_sector 1 (Game.set_score 0 g))))
      as (A & B & C & D).
    rewrite A, B, C, D.
    destruct (build_sector_spec 2 2 1 (Game.set_sector 1 (Game.set_score 0 g)))
      as (_ & L & _ & _ & _ & _ & _ & _ & _ & _ & Sc & Se & _).
    cbv zeta in L, Sc, Se. rewrite L, Sc, Se. repeat split.
  - rewrite next_sector_eq.
    match goal with |- context [Game.set_state play ?x] =>
      destruct (set_state_keeps play x) as (A & B & C & D) end.
    rewrite B, C, D.
    match goal with |- context [Game.build_sector ?v ?b ?w ?x] =>
      destruct (build_sector_spec v b w x)
        as (_ & _ & _ & _ & _ & _ & _ & _ & _ & _ & Sc & Se & _) end.
    cbv zeta in Sc, Se. rewrite Sc, Se. repeat split.
  - exact Hn.
  - intro Hs. assert (H0 : (0 <= Game.sector g)%Z) by lia.
    specialize (Hn H0).
    assert (7 <= (Game.sector g + 1) / 2)%Z
      by (apply Z.div_le_lower_bound; lia).
    unfold MAX_ENEMIES_ON_FIELD.
    destruct ((Game.sector g + 1) mod 3 =? 0)%Z; lia.
Qed.

(** The theorem at sector 13 just cleared. *)
Lemma sector_sizes_witness :
  (MAX_ENEMIES_ON_FIELD < length (Game.enemies (Game.next_sector cleared13)))%nat.
Proof.
  apply (proj2 (proj2 (proj2 (sector_sizes cleared13)))).
  vm_compute. discriminate.
Defined.

(** ** Score and meter through a frame *)

Lemma fair_refl (g : Game.t) : fair_step g g.
Proof. unfold fair_step. split; [lia|]. split; [lia|]. auto. Qed.

Lemma fair_trans (a b c : Game.t) :
  fair_step a b -> fair_step b c -> fair_step a c.
Proof.
  unfold fair_step. intros (A1 & A2 & A3) (B1 & B2 & B3).
  split; [lia|]. split; [lia|]. auto.
Qed.

(** A pass that touches neither the meter nor the scores. *)
Lemma fair_same (g g' : Game.t) :
  Hero.oc_meter (Game.hero g') = Hero.oc_meter (Game.hero g) ->
  Game.score g' = Game.score g ->
  Game.highscore g' = Game.highscore g ->
  fair_step g g'.
Proof.
  intros E1 E2 E3. unfold fair_step, meter_ok. rewrite E1, E2, E3.
  split; [lia|]. split; [lia|]. auto.
Qed.

Lemma add_shake_scores (a : Q) (g : Game.t) :
  Game.hero (Game.add_shake a g) = Game.hero g /\
  Game.score (Game.add_shake a g) = Game.score g /\
  Game.highscore (Game.add_shake a g) = Game.highscore g.
Proof.
  unfold Game.add_shake. destruct (Game.fancy_vfx g); repeat split.
Qed.

Lemma hero_phase_fair (dt : Q) (inp : Input) (g : Game.t) :
  fair_step g (Game.hero_phase dt inp g).
Proof.
  apply fair_same; try reflexivity.
  unfold Game.hero_phase. cbn [Game.hero Game.set_hero].
  apply (Hero_update_keeps dt (keys inp) (Game.hero g)).
Qed.

Lemma blast_phase_fair (inp : Input) (g : Game.t) :
  fair_step g (Game.blast_phase inp g).
Proof.
  unfold Game.blast_phase.
  destruct ((keys inp K_LSHIFT || keys inp K_RSHIFT)
            && Hero.ready_overclock (Game.hero g)); [|apply fair_refl].
  match goal with |- fair_step _ (Game.add_shake ?a ?x) =>
    destruct (add_shake_scores a x) as (Eh & Es & Ehi) end.
  unfold fair_step, meter_ok. rewrite Eh, Es, Ehi.
  split; [cbn; lia|]. split; [cbn; lia|]. intros _.
  cbn. unfold OC_MAX. lia.
Qed.

Lemma blast_shake_phase_fair (dt : Q) (g : Game.t) :
  fair_step g (Game.blast_shake_phase dt g).
Proof.
  unfold Game.blast_shake_phase.
  destruct (Qltb 0 (Game.oc_blast_timer g)); [|apply fair_refl].
  match goal with |- fair_step _ (Game.add_shake ?a ?x) =>
    destruct (add_shake_scores a x) as (Eh & Es & Ehi) end.
  apply fair_same; rewrite ?Eh, ?Es, ?Ehi; reflexivity.
Qed.

Lemma fire_phase_fair (inp : Input) (g : Game.t) :
  fair_step g (Game.fire_phase inp g).
Proof.
  unfold Game.fire_phase.
  destruct ((mouse_left inp || keys inp K_SPACE) && Hero.can_shoot (Game.hero g));
    [|apply fair_refl].
  unfold Hero.shoot.
  match goal with |- fair_step _ (Game.add_shake ?a ?x) =>
    destruct (add_shake_scores a x) as (Eh & Es & Ehi) end.
  apply fair_same; rewrite ?Eh, ?Es, ?Ehi; reflexivity.
Qed.

Lemma emitter_update_scores (dt : Q) (m : SurgeEmitter.t) (g : Game.t) :
  Game.hero (snd (Game.emitter_update dt m g)) = Game.hero g /\
  Game.score (snd (Game.emitter_update dt m g)) = Game.score g /\
  Game.highscore (snd (Game.emitter_update dt m g)) = Game.highscore g.
Proof.
  unfold Game.emitter_update. break_lets; cbn; repeat split.
Qed.

Lemma natural_phase_fair (dt : Q) (g : Game.t) :
  fair_step g (Game.natural_phase dt g).
Proof.
  unfold Game.natural_phase.
  set (g1 := if negb _ then _ else g).
  assert (E1 : Game.hero g1 = Game.hero g /\ Game.score g1 = Game.score g
               /\ Game.highscore g1 = Game.highscore g).
  { unfold g1. unfold SurgeEmitter.schedule, rand_between, uniform, randint, random.
    break_lets; cbn; repeat split. }
  clearbody g1. destruct E1 as (Eh1 & Ee1 & Es1).
  pose proof (emitter_update_scores dt (Game.emit_row g1) g1) as (Eh2 & Ee2 & Es2).
  destruct (Game.emitter_update dt (Game.emit_row g1) g1) as [mr g2].
  cbn [snd] in *.
  pose proof (emitter_update_scores dt
                (Game.emit_col (Game.set_emit_row mr g2))
                (Game.set_emit_row mr g2)) as (Eh3 & Ee3 & Es3).
  destruct (Game.emitter_update dt (Game.emit_col (Game.set_emit_row mr g2))
              (Game.set_emit_row mr g2)) as [mc g4].
  cbn [snd Game.hero Game.score Game.highscore Game.set_emit_row] in *.
  apply fair_same;
    cbn [Game.hero Game.score Game.highscore Game.set_emit_col]; congruence.
Qed.

Lemma enemy_update_scores (dt : Q) (e : Enemy.t) (g : Game.t) :
  Game.hero (snd (Game.enemy_update dt e g)) = Game.hero g /\
  Game.score (snd (Game.enemy_update dt e g)) = Game.score g /\
  Game.highscore (snd (Game.enemy_update dt e g)) = Game.highscore g.
Proof.
  unfold Game.enemy_update, Game.Virus_update, Game.Bug_update,
    Game.Worm_update.
  destruct (Enemy.kind e);
    destruct (Enemy.common_move _ _ e (Game.rng g)) as [e1 r1];
    unfold rand_between, uniform, random, Game.add_shake;
    break_lets; cbn; repeat split.
Qed.

Lemma update_enemies_scores (dt : Q) (es : list Enemy.t) (g : Game.t) :
  Game.hero (snd (Game.update_enemies dt es g)) = Game.hero g /\
  Game.score (snd (Game.update_enemies dt es g)) = Game.score g /\
  Game.highscore (snd (Game.update_enemies dt es g)) = Game.highscore g.
Proof.
  revert g. induction es as [|e rest IH]; intro g; [repeat split|].
  cbn [Game.update_enemies].
  pose proof (enemy_update_scores dt e g) as (Eh & Es & Ehi).
  destruct (Game.enemy_update dt e g) as [[e' shots] g1]. cbn [snd] in *.
  specialize (IH g1). destruct IH as (Ih & Is & Ihi).
  destruct (Game.update_enemies dt rest g1) as [[rest' more] g2].
  cbn [snd] in *. repeat split; congruence.
Qed.

Lemma enemies_phase_fair (dt : Q) (g : Game.t) :
  fair_step g (Game.enemies_phase dt g).
Proof.
  unfold Game.enemies_phase.
  pose proof (update_enemies_scores dt (Game.enemies g) g) as (Eh & Es & Ehi).
  destruct (Game.update_enemies dt (Game.enemies g) g) as [[es new] g1].
  cbn [snd] in *.
  apply fair_same;
    cbn [Game.hero Game.score Game.highscore Game.set_surges Game.set_enemies];
    congruence.
Qed.

Lemma mitosis_pair_scores (g0 : Game.t) (i j : nat) (st : Game.t * list Enemy.t) :
  (Game.hero (fst st) = Game.hero g0 /\
   Game.score (fst st) = Game.score g0 /\
   Game.highscore (fst st) = Game.highscore g0) ->
  (Game.hero (fst (Game.mitosis_pair i j st)) = Game.hero g0 /\
   Game.score (fst (Game.mitosis_pair i j st)) = Game.score g0 /\
   Game.highscore (fst (Game.mitosis_pair i j st)) = Game.highscore g0).
Proof.
  intros Hst. unfold Game.mitosis_pair. destruct st as [g to_add].
  cbn [fst] in Hst.
  destruct (nth_error (Game.enemies g) i) as [ei|]; [|exact Hst].
  destruct (nth_error (Game.enemies g) j) as [ej|]; [|exact Hst].
  destruct (negb (Enemy.same_type ei ej)); [exact Hst|].
  destruct (Qltb 0 (Enemy.rep_cd ei) || Qltb 0 (Enemy.rep_cd ej)); [exact Hst|].
  destruct (within _ _ _); [|exact Hst].
  destruct (MAX_ENEMIES_ON_FIELD <=? length (Game.enemies g) + length to_add)%nat;
    [exact Hst|].
  destruct (Game.mitosis_child ei ej (Game.rng g)) as [child r3].
  exact Hst.
Qed.

Lemma handle_enemy_mitosis_fair (g : Game.t) :
  fair_step g (Game.handle_enemy_mitosis g).
Proof.
  unfold Game.handle_enemy_mitosis.
  set (n := length (Game.enemies g)).
  assert (Hinv :
    let st := fold_left (Game.mitosis_row n) (seq 0 n) (g, []) in
    Game.hero (fst st) = Game.hero g /\
    Game.score (fst st) = Game.score g /\
    Game.highscore (fst st) = Game.highscore g).
  { apply (fold_left_inv
             (fun st => Game.hero (fst st) = Game.hero g /\
                        Game.score (fst st) = Game.score g /\
                        Game.highscore (fst st) = Game.highscore g));
      [|repeat split].
    intros st i _ Hst. unfold Game.mitosis_row.
    apply (fold_left_inv
             (fun st => Game.hero (fst st) = Game.hero g /\
                        Game.score (fst st) = Game.score g /\
                        Game.highscore (fst st) = Game.highscore g));
      [|exact Hst].
    intros st' j _ Hst'. now apply (mitosis_pair_scores g i j st'). }
  cbv zeta in Hinv.
  destruct (fold_left (Game.mitosis_row n) (seq 0 n) (g, [])) as [g1 to_add].
  cbn [fst] in Hinv. destruct Hinv as (Hh & Hs & Hhi).
  destruct to_add as [|c to_add]; apply fair_same;
    cbn [Game.hero Game.score Game.highscore Game.set_enemies]; congruence.
Qed.

Lemma glitch_decay_fair (dt : Q) (g : Game.t) :
  fair_step g (Game.glitch_decay dt g).
Proof. apply fair_same; reflexivity. Qed.

Lemma surges_phase_fair (dt : Q) (g : Game.t) :
  fair_step g (Game.surges_phase dt g).
Proof. apply fair_same; reflexivity. Qed.

Lemma add_oc_ok (v : Z) (g : Game.t) :
  meter_ok (Game.set_hero (Hero.add_oc v (Game.hero g)) g).
Proof.
  unfold meter_ok. cbn [Game.hero Game.set_hero]. apply add_oc_bounds.
Qed.

Lemma cancel_pair_fair (ss : list Surge.t) (i : nat) (si : Surge.t)
    (st : list nat * Game.t) (j : nat) :
  fair_step (snd st) (snd (Game.cancel_pair ss i si st j)).
Proof.
  unfold Game.cancel_pair.
  destruct (Game.in_dead j (fst st)); [apply fair_refl|].
  destruct (nth_error ss j) as [sj|]; [|apply fair_refl].
  destruct (Game.clash si sj); [|apply fair_refl].
  destruct (Game.in_cancel_range si sj); [|apply fair_refl].
  destruct st as [dead g]. unfold Game.resolve_cancel.
  destruct (Owner_eqb (Surge.owner si) player || Owner_eqb (Surge.owner sj) player).
  - cbn [snd]. unfold fair_step.
    split; [cbn; lia|]. split; [cbn; lia|]. intros _.
    apply (add_oc_ok OC_FILL_PER_CANCEL
             (Game.spark 8 (Game.sfx_play "cancel" g))).
  - apply fair_same; reflexivity.
Qed.

Lemma handle_surge_cancels_fair (g : Game.t) :
  fair_step g (Game.handle_surge_cancels g).
Proof.
  unfold Game.handle_surge_cancels, Game.cancel_rows.
  assert (Hinv : fair_step g
            (snd (fold_left (Game.cancel_row (Game.surges g))
                    (seq 0 (length (Game.surges g))) ([], g)))).
  { apply (fold_left_inv (fun st => fair_step g (snd st)));
      [|apply fair_refl].
    intros st i _ Hst. unfold Game.cancel_row.
    destruct (Game.in_dead i (fst st)); [exact Hst|].
    destruct (nth_error (Game.surges g) i) as [si|]; [|exact Hst].
    apply (fold_left_inv (fun st => fair_step g (snd st))); [|exact Hst].
    intros st' j _ Hst'.
    eapply fair_trans; [exact Hst' | apply cancel_pair_fair]. }
  destruct (fold_left _ _ _) as [dead g1]. cbn [snd] in Hinv.
  destruct dead; [exact Hinv|].
  eapply fair_trans; [exact Hinv|]. apply fair_same; reflexivity.
Qed.

(** One friendly surge against the enemies only adds to the score and
    only feeds the meter through [add_oc]. *)
Lemma hit_enemies_fair (s : Surge.t) (rest kept added : list Enemy.t)
    (g : Game.t) :
  fair_step g (snd (Game.hit_enemies s kept rest added g)).
Proof.
  revert kept added g.
  induction rest as [|e rest' IH]; intros kept added g.
  - apply fair_refl.
  - cbn [Game.hit_enemies].
    destruct (within (Enemy.pos e) (Surge.pos s)
                (inject_Z (Enemy.r e + Surge.r s))); [|apply IH].
    unfold Enemy.take_damage.
    set (e1 := Enemy.set_hp (Enemy.hp e - Surge.dmg s) e).
    set (g1 := Game.spark 10 (Game.sfx_play "hit" g)).
    set (g2 := if Owner_eqb (Surge.owner s) player then _ else _).
    assert (Hg2 : fair_step g g2).
    { unfold g2. destruct (Owner_eqb (Surge.owner s) player).
      - unfold fair_step. split; [cbn; lia|]. split; [cbn; lia|]. intros _.
        apply (add_oc_ok OC_FILL_PER_KILL (Game.set_score (Game.score g1 + 45) g1)).
      - unfold fair_step, meter_ok. cbn. split; [lia|]. split; [lia|]. auto. }
    clearbody g2.
    destruct (Enemy.hp e1 <=? 0)%Z.
    + set (ga := Game.spark 18 (Game.sfx_play "explode" g2)).
      set (pr := if Enemy.is_Virus e1 then _ else (added, ga)).
      assert (Hpr : Game.hero (snd pr) = Game.hero g2 /\
                    Game.score (snd pr) = Game.score g2 /\
                    Game.highscore (snd pr) = Game.highscore g2).
      { unfold pr. destruct (Enemy.is_Virus e1).
        - destruct (Enemy.on_death e1 (Game.rng ga)) as [children r1].
          repeat split.
        - repeat split. }
      clearbody pr. destruct pr as [added1 gb]. cbn [snd] in Hpr.
      destruct Hpr as (Hh3 & Hs3 & Hi3).
      set (g3 := Game.set_score _ gb).
      assert (Hg3 : fair_step g2 g3).
      { unfold g3, fair_step, meter_ok.
        cbn [Game.hero Game.score Game.highscore Game.set_score].
        rewrite Hh3, Hs3, Hi3.
        split; [destruct (Owner_eqb (Surge.owner s) player); lia|].
        split; [lia|]. auto. }
      clearbody g3.
      destruct (negb (Surge.pierce s)).
      * cbn [snd]. eapply fair_trans; eassumption.
      * eapply fair_trans; [eapply fair_trans; eassumption|]. apply IH.
    + destruct (negb (Surge.pierce s)).
      * cbn [snd]. exact Hg2.
      * eapply fair_trans; [exact Hg2|]. apply IH.
Qed.

Lemma hurt_meter (h : Hero.t) :
  Hero.oc_meter (snd (Hero.hurt h)) = Hero.oc_meter h.
Proof. unfold Hero.hurt. destruct (Qltb 0 (Hero.ifr h)); reflexivity. Qed.

Lemma hit_surge_fair (s : Surge.t) (g : Game.t) :
  fair_step g (snd (Game.hit_surge s g)).
Proof.
  unfold Game.hit_surge.
  destruct (Game.is_friend (Surge.owner s)).
  - pose proof (hit_enemies_fair s (Game.enemies g) [] [] g) as Hk.
    destruct (Game.hit_enemies s [] (Game.enemies g) [] g) as [[es removed] g1].
    cbn [snd] in *.
    eapply fair_trans; [exact Hk|]. apply fair_same; reflexivity.
  - destruct (within _ _ _); [|apply fair_refl].
    pose proof (hurt_meter (Game.hero g)) as Hm.
    destruct (Hero.hurt (Game.hero g)) as [landed h]. cbn [snd] in *.
    assert (Hbase : fair_step g (Game.set_hero h g))
      by (apply fair_same; [exact Hm | reflexivity | reflexivity]).
    destruct landed; [|exact Hbase].
    eapply fair_trans; [exact Hbase|].
    match goal with |- fair_step _ (Game.add_shake ?a ?x) =>
      destruct (add_shake_scores a x) as (Eh & Es & Ehi) end.
    apply fair_same; rewrite ?Eh, ?Es, ?Ehi; reflexivity.
Qed.

Lemma hit_surges_fair (copy : list Surge.t) (g : Game.t) :
  fair_step g (snd (Game.hit_surges copy g)).
Proof.
  revert g. induction copy as [|s rest IH]; intro g; [apply fair_refl|].
  cbn [Game.hit_surges].
  pose proof (hit_surge_fair s g) as H1.
  destruct (Game.hit_surge s g) as [stays g1]. cbn [snd] in H1.
  specialize (IH g1).
  destruct (Game.hit_surges rest g1) as [left g2]. cbn [snd] in *.
  eapply fair_trans; eassumption.
Qed.

Lemma handle_surge_hits_fair (g : Game.t) :
  fair_step g (Game.handle_surge_hits g).
Proof.
  unfold Game.handle_surge_hits.
  pose proof (hit_surges_fair (Game.surges g) g) as H1.
  destruct (Game.hit_surges (Game.surges g) g) as [left g1]. cbn [snd] in H1.
  eapply fair_trans; [exact H1|]. apply fair_same; reflexivity.
Qed.

Lemma glitch_hit_fair (g : Game.t) (ga : Vec * Q) :
  fair_step g (Game.glitch_hit g ga).
Proof.
  unfold Game.glitch_hit.
  destruct (within _ _ _); [|apply fair_refl].
  pose proof (hurt_meter (Game.hero g)) as Hm.
  destruct (Hero.hurt (Game.hero g)) as [landed h]. cbn [snd] in *.
  assert (Hbase : fair_step g (Game.set_hero h g))
    by (apply fair_same; [exact Hm | reflexivity | reflexivity]).
  destruct landed; [|exact Hbase].
  eapply fair_trans; [exact Hbase|].
  match goal with |- fair_step _ (Game.add_shake ?a ?x) =>
    destruct (add_shake_scores a x) as (Eh & Es & Ehi) end.
  apply fair_same; rewrite ?Eh, ?Es, ?Ehi; reflexivity.
Qed.

Lemma glitch_phase_fair (g : Game.t) : fair_step g (Game.glitch_phase g).
Proof.
  unfold Game.glitch_phase.
  apply (fold_left_inv (fun g' => fair_step g g')); [|apply fair_refl].
  intros g' ga _ Hg'.
  eapply fair_trans; [exact Hg' | apply glitch_hit_fair].
Qed.

Lemma win_lose_scores (g : Game.t) :
  Game.score (Game.win_lose g) = Game.score g /\
  Game.highscore (Game.win_lose g) =
    (if negb (Hero.alive (Game.hero g)) then Z.max (Game.highscore g) (Game.score g)
     else match Game.enemies g with
          | [] => Z.max (Game.highscore g) (Game.score g)
          | _ => Game.highscore g
          end).
Proof.
  unfold Game.win_lose.
  destruct (negb (Hero.alive (Game.hero g))); [repeat split|].
  destruct (Game.enemies g) eqn:E; repeat split.
Qed.

Lemma win_lose_fair (g : Game.t) : fair_step g (Game.win_lose g).
Proof.
  destruct (win_lose_keeps g) as (Eh & _ & _).
  destruct (win_lose_scores g) as (Es & Ehi).
  unfold fair_step, meter_ok. rewrite Eh, Es, Ehi.
  split; [lia|]. split; [|auto].
  destruct (negb (Hero.alive (Game.hero g))); [lia|].
  destruct (Game.enemies g); lia.
Qed.

Lemma shake_decay_fair (g : Game.t) : fair_step g (Game.shake_decay g).
Proof.
  unfold Game.shake_decay. destruct (Qltb 0 (Game.shake g));
    apply fair_same; reflexivity.
Qed.

(** An update as a whole. *)
Lemma update_fair (dt : Q) (inp : Input) (g : Game.t) :
  fair_step g (Game.update dt inp g).
Proof.
  assert (Hgo : fair_step g
                  (Game.after_blast dt inp
                     (Game.blast_phase inp (Game.hero_phase dt inp g)))).
  { unfold Game.after_blast.
    eapply fair_trans; [|apply shake_decay_fair].
    eapply fair_trans; [|apply win_lose_fair].
    eapply fair_trans; [|apply glitch_phase_fair].
    eapply fair_trans; [|apply handle_surge_hits_fair].
    eapply fair_trans; [|apply handle_surge_cancels_fair].
    eapply fair_trans; [|apply surges_phase_fair].
    eapply fair_trans; [|apply glitch_decay_fair].
    eapply fair_trans; [|apply handle_enemy_mitosis_fair].
    eapply fair_trans; [|apply enemies_phase_fair].
    eapply fair_trans; [|apply natural_phase_fair].
    eapply fair_trans; [|apply fire_phase_fair].
    eapply fair_trans; [|apply blast_shake_phase_fair].
    eapply fair_trans; [|apply blast_phase_fair].
    apply hero_phase_fair. }
  unfold Game.update. destruct (Game.state g); try exact Hgo; apply fair_refl.
Qed.

(** X10. An update never lowers the score or the high score, and leaves
    the overclock meter within [0, OC_MAX] when it was. *)
Theorem update_never_loses_score (dt : Q) (inp : Input) (g : Game.t) :
  (Game.score g <= Game.score (Game.update dt inp g))%Z /\
  (Game.highscore g <= Game.highscore (Game.update dt inp g))%Z /\
  ((0 <= Hero.oc_meter (Game.hero g) <= OC_MAX)%Z ->
   (0 <= Hero.oc_meter (Game.hero (Game.update dt inp g)) <= OC_MAX)%Z).
Proof. exact (update_fair dt inp g). Qed.

(** The theorem at the first update of a run: the meter is in range. *)
Lemma update_never_loses_score_witness :
  (0 <= Hero.oc_meter (Game.hero (Game.update (1 # 60) idle playing))
   <= OC_MAX)%Z.
Proof.
  apply (proj2 (proj2 (update_never_loses_score (1 # 60) idle playing))).
  vm_compute. split; discriminate.
Defined.

Lemma new_hero_meter (g : Game.t) :
  Game.hero g = Hero.new CENTER -> meter_ok g.
Proof.
  intro E. unfold meter_ok. rewrite E.
  change (Hero.oc_meter (Hero.new CENTER)) with 0%Z. unfold OC_MAX. lia.
Qed.

Lemma start_run_meter (g : Game.t) : meter_ok (Game.start_run g).
Proof.
  apply new_hero_meter. rewrite start_run_unfold.
  rewrite (proj1 (set_state_fields play _)).
  apply build_sector_hero.
Qed.

Lemma next_sector_meter (g : Game.t) : meter_ok (Game.next_sector g).
Proof.
  apply new_hero_meter. rewrite next_sector_eq.
  rewrite (proj1 (set_state_fields play _)).
  apply build_sector_hero.
Qed.

Lemma on_keydown_meter (k : Key) (g : Game.t) :
  meter_ok g -> meter_ok (Game.on_keydown k g).
Proof.
  intro Hg. unfold Game.on_keydown.
  set (g1 := if Game.Key_eqb k K_p && _ then _ else g).
  assert (H1 : meter_ok g1).
  { unfold g1.
    destruct (Game.Key_eqb k K_p
              && (State_eqb (Game.state g) play || State_eqb (Game.state g) paused));
      exact Hg. }
  clearbody g1.
  set (g2 := if Game.Key_eqb k K_v then _ else g1).
  assert (H2 : meter_ok g2) by (unfold g2; destruct (Game.Key_eqb k K_v); exact H1).
  clearbody g2.
  set (g3 := if Game.Key_eqb k K_m then _ else g2).
  assert (H3 : meter_ok g3) by (unfold g3; destruct (Game.Key_eqb k K_m); exact H2).
  clearbody g3.
  set (g4 := if Game.Key_eqb k K_r && _ then _ else g3).
  assert (H4 : meter_ok g4).
  { unfold g4. destruct (Game.Key_eqb k K_r && State_eqb (Game.state g3) gameover);
      [apply start_run_meter | exact H3]. }
  clearbody g4.
  set (g5 := if State_eqb (Game.state g4) menu && _ then _ else g4).
  assert (H5 : meter_ok g5).
  { unfold g5.
    destruct (State_eqb (Game.state g4) menu
              && (Game.Key_eqb k K_SPACE || Game.Key_eqb k K_RETURN));
      [apply start_run_meter | exact H4]. }
  clearbody g5.
  destruct (State_eqb (Game.state g5) sectorclear
            && (Game.Key_eqb k K_SPACE || Game.Key_eqb k K_RETURN));
    [apply next_sector_meter | exact H5].
Qed.

Lemma on_mousedown_meter (b : Z) (g : Game.t) :
  meter_ok g -> meter_ok (Game.on_mousedown b g).
Proof.
  intro Hg. unfold Game.on_mousedown.
  set (g1 := if State_eqb (Game.state g) menu && _ then _ else g).
  assert (H1 : meter_ok g1).
  { unfold g1. destruct (State_eqb (Game.state g) menu && (b =? 1)%Z);
      [apply start_run_meter | exact Hg]. }
  clearbody g1.
  destruct (State_eqb (Game.state g1) sectorclear && (b =? 1)%Z);
    [apply next_sector_meter | exact H1].
Qed.

Lemma handle_events_meter (evs : list Event) (g g1 : Game.t) :
  meter_ok g -> Game.handle_events evs g = Some g1 -> meter_ok g1.
Proof.
  revert g. induction evs as [|ev evs IH]; intros g Hg Hev.
  - cbn in Hev. inversion Hev. subst. exact Hg.
  - destruct ev as [|k|b|]; cbn [Game.handle_events] in Hev.
    + discriminate.
    + destruct (Game.Key_eqb k K_ESCAPE); [discriminate|].
      eapply IH; [|exact Hev]. now apply on_keydown_meter.
    + eapply IH; [|exact Hev]. now apply on_mousedown_meter.
    + eapply IH; eassumption.
Qed.

Lemma frame_meter (evs : list Event) (inp : Input) (dt : Q) (g g' : Game.t) :
  meter_ok g -> Game.frame evs inp dt g = Some g' -> meter_ok g'.
Proof.
  intros Hg. unfold Game.frame.
  destruct (Game.handle_events evs g) as [g1|] eqn:Hev; [|discriminate].
  pose proof (handle_events_meter evs g g1 Hg Hev) as H1.
  assert (Hd : forall x, meter_ok x -> meter_ok (Game.draw x)).
  { intros x Hx. unfold meter_ok. destruct (draw_keeps x) as (_ & Eh & _).
    now rewrite Eh. }
  destruct (State_eqb (Game.state g1) paused); intro E; inversion E; subst.
  - now apply Hd.
  - apply Hd. now apply (update_fair dt inp g1).
Qed.

(** X11. Over every session the overclock meter stays within
    [0, OC_MAX]. *)
Theorem meter_always_in_range (g : Game.t) :
  reachable g -> (0 <= Hero.oc_meter (Game.hero g) <= OC_MAX)%Z.
Proof.
  induction 1 as [r | g g' evs inp dt _ IH Hf].
  - apply new_hero_meter.
    unfold Game.init, rand_between, uniform, random. reflexivity.
  - eapply frame_meter; eassumption.
Qed.

(** The theorem at the first frame of play. *)
Lemma meter_always_in_range_witness :
  (0 <= Hero.oc_meter
          (Game.hero (Game.draw (Game.update (1 # 60) idle playing)))
     <= OC_MAX)%Z.
Proof.
  apply meter_always_in_range.
  apply (reach_frame fresh _ [KEYDOWN K_SPACE] idle (1 # 60));
    [apply reach_init | reflexivity].
Defined.

Lemma shake_decay_scores (g : Game.t) :
  Game.score (Game.shake_decay g) = Game.score g /\
  Game.highscore (Game.shake_decay g) = Game.highscore g.
Proof.
  unfold Game.shake_decay. destruct (Qltb 0 (Game.shake g)); split; reflexivity.
Qed.

(** X12. How an update that runs (state play) ends: with the hero out of
    health the state is gameover; with the hero alive and no enemy left
    it is sectorclear; in both cases the high score is at least the
    score; otherwise the state stays play. *)
Theorem update_outcome (dt : Q) (inp : Input) (g : Game.t) :
  Game.state g = play ->
  let g' := Game.update dt inp g in
  ((Hero.hp (Game.hero g') <= 0)%Z ->
   Game.state g' = gameover /\ (Game.score g' <= Game.highscore g')%Z) /\
  ((0 < Hero.hp (Game.hero g'))%Z -> Game.enemies g' = [] ->
   Game.state g' = sectorclear /\ (Game.score g' <= Game.highscore g')%Z) /\
  ((0 < Hero.hp (Game.hero g'))%Z -> Game.enemies g' <> [] ->
   Game.state g' = play).
Proof.
  intros Hst g'. subst g'. unfold Game.update. rewrite Hst.
  unfold Game.after_blast.
  match goal with |- context [Game.shake_decay ?x] =>
    destruct (shake_decay_keeps x) as (Eh & Ee & Es);
    destruct (shake_decay_scores x) as (Esc & Ehi) end.
  rewrite Eh, Ee, Es, Esc, Ehi. clear Eh Ee Es Esc Ehi.
  match goal with |- context [Game.win_lose ?x] =>
    destruct (win_lose_keeps x) as (Eh & Ee & Es);
    destruct (win_lose_scores x) as (Esc & Ehi); set (gx := x) in * end.
  rewrite Eh, Ee, Es, Esc, Ehi. clear Eh Ee Es Esc Ehi.
  assert (Hsx : Game.state gx = play).
  { destruct (passes_step dt inp (Game.hero_phase dt inp g)) as (_ & E & _).
    fold gx in E. rewrite E. exact Hst. }
  unfold Hero.alive.
  destruct (0 <? Hero.hp (Game.hero gx))%Z eqn:Ea; cbn [negb].
  - apply Z.ltb_lt in Ea. split; [intro; lia|]. split.
    + intros _ En. rewrite En. split; [reflexivity | lia].
    + intros _ En. destruct (Game.enemies gx); [contradiction | exact Hsx].
  - apply Z.ltb_ge in Ea. split; [intros _; split; [reflexivity | lia]|].
    split; intros; lia.
Qed.

(** The theorem at the first frame of play: the game goes on. *)
Lemma update_outcome_witness :
  Game.state (Game.update (1 # 60) idle playing) = play.
Proof.
  destruct (update_outcome (1 # 60) idle playing) as (_ & _ & Hgo).
  - reflexivity.
  - apply Hgo.
    + vm_compute. reflexivity.
    + vm_compute. discriminate.
Defined.

(** ** Input events *)

(** X13. [handle_events] tells the loop to stop exactly when the events
    of the frame contain a QUIT or a press of ESCAPE; every other batch
    of events is handled to the end. *)
Theorem handle_events_stops_on_quit (evs : list Event) (g : Game.t) :
  Game.handle_events evs g = None <-> existsb stops evs = true.
Proof.
  revert g. induction evs as [|ev evs IH]; intro g.
  - cbn. split; discriminate.
  - destruct ev as [|k|b|]; cbn [Game.handle_events existsb stops].
    + split; reflexivity.
    + destruct k; cbn [Game.Key_eqb orb]; try apply IH.
      split; reflexivity.
    + apply IH.
    + apply IH.
Qed.

(** X14. The P key pauses a game in play and resumes a paused one, and
    touches nothing but the state, so that pressing it twice gives the
    game back; in the other states it does nothing. The V and M keys are
    toggles that undo themselves in every state. *)
Theorem pause_and_toggles (g : Game.t) :
  (Game.state g = play -> Game.on_keydown K_p g = Game.set_state paused g) /\
  (Game.state g = paused -> Game.on_keydown K_p g = Game.set_state play g) /\
  (Game.state g = play \/ Game.state g = paused ->
   Game.on_keydown K_p (Game.on_keydown K_p g) = g) /\
  (Game.state g <> play -> Game.state g <> paused ->
   Game.on_keydown K_p g = g) /\
  Game.on_keydown K_v (Game.on_keydown K_v g) = g /\
  Game.on_keydown K_m (Game.on_keydown K_m g) = g.
Proof.
  destruct g as [st se sc hi he en su gl sh fv ss ob nt er ec rg lg].
  cbn [Game.state].
  split; [intro E; subst st; reflexivity|].
  split; [intro E; subst st; reflexivity|].
  split; [intros [E | E]; subst st; reflexivity|].
  split; [intros N1 N2; destruct st; try contradiction; reflexivity|].
  split; destruct st, fv, ss; reflexivity.
Qed.

(** The theorem at a game in play. *)
Lemma pause_and_toggles_witness :
  Game.state (Game.on_keydown K_p playing) = paused /\
  Game.on_keydown K_p (Game.on_keydown K_p playing) = playing.
Proof.
  destruct (pause_and_toggles playing) as (Hp & _ & Hpp & _).
  split.
  - rewrite Hp; reflexivity.
  - apply Hpp. left. reflexivity.
Defined.

(** ** Natural surge trains *)

(** [randint(a, b)] stays between its ends, for a draw in [0,1). *)
Lemma randint_range (a b : Z) (r : Rng) :
  unit_draws r -> (a <= b)%Z ->
  (a <= fst (randint a b r) <= b)%Z.
Proof.
  intros Hr Hab. unfold randint, random. cbn [fst].
  destruct (Hr 0%nat) as [Hlo Hhi].
  set (n := (b - a + 1)%Z).
  assert (Hn : 0 < inject_Z n)
    by (change 0 with (inject_Z 0); rewrite <- Zlt_Qlt; unfold n; lia).
  assert (H0 : 0 <= r 0%nat * inject_Z n)
    by (apply Qmult_le_0_compat; [exact Hlo | now apply Qlt_le_weak]).
  assert (H1 : r 0%nat * inject_Z n < inject_Z n).
  { setoid_replace (inject_Z n) with (1 * inject_Z n) at 2 by ring.
    apply Qmult_lt_compat_r; assumption. }
  pose proof (Qfloor_le (r 0%nat * inject_Z n)) as F1.
  assert (F0 : (0 <= Qfloor (r 0%nat * inject_Z n))%Z)
    by (apply (Qfloor_resp_le 0) in H0; exact H0).
  assert (F2 : (Qfloor (r 0%nat * inject_Z n) < n)%Z).
  { rewrite Zlt_Qlt. eapply Qle_lt_trans; eassumption. }
  unfold n in *. lia.
Qed.

Lemma schedule_spec (m : SurgeEmitter.t) (r : Rng) :
  unit_draws r ->
  let m' := fst (SurgeEmitter.schedule m r) in
  SurgeEmitter.active m' = true /\
  SurgeEmitter.axis m' = SurgeEmitter.axis m /\
  SurgeEmitter.fire_t m' = 0 /\
  (6 <= SurgeEmitter.count m' <= 10)%Z /\
  (exists k : Z,
      SurgeEmitter.x_or_y m' = inject_Z k * GRID /\
      (2 <= k)%Z /\
      (k <= match SurgeEmitter.axis m with row => 9 | col => 17 end)%Z) /\
  match SurgeEmitter.axis m with
  | row => SurgeEmitter.dir m' = RIGHT \/ SurgeEmitter.dir m' = LEFT
  | col => SurgeEmitter.dir m' = DOWN \/ SurgeEmitter.dir m' = UP
  end.
Proof.
  intros Hr m'. subst m'. unfold SurgeEmitter.schedule.
  pose proof (randint_range 6 10 r Hr ltac:(lia)) as Hc.
  destruct (randint 6 10 r) as [c r1] eqn:E1. cbn [fst] in Hc.
  assert (Hr1 : unit_draws r1).
  { unfold randint, random in E1. inversion E1. intro n. apply Hr. }
  set (hi := (Qfloor ((match SurgeEmitter.axis m with row => H | col => W end - 2)
                      / GRID) - 2)%Z).
  assert (Ehi : hi = match SurgeEmitter.axis m with row => 9%Z | col => 17%Z end).
  { unfold hi. destruct (SurgeEmitter.axis m); vm_compute; reflexivity. }
  pose proof (randint_range 2 hi r1 Hr1) as Hk.
  destruct (randint 2 hi r1) as [k r2]. cbn [fst] in Hk.
  unfold random. cbn [fst SurgeEmitter.active SurgeEmitter.axis
                      SurgeEmitter.fire_t SurgeEmitter.count
                      SurgeEmitter.x_or_y SurgeEmitter.dir].
  repeat split; try lia.
  - exists k. split; [reflexivity|]. rewrite <- Ehi.
    apply Hk. rewrite Ehi. destruct (SurgeEmitter.axis m); lia.
  - destruct (SurgeEmitter.axis m); destruct (Qltb (r2 0%nat) (1 # 2)); auto.
Qed.

(** X15. A train as [SurgeEmitter.schedule] sets it up (draws in [0,1)):
    the emitter is active with 6 to 10 shots to fire, its timer at 0, on
    a grid line between the 2nd and the 9th (rows) or the 17th (columns),
    heading one way along its own axis. *)
Theorem scheduled_train (m : SurgeEmitter.t) (r : Rng) :
  unit_draws r ->
  let m' := fst (SurgeEmitter.schedule m r) in
  SurgeEmitter.active m' = true /\
  SurgeEmitter.axis m' = SurgeEmitter.axis m /\
  SurgeEmitter.fire_t m' = 0 /\
  (6 <= SurgeEmitter.count m' <= 10)%Z /\
  (exists k : Z,
      SurgeEmitter.x_or_y m' = inject_Z k * GRID /\
      (2 <= k)%Z /\
      (k <= match SurgeEmitter.axis m with row => 9 | col => 17 end)%Z) /\
  match SurgeEmitter.axis m with
  | row => SurgeEmitter.dir m' = RIGHT \/ SurgeEmitter.dir m' = LEFT
  | col => SurgeEmitter.dir m' = DOWN \/ SurgeEmitter.dir m' = UP
  end.
Proof. apply schedule_spec. Qed.

(** The theorem at the row emitter. *)
Lemma scheduled_train_witness :
  (6 <= SurgeEmitter.count
          (fst (SurgeEmitter.schedule (SurgeEmitter.new row) rng_half)) <= 10)%Z.
Proof.
  destruct (scheduled_train (SurgeEmitter.new row) rng_half unit_draws_half)
    as (_ & _ & _ & Hc & _).
  exact Hc.
Defined.

Lemma emitter_update_spec (dt : Q) (m : SurgeEmitter.t) (g : Game.t) :
  let m' := fst (Game.emitter_update dt m g) in
  let g' := snd (Game.emitter_update dt m g) in
  (SurgeEmitter.active m = false -> m' = m /\ g' = g) /\
  (exists new,
      Game.surges g' = Game.surges g ++ new /\ (length new <= 1)%nat /\
      Forall (fun s => Surge.owner s = natural /\
                       Surge.dir s = cardinal_from (SurgeEmitter.dir m) /\
                       Surge.speed s = SURGE_SPEED_NATURAL /\
                       Surge.dmg s = 1%Z /\ Surge.pierce s = false /\
                       match SurgeEmitter.axis m with
                       | row => vy (Surge.pos s) = SurgeEmitter.x_or_y m /\
                                (vx (Surge.pos s) = 12 \/ vx (Surge.pos s) = W - 12)
                       | col => vx (Surge.pos s) = SurgeEmitter.x_or_y m /\
                                (vy (Surge.pos s) = 12 \/ vy (Surge.pos s) = H - 12)
                       end) new /\
      SurgeEmitter.count m' = (SurgeEmitter.count m - Z.of_nat (length new))%Z) /\
  (SurgeEmitter.active m' = true ->
   SurgeEmitter.active m = true /\ (0 < SurgeEmitter.count m')%Z) /\
  SurgeEmitter.axis m' = SurgeEmitter.axis m /\
  SurgeEmitter.dir m' = SurgeEmitter.dir m /\
  SurgeEmitter.x_or_y m' = SurgeEmitter.x_or_y m /\
  Game.emit_row g' = Game.emit_row g /\ Game.emit_col g' = Game.emit_col g.
Proof.
  cbn zeta. unfold Game.emitter_update.
  destruct (SurgeEmitter.active m) eqn:Ea; cbn [negb].
  2:{ cbn [fst snd]. split; [auto|]. split.
      - exists []. rewrite app_nil_r. repeat split; [cbn; lia | constructor | cbn; lia].
      - split; [intro E; congruence|]. repeat split. }
  split; [discriminate|].
  destruct (Qle_bool (SurgeEmitter.fire_t m - dt) 0
            && (0 <? SurgeEmitter.count m)%Z) eqn:Ef;
    cbn [SurgeEmitter.fire_t SurgeEmitter.count SurgeEmitter.set_fire_t
         SurgeEmitter.set_count SurgeEmitter.dir SurgeEmitter.axis
         SurgeEmitter.x_or_y];
    rewrite Ef.
  - apply andb_true_iff in Ef. destruct Ef as [_ Ec]. apply Z.ltb_lt in Ec.
    cbn [SurgeEmitter.count SurgeEmitter.set_count SurgeEmitter.set_fire_t].
    destruct (SurgeEmitter.count m - 1 <=? 0)%Z eqn:Ez;
      cbn [fst snd SurgeEmitter.active SurgeEmitter.set_active
           SurgeEmitter.count SurgeEmitter.axis SurgeEmitter.dir
           SurgeEmitter.x_or_y Game.surges Game.sfx_play Game.set_sfx_log
           Game.set_surges Game.emit_row Game.emit_col];
      (split;
       [ match goal with
         | |- exists new, _ ++ ?l = _ ++ new /\ _ => exists l
         end;
         split; [reflexivity|]; split; [cbn; lia|]; split;
         [ apply Forall_cons; [|apply Forall_nil];
           unfold Surge.new_default, Surge.new;
           cbn [Surge.owner Surge.dir Surge.speed Surge.dmg Surge.pierce
                Surge.pos];
           repeat (split; [reflexivity|]);
           destruct (SurgeEmitter.axis m); cbn [vx vy];
           (split; [reflexivity|]);
           match goal with |- context [Qltb ?a ?b] => destruct (Qltb a b) end;
           auto
         | cbn [length SurgeEmitter.count SurgeEmitter.set_count]; lia ]
       | split; [|repeat split] ]).
    + discriminate.
    + intros _. apply Z.leb_gt in Ez.
      cbn [SurgeEmitter.count SurgeEmitter.set_count]. split; [reflexivity | lia].
  - cbn [SurgeEmitter.count SurgeEmitter.set_fire_t].
    destruct (SurgeEmitter.count m <=? 0)%Z eqn:Ez;
      cbn [fst snd SurgeEmitter.active SurgeEmitter.set_active
           SurgeEmitter.count SurgeEmitter.set_fire_t SurgeEmitter.axis
           SurgeEmitter.dir SurgeEmitter.x_or_y];
      (split;
       [ exists []; rewrite app_nil_r; split; [reflexivity|];
         split; [cbn; lia|]; split; [constructor | cbn; lia]
       | split; [|repeat split] ]).
    + discriminate.
    + intros _. apply Z.leb_gt in Ez.
      cbn [SurgeEmitter.count SurgeEmitter.set_fire_t]. split; [reflexivity | lia].
Qed.

(** X16. [SurgeEmitter.update]: an inactive emitter does nothing. An
    active one fires at most one surge per call, a natural,
    non-piercing surge of damage 1 entering at the edge of its lane and
    heading along it; each shot lowers the count by one, and the emitter
    stays active only while shots are left. Lane, axis and direction do
    not change during a train. *)
Theorem emitter_fires_one_per_update (dt : Q) (m : SurgeEmitter.t)
    (g : Game.t) :
  let m' := fst (Game.emitter_update dt m g) in
  let g' := snd (Game.emitter_update dt m g) in
  (SurgeEmitter.active m = false -> m' = m /\ g' = g) /\
  (exists new,
      Game.surges g' = Game.surges g ++ new /\ (length new <= 1)%nat /\
      Forall (fun s => Surge.owner s = natural /\
                       Surge.dir s = cardinal_from (SurgeEmitter.dir m) /\
                       Surge.speed s = SURGE_SPEED_NATURAL /\
                       Surge.dmg s = 1%Z /\ Surge.pierce s = false /\
                       match SurgeEmitter.axis m with
                       | row => vy (Surge.pos s) = SurgeEmitter.x_or_y m /\
                                (vx (Surge.pos s) = 12 \/ vx (Surge.pos s) = W - 12)
                       | col => vx (Surge.pos s) = SurgeEmitter.x_or_y m /\
                                (vy (Surge.pos s) = 12 \/ vy (Surge.pos s) = H - 12)
                       end) new /\
      SurgeEmitter.count m' = (SurgeEmitter.count m - Z.of_nat (length new))%Z) /\
  (SurgeEmitter.active m' = true ->
   SurgeEmitter.active m = true /\ (0 < SurgeEmitter.count m')%Z) /\
  SurgeEmitter.axis m' = SurgeEmitter.axis m /\
  SurgeEmitter.dir m' = SurgeEmitter.dir m /\
  SurgeEmitter.x_or_y m' = SurgeEmitter.x_or_y m /\
  Game.emit_row g' = Game.emit_row g /\ Game.emit_col g' = Game.emit_col g.
Proof. apply emitter_update_spec. Qed.

(** The theorem at an emitter that was never scheduled. *)
Lemma emitter_fires_one_per_update_witness :
  fst (Game.emitter_update (1 # 60) (SurgeEmitter.new row) playing) =
    SurgeEmitter.new row /\
  snd (Game.emitter_update (1 # 60) (SurgeEmitter.new row) playing) = playing.
Proof.
  apply (proj1 (emitter_fires_one_per_update (1 # 60) (SurgeEmitter.new row)
                  playing)).
  reflexivity.
Defined.

(** X17. The natural-surge pass keeps at most one train running: if at
    most one emitter is active before, at most one is after. While a
    train runs the timer between trains stands still; with no train
    running it counts down by [dt], and no train starts while it is
    still positive. *)
Theorem natural_phase_one_train (dt : Q) (g : Game.t) :
  (one_train g -> one_train (Game.natural_phase dt g)) /\
  (SurgeEmitter.active (Game.emit_row g) = true \/
   SurgeEmitter.active (Game.emit_col g) = true ->
   Game.nat_timer (Game.natural_phase dt g) = Game.nat_timer g) /\
  (SurgeEmitter.active (Game.emit_row g) = false ->
   SurgeEmitter.active (Game.emit_col g) = false ->
   0 < Game.nat_timer g - dt ->
   Game.nat_timer (Game.natural_phase dt g) = Game.nat_timer g - dt /\
   SurgeEmitter.active (Game.emit_row (Game.natural_phase dt g)) = false /\
   SurgeEmitter.active (Game.emit_col (Game.natural_phase dt g)) = false /\
   Game.surges (Game.natural_phase dt g) = Game.surges g).
Proof.
  unfold Game.natural_phase.
  set (g1 := if negb _ then _ else g).
  assert (Htail : forall x : Game.t,
     let y := (let (mr, g2) := Game.emitter_update dt (Game.emit_row x) x in
               let g3 := Game.set_emit_row mr g2 in
               let (mc, g4) := Game.emitter_update dt (Game.emit_col g3) g3 in
               Game.set_emit_col mc g4) in
     (SurgeEmitter.active (Game.emit_row y) = true ->
      SurgeEmitter.active (Game.emit_row x) = true) /\
     (SurgeEmitter.active (Game.emit_col y) = true ->
      SurgeEmitter.active (Game.emit_col x) = true) /\
     Game.nat_timer y = Game.nat_timer x /\
     (SurgeEmitter.active (Game.emit_row x) = false ->
      SurgeEmitter.active (Game.emit_col x) = false ->
      Game.surges y = Game.surges x)).
  { intros x. cbn zeta.
    pose proof (emitter_update_spec dt (Game.emit_row x) x) as Hr.
    cbn zeta in Hr.
    assert (Tr : Game.nat_timer (snd (Game.emitter_update dt (Game.emit_row x) x))
                 = Game.nat_timer x).
    { unfold Game.emitter_update. break_lets; reflexivity. }
    destruct (Game.emitter_update dt (Game.emit_row x) x) as [mr g2].
    cbn [fst snd] in Hr, Tr.
    destruct Hr as (Hoff & _ & Hact & _ & _ & _ & Er & Ec).
    pose proof (emitter_update_spec dt (Game.emit_col (Game.set_emit_row mr g2))
                  (Game.set_emit_row mr g2)) as Hc.
    cbn zeta in Hc.
    assert (Tc : Game.nat_timer
                   (snd (Game.emitter_update dt
                           (Game.emit_col (Game.set_emit_row mr g2))
                           (Game.set_emit_row mr g2)))
                 = Game.nat_timer (Game.set_emit_row mr g2)).
    { unfold Game.emitter_update. break_lets; reflexivity. }
    destruct (Game.emitter_update dt (Game.emit_col (Game.set_emit_row mr g2))
                (Game.set_emit_row mr g2)) as [mc g4].
    cbn [fst snd Game.emit_row Game.emit_col Game.set_emit_row
         Game.nat_timer Game.surges] in Hc, Tc.
    destruct Hc as (Hoff2 & _ & Hact2 & _ & _ & _ & Er2 & Ec2).
    cbn [Game.emit_row Game.emit_col Game.set_emit_col Game.nat_timer
         Game.surges].
    split; [|split; [|split]].
    - rewrite Er2. intro A. now apply Hact.
    - intro A. rewrite <- Ec. now apply Hact2.
    - congruence.
    - intros A B. destruct (Hoff A) as [E1 E2].
      destruct Hoff2 as [_ E4]; [rewrite Ec; exact B|].
      rewrite E4. cbn [Game.surges Game.set_emit_row]. now rewrite E2. }
  specialize (Htail g1). cbn zeta in Htail.
  match type of Htail with
  | (SurgeEmitter.active (Game.emit_row ?Y) = true -> _) /\ _ =>
      set (y := Y) in *
  end.
  clearbody y.
  destruct Htail as (Tr & Tc & Tt & Ts).
  split; [|split].
  - intro Hone. unfold one_train in *.
    assert (H1 : SurgeEmitter.active (Game.emit_row g1) = false \/
                 SurgeEmitter.active (Game.emit_col g1) = false).
    { unfold g1.
      destruct (SurgeEmitter.active (Game.emit_row g)) eqn:Ar;
        destruct (SurgeEmitter.active (Game.emit_col g)) eqn:Ac;
        cbn [orb negb]; try (destruct Hone; congruence); auto.
      cbn [Game.nat_timer Game.set_nat_timer].
      destruct (Qle_bool (Game.nat_timer g - dt) 0);
        [|cbn [Game.emit_row Game.emit_col Game.set_nat_timer]; auto].
      unfold random, rand_between, uniform.
      cbn [Game.rng Game.set_nat_timer].
      match goal with |- context [Qltb ?a ?b] => destruct (Qltb a b) end.
      - destruct (SurgeEmitter.schedule _ _) as [m r2].
        unfold random. cbn. right. exact Ac.
      - destruct (SurgeEmitter.schedule _ _) as [m r2].
        unfold random. cbn. left. exact Ar. }
    destruct (SurgeEmitter.active (Game.emit_row y)) eqn:A1; [|now left].
    destruct (SurgeEmitter.active (Game.emit_col y)) eqn:A2; [|now right].
    specialize (Tr eq_refl). specialize (Tc eq_refl).
    destruct H1; congruence.
  - intro Hact. rewrite Tt. unfold g1.
    destruct (SurgeEmitter.active (Game.emit_row g));
      destruct (SurgeEmitter.active (Game.emit_col g)); cbn [orb negb];
      try reflexivity.
    destruct Hact; discriminate.
  - intros Ar Ac Ht.
    assert (E1 : g1 = Game.set_nat_timer (Game.nat_timer g - dt) g).
    { unfold g1. rewrite Ar, Ac. cbn [orb negb Game.nat_timer Game.set_nat_timer].
      destruct (Qle_bool (Game.nat_timer g - dt) 0) eqn:E; [|reflexivity].
      apply Qle_bool_iff in E. exfalso. lra. }
    rewrite E1 in *.
    cbn [Game.emit_row Game.emit_col Game.nat_timer Game.surges
         Game.set_nat_timer] in *.
    split; [exact Tt|]. split; [|split].
    + destruct (SurgeEmitter.active (Game.emit_row y)); [|reflexivity].
      specialize (Tr eq_refl). congruence.
    + destruct (SurgeEmitter.active (Game.emit_col y)); [|reflexivity].
      specialize (Tc eq_refl). congruence.
    + now apply Ts.
Qed.

(** The theorem at a game in play: sectors start without a train. *)
Lemma natural_phase_one_train_witness :
  one_train (Game.natural_phase (1 # 60) playing).
Proof.
  apply (proj1 (natural_phase_one_train (1 # 60) playing)).
  left. reflexivity.
Defined.

(** ** When the passes do nothing *)

Lemma mitosis_idle (g : Game.t) :
  (MAX_ENEMIES_ON_FIELD <= length (Game.enemies g))%nat \/
  (forall i j ei ej,
      (i < j)%nat ->
      nth_error (Game.enemies g) i = Some ei ->
      nth_error (Game.enemies g) j = Some ej ->
      no_mitosis ei ej = true) ->
  Game.handle_enemy_mitosis g = g.
Proof.
  intro Hcond. unfold Game.handle_enemy_mitosis.
  set (n := length (Game.enemies g)).
  assert (Hinv : fold_left (Game.mitosis_row n) (seq 0 n) (g, []) = (g, [])).
  { apply (fold_left_inv (fun st => st = (g, []))); [|reflexivity].
    intros st i _ Hst. subst st. unfold Game.mitosis_row.
    apply (fold_left_inv (fun st => st = (g, []))); [|reflexivity].
    intros st j Hj Hst. subst st. apply in_seq in Hj.
    unfold Game.mitosis_pair.
    destruct (nth_error (Game.enemies g) i) as [ei|] eqn:Ei; [|reflexivity].
    destruct (nth_error (Game.enemies g) j) as [ej|] eqn:Ej; [|reflexivity].
    destruct (negb (Enemy.same_type ei ej)) eqn:T; [reflexivity|].
    destruct (Qltb 0 (Enemy.rep_cd ei) || Qltb 0 (Enemy.rep_cd ej)) eqn:C;
      [reflexivity|].
    destruct (within _ _ _) eqn:Wi; [|reflexivity].
    destruct Hcond as [Hcap | Hno].
    - cbn [length]. rewrite Nat.add_0_r.
      apply Nat.leb_le in Hcap. now rewrite Hcap.
    - specialize (Hno i j ei ej ltac:(lia) Ei Ej).
      unfold no_mitosis in Hno. rewrite T, C, Wi in Hno. discriminate. }
  now rewrite Hinv.
Qed.

(** X18. The mitosis pass leaves the game exactly as it is when the field
    is at or above the cap, and when no pair of enemies qualifies, that
    is when every two of them differ in class, or have a cooldown
    running, or are further apart than the sum of their radii. *)
Theorem mitosis_pass_idle (g : Game.t) :
  (MAX_ENEMIES_ON_FIELD <= length (Game.enemies g))%nat \/
  (forall i j ei ej,
      (i < j)%nat ->
      nth_error (Game.enemies g) i = Some ei ->
      nth_error (Game.enemies g) j = Some ej ->
      no_mitosis ei ej = true) ->
  Game.handle_enemy_mitosis g = g.
Proof. apply mitosis_idle. Qed.

(** The theorem at sector 14, which starts above the cap. *)
Lemma mitosis_pass_idle_witness :
  Game.handle_enemy_mitosis sector14 = sector14.
Proof.
  apply mitosis_pass_idle. left.
  rewrite (proj2 (proj2 (proj2 sector14_built))).
  unfold MAX_ENEMIES_ON_FIELD. lia.
Defined.

Lemma cancels_idle (g : Game.t) :
  (forall i j si sj,
      (i < j)%nat ->
      nth_error (Game.surges g) i = Some si ->
      nth_error (Game.surges g) j = Some sj ->
      Game.clash si sj && Game.in_cancel_range si sj = false) ->
  Game.handle_surge_cancels g = g.
Proof.
  intro Hno. unfold Game.handle_surge_cancels, Game.cancel_rows.
  assert (Hinv : fold_left (Game.cancel_row (Game.surges g))
                   (seq 0 (length (Game.surges g))) ([], g) = ([], g)).
  { apply (fold_left_inv (fun st => st = ([], g))); [|reflexivity].
    intros st i _ Hst. subst st. unfold Game.cancel_row. cbn [fst Game.in_dead existsb].
    destruct (nth_error (Game.surges g) i) as [si|] eqn:Ei; [|reflexivity].
    apply (fold_left_inv (fun st => st = ([], g))); [|reflexivity].
    intros st j Hj Hst. subst st. apply in_seq in Hj.
    unfold Game.cancel_pair. cbn [fst Game.in_dead existsb].
    destruct (nth_error (Game.surges g) j) as [sj|] eqn:Ej; [|reflexivity].
    specialize (Hno i j si sj ltac:(lia) Ei Ej).
    destruct (Game.clash si sj); [|reflexivity].
    cbn [andb] in Hno. now rewrite Hno. }
  now rewrite Hinv.
Qed.

(** X19. The cancellation pass never adds or reorders surges: the list
    after it is no longer than before and holds only surges of the list
    before. It leaves the game exactly as it is when no friendly surge
    is within range of a hostile one; in particular when all surges are
    friendly, or all hostile. *)
Theorem cancel_pass_only_removes (g : Game.t) :
  (length (Game.surges (Game.handle_surge_cancels g))
   <= length (Game.surges g))%nat /\
  (forall s, In s (Game.surges (Game.handle_surge_cancels g)) ->
             In s (Game.surges g)) /\
  ((forall i j si sj,
       (i < j)%nat ->
       nth_error (Game.surges g) i = Some si ->
       nth_error (Game.surges g) j = Some sj ->
       Game.clash si sj && Game.in_cancel_range si sj = false) ->
   Game.handle_surge_cancels g = g) /\
  ((forall s, In s (Game.surges g) -> Game.is_foe (Surge.owner s) = false) ->
   Game.handle_surge_cancels g = g) /\
  ((forall s, In s (Game.surges g) -> Game.is_friend (Surge.owner s) = false) ->
   Game.handle_surge_cancels g = g).
Proof.
  rewrite handle_surge_cancels_surges.
  destruct (remove_dead_sub (cancel_dead g) 0 (Game.surges g)) as [L I].
  split; [exact L|]. split; [exact I|].
  split; [apply cancels_idle|]. split.
  - intro Hall. apply cancels_idle. intros i j si sj _ Hi Hj.
    apply nth_error_In in Hi, Hj. unfold Game.clash.
    rewrite (Hall si Hi), (Hall sj Hj). now rewrite !andb_false_r.
  - intro Hall. apply cancels_idle. intros i j si sj _ Hi Hj.
    apply nth_error_In in Hi, Hj. unfold Game.clash.
    rewrite (Hall si Hi), (Hall sj Hj). reflexivity.
Qed.

(** The theorem at a game whose only surge is a player shot: no hostile
    surge, so the pass changes nothing. *)
Lemma cancel_pass_only_removes_witness :
  Game.handle_surge_cancels shot_at_virus = shot_at_virus.
Proof.
  destruct (cancel_pass_only_removes shot_at_virus) as (_ & _ & _ & Hf & _).
  apply Hf. intros s Hs.
  unfold shot_at_virus in Hs. cbn [Game.surges Game.set_surges] in Hs.
  destruct Hs as [<- | []]. reflexivity.
Defined.

(** ** Firing *)

(** X20. Normal fire: without the button or SPACE, or with the cooldown
    still running, the pass does nothing. With the button and the
    cooldown elapsed it appends exactly one surge: owned by the player,
    at the hero's position, along an axis, with the standard radius,
    lifetime, speed and damage, not piercing; and it sets the cooldown to
    HERO_SHOT_CD, so that the pass run again at once fires nothing. *)
Theorem fire_phase_one_shot (inp : Input) (g : Game.t) :
  ((mouse_left inp || keys inp K_SPACE = false \/ 0 < Hero.cd (Game.hero g)) ->
   Game.fire_phase inp g = g) /\
  (mouse_left inp || keys inp K_SPACE = true -> Hero.cd (Game.hero g) <= 0 ->
   exists s,
     Game.surges (Game.fire_phase inp g) = Game.surges g ++ [s] /\
     Surge.owner s = player /\ Surge.pos s = Hero.pos (Game.hero g) /\
     is_cardinal (Surge.dir s) /\
     Surge.r s = SURGE_R /\ Surge.ttl s = SURGE_LEN /\
     Surge.speed s = SURGE_SPEED_PLAYER /\
     Surge.dmg s = 1%Z /\ Surge.pierce s = false /\
     Hero.cd (Game.hero (Game.fire_phase inp g)) = HERO_SHOT_CD /\
     Game.enemies (Game.fire_phase inp g) = Game.enemies g /\
     Game.score (Game.fire_phase inp g) = Game.score g) /\
  Game.fire_phase inp (Game.fire_phase inp g) = Game.fire_phase inp g.
Proof.
  assert (Hshot : forall x, mouse_left inp || keys inp K_SPACE = true ->
            Hero.can_shoot (Game.hero x) = true ->
            Hero.cd (Game.hero (Game.fire_phase inp x)) = HERO_SHOT_CD).
  { intros x Hb Hc. unfold Game.fire_phase. rewrite Hb, Hc. cbn [andb].
    unfold Hero.shoot.
    match goal with |- context [Game.add_shake ?a ?y] =>
      destruct (add_shake_keeps a y) as (_ & Eh & _) end.
    rewrite Eh. reflexivity. }
  assert (Hidle : forall x,
            (mouse_left inp || keys inp K_SPACE = false \/ 0 < Hero.cd (Game.hero x)) ->
            Game.fire_phase inp x = x).
  { intros x Hx. unfold Game.fire_phase, Hero.can_shoot.
    destruct Hx as [Hx | Hx].
    - now rewrite Hx.
    - destruct (Qle_bool (Hero.cd (Game.hero x)) 0) eqn:E.
      + apply Qle_bool_iff in E. exfalso. lra.
      + now rewrite andb_false_r. }
  split; [apply Hidle|]. split.
  - intros Hb Hc.
    assert (Hcs : Hero.can_shoot (Game.hero g) = true)
      by (unfold Hero.can_shoot; now apply Qle_bool_iff).
    pose proof (Hshot g Hb Hcs) as Hcd.
    unfold Game.fire_phase in *. rewrite Hb, Hcs in *. cbn [andb] in *.
    unfold Hero.shoot in *.
    match goal with |- context [Game.add_shake ?a ?y] =>
      destruct (add_shake_keeps a y) as (_ & Eh & Ee & Es & _ & Esc) end.
    rewrite Es, Ee, Esc.
    cbn [Game.surges Game.enemies Game.score Game.sfx_play Game.set_sfx_log
         Game.set_surges Game.set_hero].
    eexists. split; [reflexivity|].
    unfold Surge.new.
    cbn [Surge.owner Surge.pos Surge.dir Surge.r Surge.ttl Surge.speed
         Surge.dmg Surge.pierce Hero.pos Hero.set_cd].
    repeat split; try reflexivity.
    + apply (proj1 cardinal_from_spec).
    + exact Hcd.
  - destruct (mouse_left inp || keys inp K_SPACE) eqn:Hb;
      [|rewrite (Hidle g) by (now left); apply Hidle; now left].
    destruct (Hero.can_shoot (Game.hero g)) eqn:Hc.
    + apply Hidle. right. rewrite (Hshot g eq_refl Hc). unfold HERO_SHOT_CD. lra.
    + assert (E : Game.fire_phase inp g = g)
        by (unfold Game.fire_phase; now rewrite Hb, Hc).
      now rewrite !E.
Qed.

(** The theorem at a game in play with the button held. *)
Lemma fire_phase_one_shot_witness :
  length (Game.surges (Game.fire_phase (mkInput (fun _ => false) (mkVec 0 0) true)
                         playing)) = 1%nat.
Proof.
  destruct (fire_phase_one_shot (mkInput (fun _ => false) (mkVec 0 0) true) playing)
    as (_ & Hf & _).
  destruct Hf as (s & E & _).
  - reflexivity.
  - vm_compute. discriminate.
  - rewrite E. reflexivity.
Defined.

(** X21. The blast trigger does nothing while the meter is below OC_MAX,
    whatever the keys, and nothing without a shift key; and since a blast
    empties the meter, the trigger run again at once does nothing: one
    full meter gives one blast. *)
Theorem blast_needs_full_meter (inp : Input) (g : Game.t) :
  ((Hero.oc_meter (Game.hero g) < OC_MAX)%Z -> Game.blast_phase inp g = g) /\
  (keys inp K_LSHIFT = false -> keys inp K_RSHIFT = false ->
   Game.blast_phase inp g = g) /\
  Game.blast_phase inp (Game.blast_phase inp g) = Game.blast_phase inp g.
Proof.
  assert (Hlow : forall x, (Hero.oc_meter (Game.hero x) < OC_MAX)%Z ->
                           Game.blast_phase inp x = x).
  { intros x Hx. unfold Game.blast_phase, Hero.ready_overclock.
    apply Z.leb_gt in Hx. rewrite Hx. now rewrite andb_false_r. }
  split; [apply Hlow|]. split.
  - intros E1 E2. unfold Game.blast_phase. now rewrite E1, E2.
  - destruct ((keys inp K_LSHIFT || keys inp K_RSHIFT)
              && Hero.ready_overclock (Game.hero g)) eqn:E.
    + assert (Eb : Game.blast_phase inp g =
                   Game.add_shake OC_BLAST_SHAKE_STRENGTH
                     (Game.set_oc_blast_timer OC_BLAST_SHAKE_TIME
                        (Game.fire_overclock_blast g)))
        by (unfold Game.blast_phase; now rewrite E).
      rewrite Eb. apply Hlow.
      match goal with |- context [Game.add_shake ?a ?y] =>
        destruct (add_shake_keeps a y) as (_ & Eh & _) end.
      rewrite Eh. cbn. unfold OC_MAX. lia.
    + assert (Eb : Game.blast_phase inp g = g)
        by (unfold Game.blast_phase; now rewrite E).
      now rewrite !Eb.
Qed.

(** The theorem at a fresh hero with shift held: no blast. *)
Lemma blast_needs_full_meter_witness :
  Game.blast_phase shift_held playing = playing.
Proof.
  apply (proj1 (blast_needs_full_meter shift_held playing)).
  vm_compute. reflexivity.
Defined.

(** ** Hazards *)

(** X22. Glitch decay: the hazards left are the earlier ones whose
    strength exceeds [dt/2], in the same order and place, each weaker by
    exactly [dt/2], so the [max(0, .)] of the code never takes effect.
    All of them are still of positive strength, none is new, and hazards
    of strength at most 1 (a Worm drops them at 1) are all gone once
    [dt] reaches 2. *)
Theorem glitch_decay_fades (dt : Q) (g : Game.t) :
  Game.glitches (Game.glitch_decay dt g) =
    map (fun pa => (fst pa, snd pa - dt * (1 # 2)))
        (filter (fun pa => Qltb 0 (snd pa - dt * (1 # 2))) (Game.glitches g)) /\
  Forall (fun pa => 0 < snd pa) (Game.glitches (Game.glitch_decay dt g)) /\
  (length (Game.glitches (Game.glitch_decay dt g))
   <= length (Game.glitches g))%nat /\
  (forall p a, In (p, a) (Game.glitches (Game.glitch_decay dt g)) ->
               exists a0, In (p, a0) (Game.glitches g) /\
                          a = a0 - dt * (1 # 2)) /\
  (2 <= dt ->
   Forall (fun pa => snd pa <= 1) (Game.glitches g) ->
   Game.glitches (Game.glitch_decay dt g) = []).
Proof.
  unfold Game.glitch_decay. cbn [Game.glitches Game.set_glitches].
  set (keep := fun pa : Vec * Q => Qltb 0 (snd pa - dt * (1 # 2))).
  assert (Emap : map (fun pa : Vec * Q => (fst pa, pymax 0 (snd pa - dt * (1 # 2))))
                     (filter keep (Game.glitches g)) =
                 map (fun pa => (fst pa, snd pa - dt * (1 # 2)))
                     (filter keep (Game.glitches g))).
  { apply map_ext_in. intros pa Hin. apply filter_In in Hin.
    destruct Hin as [_ Hk]. unfold keep in Hk. unfold pymax. now rewrite Hk. }
  rewrite Emap. split; [reflexivity|]. split; [|split; [|split]].
  - apply Forall_forall. intros pa Hin. apply in_map_iff in Hin.
    destruct Hin as (pa0 & E & Hin). apply filter_In in Hin.
    destruct Hin as [_ Hk]. subst pa. cbn [snd]. now apply Qltb_true.
  - rewrite length_map. apply filter_length_le.
  - intros p a Hin. apply in_map_iff in Hin.
    destruct Hin as ([p0 a0] & E & Hin). apply filter_In in Hin.
    destruct Hin as [Hin _]. cbn [fst snd] in E. inversion E. subst.
    exists a0. split; [exact Hin | reflexivity].
  - intros Hdt Hall.
    assert (Enil : filter keep (Game.glitches g) = []).
    { revert Hall. generalize (Game.glitches g). intros l Hall.
      induction Hall as [|pa l Hpa _ IH]; [reflexivity|].
      cbn [filter].
      assert (Hk : keep pa = false) by (unfold keep; apply Qltb_false; lra).
      now rewrite Hk. }
    now rewrite Enil.
Qed.

(** The theorem at one fresh hazard and two seconds. *)
Lemma glitch_decay_fades_witness :
  Game.glitches
    (Game.glitch_decay 2 (Game.spawn_glitch (mkVec 96 96) playing)) = [].
Proof.
  apply (proj2 (proj2 (proj2 (proj2
           (glitch_decay_fades 2 (Game.spawn_glitch (mkVec 96 96) playing)))))).
  - lra.
  - apply Forall_cons; [cbn [snd]; lra | apply Forall_nil].
Defined.

(** ** Surge hits *)

Lemma hit_enemies_removed (s : Surge.t) (rest : list Enemy.t) :
  forall kept added g,
    snd (fst (Game.hit_enemies s kept rest added g)) =
    negb (Surge.pierce s) && existsb (touches s) rest.
Proof.
  induction rest as [|e rest IH]; intros kept added g.
  - cbn. now rewrite andb_false_r.
  - cbn [Game.hit_enemies existsb]. fold (touches s e).
    destruct (touches s e) eqn:T.
    + destruct (Enemy.take_damage (Surge.dmg s) e) as [died e1].
      cbv zeta.
      match goal with
      | |- context [if died then ?A else ?B] =>
          set (X := if died then A else B)
      end.
      destruct X as [[k' a'] g3].
      destruct (Surge.pierce s) eqn:P; cbn [negb].
      * rewrite IH. reflexivity.
      * reflexivity.
    + rewrite IH. reflexivity.
Qed.

Lemma hit_enemies_miss (s : Surge.t) (rest : list Enemy.t) :
  forall kept added g,
    existsb (touches s) rest = false ->
    Game.hit_enemies s kept rest added g = (kept ++ rest ++ added, false, g).
Proof.
  induction rest as [|e rest IH]; intros kept added g Hn.
  - reflexivity.
  - cbn [existsb] in Hn. apply orb_false_iff in Hn. destruct Hn as [T Hn].
    cbn [Game.hit_enemies]. fold (touches s e). rewrite T.
    rewrite IH by exact Hn. now rewrite <- app_assoc.
Qed.

Lemma set_enemies_same (g : Game.t) : Game.set_enemies (Game.enemies g) g = g.
Proof. now destruct g. Qed.

Lemma set_surges_same (g : Game.t) : Game.set_surges (Game.surges g) g = g.
Proof. now destruct g. Qed.

Lemma hit_surge_spec (s : Surge.t) (g : Game.t) :
  (Game.is_friend (Surge.owner s) = true ->
   fst (Game.hit_surge s g) =
     Surge.pierce s || negb (existsb (touches s) (Game.enemies g))) /\
  (Game.is_friend (Surge.owner s) = true ->
   existsb (touches s) (Game.enemies g) = false ->
   snd (Game.hit_surge s g) = g) /\
  (Game.is_friend (Surge.owner s) = false ->
   fst (Game.hit_surge s g) = negb (reaches_hero g s)) /\
  (Game.is_friend (Surge.owner s) = false -> reaches_hero g s = false ->
   snd (Game.hit_surge s g) = g) /\
  (Game.is_friend (Surge.owner s) = false ->
   Game.enemies (snd (Game.hit_surge s g)) = Game.enemies g /\
   Game.score (snd (Game.hit_surge s g)) = Game.score g /\
   (Hero.hp (Game.hero g) - 1 <= Hero.hp (Game.hero (snd (Game.hit_surge s g)))
    <= Hero.hp (Game.hero g))%Z).
Proof.
  split; [|split; [|split; [|split]]].
  - intro F. unfold Game.hit_surge. rewrite F.
    pose proof (hit_enemies_removed s (Game.enemies g) [] [] g) as Hr.
    destruct (Game.hit_enemies s [] (Game.enemies g) [] g) as [[es removed] g1].
    cbn [fst snd] in *. rewrite Hr.
    destruct (Surge.pierce s), (existsb (touches s) (Game.enemies g)); reflexivity.
  - intros F Hn. unfold Game.hit_surge. rewrite F.
    rewrite (hit_enemies_miss s (Game.enemies g) [] [] g Hn).
    cbn [fst snd app]. rewrite app_nil_r. apply set_enemies_same.
  - intro F. unfold Game.hit_surge. rewrite F. fold (reaches_hero g s).
    destruct (reaches_hero g s); [|reflexivity].
    destruct (Hero.hurt (Game.hero g)) as [landed h]. reflexivity.
  - intros F Hn. unfold Game.hit_surge. rewrite F. fold (reaches_hero g s).
    now rewrite Hn.
  - intro F. unfold Game.hit_surge. rewrite F. fold (reaches_hero g s).
    destruct (reaches_hero g s); [|cbn [snd]; repeat split; lia].
    unfold Hero.hurt.
    destruct (Qltb 0 (Hero.ifr (Game.hero g))); cbn [snd].
    + cbn. repeat split; lia.
    + match goal with |- context [Game.add_shake ?a ?y] =>
        destruct (add_shake_keeps a y) as (_ & Eh & Ee & _ & _ & Esc) end.
      rewrite Eh, Ee, Esc. cbn. repeat split; lia.
Qed.

(** X23. What one surge does in [handle_surge_hits]. A player or blast
    surge stays in flight exactly when it pierces or touches no enemy,
    and touching none it changes nothing. An enemy or natural surge stays
    exactly when it does not reach the hero, and then changes nothing;
    when it reaches the hero it is used up whether or not the hit lands
    (the hero may be invulnerable), costs at most one health point, and
    leaves enemies and score alone. *)
Theorem surge_hit_rule (s : Surge.t) (g : Game.t) :
  (Game.is_friend (Surge.owner s) = true ->
   fst (Game.hit_surge s g) =
     Surge.pierce s || negb (existsb (touches s) (Game.enemies g))) /\
  (Game.is_friend (Surge.owner s) = true ->
   existsb (touches s) (Game.enemies g) = false ->
   snd (Game.hit_surge s g) = g) /\
  (Game.is_friend (Surge.owner s) = false ->
   fst (Game.hit_surge s g) = negb (reaches_hero g s)) /\
  (Game.is_friend (Surge.owner s) = false -> reaches_hero g s = false ->
   snd (Game.hit_surge s g) = g) /\
  (Game.is_friend (Surge.owner s) = false ->
   Game.enemies (snd (Game.hit_surge s g)) = Game.enemies g /\
   Game.score (snd (Game.hit_surge s g)) = Game.score g /\
   (Hero.hp (Game.hero g) - 1 <= Hero.hp (Game.hero (snd (Game.hit_surge s g)))
    <= Hero.hp (Game.hero g))%Z).
Proof. apply hit_surge_spec. Qed.

(** The theorem at a player shot on a weak Virus: the shot is used up. *)
Lemma surge_hit_rule_witness :
  fst (Game.hit_surge shot_P shot_at_virus) = false.
Proof.
  rewrite (proj1 (surge_hit_rule shot_P shot_at_virus)) by reflexivity.
  vm_compute. reflexivity.
Defined.

Lemma hit_surges_spec (copy : list Surge.t) :
  forall g,
    (forall s, In s (fst (Game.hit_surges copy g)) -> In s copy) /\
    (length (fst (Game.hit_surges copy g)) <= length copy)%nat /\
    (forall s, In s copy -> Game.is_friend (Surge.owner s) = true ->
               Surge.pierce s = true ->
               In s (fst (Game.hit_surges copy g))) /\
    ((forall s, In s copy ->
                if Game.is_friend (Surge.owner s)
                then existsb (touches s) (Game.enemies g) = false
                else reaches_hero g s = false) ->
     Game.hit_surges copy g = (copy, g)).
Proof.
  induction copy as [|s rest IH]; intro g.
  - cbn. repeat split; auto.
  - cbn [Game.hit_surges].
    destruct (hit_surge_spec s g) as (Hf1 & Hf2 & Hh1 & Hh2 & _).
    destruct (Game.hit_surge s g) as [stays g1] eqn:Es. cbn [fst snd] in *.
    destruct (IH g1) as (I1 & I2 & I3 & I4).
    destruct (Game.hit_surges rest g1) as [left g2] eqn:Er. cbn [fst snd] in *.
    split; [|split; [|split]].
    + intros x Hx. destruct stays.
      * destruct Hx as [Hx | Hx]; [now left | right; now apply I1].
      * right. now apply I1.
    + destruct stays; cbn [length]; lia.
    + intros x [Hx | Hx] F P.
      * subst x. rewrite (Hf1 F), P. now left.
      * destruct stays; [right|]; now apply I3.
    + intro Hall.
      assert (Hs := Hall s (or_introl eq_refl)).
      destruct (Game.is_friend (Surge.owner s)) eqn:F.
      * rewrite (Hf1 eq_refl), Hs, orb_true_r.
        rewrite (Hf2 eq_refl Hs) in I4.
        assert (E := I4 (fun x Hx => Hall x (or_intror Hx))).
        injection E as -> ->. reflexivity.
      * rewrite (Hh1 eq_refl), Hs. cbn [negb].
        rewrite (Hh2 eq_refl Hs) in I4.
        assert (E := I4 (fun x Hx => Hall x (or_intror Hx))).
        injection E as -> ->. reflexivity.
Qed.

(** X24. The hit pass over all surges only uses surges up: every surge
    left was there before, and none is added. A piercing player or blast
    surge is never used up, so the four surges of an OVERCLOCK BLAST
    outlive every hit. And when no friendly surge touches an enemy and no
    hostile surge reaches the hero, the pass changes nothing at all. *)
Theorem hit_pass_spares_piercing (g : Game.t) :
  (forall s, In s (Game.surges (Game.handle_surge_hits g)) ->
             In s (Game.surges g)) /\
  (length (Game.surges (Game.handle_surge_hits g))
   <= length (Game.surges g))%nat /\
  (forall s, In s (Game.surges g) ->
             Game.is_friend (Surge.owner s) = true ->
             Surge.pierce s = true ->
             In s (Game.surges (Game.handle_surge_hits g))) /\
  ((forall s, In s (Game.surges g) ->
              if Game.is_friend (Surge.owner s)
              then existsb (touches s) (Game.enemies g) = false
              else reaches_hero g s = false) ->
   Game.handle_surge_hits g = g).
Proof.
  unfold Game.handle_surge_hits.
  destruct (hit_surges_spec (Game.surges g) g) as (I1 & I2 & I3 & I4).
  destruct (Game.hit_surges (Game.surges g) g) as [left g1] eqn:E.
  cbn [fst snd Game.surges Game.set_surges] in *.
  split; [exact I1|]. split; [exact I2|]. split; [exact I3|].
  intro Hall. specialize (I4 Hall). inversion I4. subst.
  apply set_surges_same.
Qed.

(** The theorem at a blast surge on top of a Virus: the surge is still
    in flight after the pass. *)
Lemma hit_pass_spares_piercing_witness :
  In (Surge.new (mkVec 96 96) RIGHT OC_SURGE_SPEED oc OC_SURGE_R
        OC_SURGE_TTL OC_SURGE_DMG true)
     (Game.surges
        (Game.handle_surge_hits
           (Game.set_surges
              [Surge.new (mkVec 96 96) RIGHT OC_SURGE_SPEED oc OC_SURGE_R
                 OC_SURGE_TTL OC_SURGE_DMG true]
              (Game.set_enemies [virus_at 96 2] playing)))).
Proof.
  apply (proj1 (proj2 (proj2 (hit_pass_spares_piercing _)))).
  - left. reflexivity.
  - reflexivity.
  - reflexivity.
Defined.

(** ** The enemies' turn *)

Lemma common_move_fields (dt sp : Q) (e : Enemy.t) (r : Rng) :
  let e' := fst (Enemy.common_move dt sp e r) in
  Enemy.kind e' = Enemy.kind e /\ Enemy.r e' = Enemy.r e /\
  Enemy.hp e' = Enemy.hp e /\ Enemy.shoot_t e' = Enemy.shoot_t e.
Proof.
  cbv zeta. unfold Enemy.common_move, random.
  set (c := if Qltb 0 (Enemy.rep_cd e) then _ else _). clearbody c.
  repeat split; step_move; reflexivity.
Qed.

Lemma new_default_enemy_shot (p d : Vec) (sp : Q) :
  enemy_shot (Surge.new_default p d sp enemy) /\
  Surge.pos (Surge.new_default p d sp enemy) = p.
Proof.
  unfold enemy_shot, Surge.new_default, Surge.new. cbn.
  repeat split. apply (proj1 cardinal_from_spec).
Qed.

Lemma same_body_refl_kind (e e' : Enemy.t) :
  Enemy.hp e' = Enemy.hp e -> Enemy.r e' = Enemy.r e ->
  Enemy.kind e' = Enemy.kind e -> same_body e e'.
Proof.
  intros Hh Hr Hk. unfold same_body. repeat split; auto.
  rewrite Hk. destruct (Enemy.kind e) as [t| |d]; auto. now exists d.
Qed.

(** What [e.update(dt, game)] gives for any enemy. *)
Lemma enemy_update_spec (dt : Q) (e : Enemy.t) (g : Game.t) :
  let e' := fst (fst (Game.enemy_update dt e g)) in
  let shots := snd (fst (Game.enemy_update dt e g)) in
  let g' := snd (Game.enemy_update dt e g) in
  same_body e e' /\
  (Enemy.shoot_t e - dt <= 0 -> length shots = volley e) /\
  (0 < Enemy.shoot_t e - dt ->
   shots = [] /\ Enemy.shoot_t e' = Enemy.shoot_t e - dt) /\
  Forall (fun s => enemy_shot s /\ Surge.pos s = Enemy.pos e') shots /\
  Game.hero g' = Game.hero g /\ Game.score g' = Game.score g /\
  Game.surges g' = Game.surges g /\ Game.enemies g' = Game.enemies g /\
  Game.state g' = Game.state g /\
  exists gl, Game.glitches g' = Game.glitches g ++ gl /\
             (length gl <= 1)%nat /\ Forall (fun pa => snd pa = 1) gl.
Proof.
  cbv zeta. unfold Game.enemy_update.
  destruct (Enemy.kind e) as [t| |d] eqn:K.
  - unfold Game.Virus_update.
    pose proof (common_move_fields dt VIRUS_SPEED e (Game.rng g)) as Hm.
    cbv zeta in Hm.
    destruct (Enemy.common_move dt VIRUS_SPEED e (Game.rng g)) as [e1 r1].
    cbn [fst] in Hm. destruct Hm as (Mk & Mr & Mh & Ms).
    cbv zeta. cbn [Enemy.shoot_t Enemy.set_shoot_t]. rewrite Ms.
    destruct (Qle_bool (Enemy.shoot_t e - dt) 0) eqn:Q0.
    + destruct (rand_between VIRUS_SHOOT_CD (Game.rng (Game.set_rng r1 g)))
        as [st r2].
      match goal with |- context [Game.add_shake ?a ?y] =>
        destruct (add_shake_keeps a y) as (Est & Eh & Ee & Es & Eg & Esc) end.
      cbn [fst snd]. rewrite Est, Eh, Ee, Es, Eg, Esc.
      split; [apply same_body_refl_kind; cbn; congruence|].
      split; [intros _; unfold volley; rewrite K; reflexivity|].
      split; [intro Hp; apply Qle_bool_iff in Q0; exfalso; lra|].
      split; [repeat (apply Forall_cons; [apply new_default_enemy_shot|]);
              apply Forall_nil|].
      cbn. repeat split. exists []. rewrite app_nil_r. repeat split; auto.
    + cbn [fst snd].
      split; [apply same_body_refl_kind; cbn; congruence|].
      split; [intro Hp; apply Qle_bool_iff in Hp; congruence|].
      split; [intros _; split; reflexivity|].
      split; [apply Forall_nil|].
      cbn. repeat split. exists []. rewrite app_nil_r. repeat split; auto.
  - unfold Game.Bug_update.
    pose proof (common_move_fields dt BUG_SPEED e (Game.rng g)) as Hm.
    cbv zeta in Hm.
    destruct (Enemy.common_move dt BUG_SPEED e (Game.rng g)) as [e1 r1].
    cbn [fst] in Hm. destruct Hm as (Mk & Mr & Mh & Ms).
    cbv zeta. cbn [Enemy.shoot_t Enemy.set_shoot_t]. rewrite Ms.
    destruct (Qle_bool (Enemy.shoot_t e - dt) 0) eqn:Q0.
    + destruct (rand_between BUG_SHOOT_CD (Game.rng (Game.set_rng r1 g)))
        as [st r2].
      cbn [fst snd].
      split; [apply same_body_refl_kind; cbn; congruence|].
      split; [intros _; unfold volley; rewrite K; reflexivity|].
      split; [intro Hp; apply Qle_bool_iff in Q0; exfalso; lra|].
      split; [repeat (apply Forall_cons; [apply new_default_enemy_shot|]);
              apply Forall_nil|].
      cbn. repeat split. exists []. rewrite app_nil_r. repeat split; auto.
    + cbn [fst snd].
      split; [apply same_body_refl_kind; cbn; congruence|].
      split; [intro Hp; apply Qle_bool_iff in Hp; congruence|].
      split; [intros _; split; reflexivity|].
      split; [apply Forall_nil|].
      cbn. repeat split. exists []. rewrite app_nil_r. repeat split; auto.
  - unfold Game.Worm_update.
    pose proof (common_move_fields dt WORM_SPEED e (Game.rng g)) as Hm.
    cbv zeta in Hm.
    destruct (Enemy.common_move dt WORM_SPEED e (Game.rng g)) as [e1 r1].
    cbn [fst] in Hm. destruct Hm as (Mk & Mr & Mh & Ms).
    cbv zeta.
    assert (Hdrop :
      exists drop2 g2,
        (if Qle_bool (d - dt) 0
         then let (d0, r2) :=
                uniform (35 # 100) (65 # 100)
                  (Game.rng (Game.spawn_glitch (Enemy.pos e1) (Game.set_rng r1 g))) in
              (d0, Game.set_rng r2
                     (Game.spawn_glitch (Enemy.pos e1) (Game.set_rng r1 g)))
         else (d - dt, Game.set_rng r1 g)) = (drop2, g2) /\
        Game.hero g2 = Game.hero g /\ Game.score g2 = Game.score g /\
        Game.surges g2 = Game.surges g /\ Game.enemies g2 = Game.enemies g /\
        Game.state g2 = Game.state g /\
        exists gl, Game.glitches g2 = Game.glitches g ++ gl /\
                   (length gl <= 1)%nat /\ Forall (fun pa => snd pa = 1) gl).
    { destruct (Qle_bool (d - dt) 0).
      - destruct (uniform (35 # 100) (65 # 100) _) as [d0 r2].
        eexists. eexists. split; [reflexivity|]. cbn. repeat split.
        exists [(Enemy.pos e1, 1)]. repeat split; auto.
      - eexists. eexists. split; [reflexivity|]. cbn. repeat split.
        exists []. rewrite app_nil_r. repeat split; auto. }
    destruct Hdrop as (drop2 & g2 & Ed & Gh & Gsc & Gs & Ge & Gst & Ggl).
    rewrite Ed. cbn [Enemy.shoot_t Enemy.set_shoot_t Enemy.set_kind]. rewrite Ms.
    assert (Hb : same_body e
                   (Enemy.set_shoot_t (Enemy.shoot_t e - dt)
                      (Enemy.set_kind (Worm drop2) e1))).
    { unfold same_body. rewrite K. cbn. repeat split; auto. now exists drop2. }
    destruct (Qle_bool (Enemy.shoot_t e - dt) 0) eqn:Q0.
    + destruct (rand_between WORM_SHOOT_CD (Game.rng g2)) as [st r3].
      match goal with |- context [Game.add_shake ?a ?y] =>
        destruct (add_shake_keeps a y) as (Est & Eh & Ee & Es & Eg & Esc) end.
      cbn [fst snd]. rewrite Est, Eh, Ee, Es, Eg, Esc.
      split; [exact Hb|].
      split; [intros _; unfold volley; rewrite K;
              destruct (Qltb 0 _); reflexivity|].
      split; [intro Hp; apply Qle_bool_iff in Q0; exfalso; lra|].
      split; [destruct (Qltb 0 _);
              repeat (apply Forall_cons; [apply new_default_enemy_shot|]);
              apply Forall_nil|].
      cbn. repeat split; auto.
    + cbn [fst snd].
      split; [exact Hb|].
      split; [intro Hp; apply Qle_bool_iff in Hp; congruence|].
      split; [intros _; split; reflexivity|].
      split; [apply Forall_nil|].
      repeat split; auto.
Qed.

Lemma update_enemies_spec (dt : Q) (es : list Enemy.t) :
  forall g,
    let es' := fst (fst (Game.update_enemies dt es g)) in
    let shots := snd (fst (Game.update_enemies dt es g)) in
    let g' := snd (Game.update_enemies dt es g) in
    Forall2 same_body es es' /\
    Forall enemy_shot shots /\
    (length shots <= 4 * length es)%nat /\
    ((forall e, In e es -> 0 < Enemy.shoot_t e - dt) -> shots = []) /\
    Game.hero g' = Game.hero g /\ Game.score g' = Game.score g /\
    Game.surges g' = Game.surges g /\ Game.state g' = Game.state g /\
    exists gl, Game.glitches g' = Game.glitches g ++ gl /\
               (length gl <= length es)%nat /\
               Forall (fun pa => snd pa = 1) gl.
Proof.
  induction es as [|e rest IH]; intro g; cbv zeta.
  - cbn. repeat split; auto. exists []. rewrite app_nil_r. repeat split; auto.
  - cbn [Game.update_enemies].
    pose proof (enemy_update_spec dt e g) as He. cbv zeta in He.
    destruct (Game.enemy_update dt e g) as [[e' shots] g1].
    cbn [fst snd] in He.
    destruct He as (Hb & Hv & Hq & Hs & Hh & Hsc & Hsu & _ & Hst & gl1 & Hg1 & Hl1 & Hf1).
    specialize (IH g1). cbv zeta in IH.
    destruct (Game.update_enemies dt rest g1) as [[rest' more] g2].
    cbn [fst snd] in IH |- *.
    destruct IH as (Ib & Is & Il & Iq & Ih & Isc & Isu & Ist & gl2 & Hg2 & Hl2 & Hf2).
    split; [now apply Forall2_cons|].
    split; [apply Forall_app; split; [|exact Is];
            eapply Forall_impl; [|exact Hs]; now intros s [Hs1 _]|].
    split.
    { rewrite length_app. cbn [length].
      assert (length shots <= 4)%nat.
      { destruct (Qlt_le_dec 0 (Enemy.shoot_t e - dt)) as [Hp | Hn].
        - destruct (Hq Hp) as [-> _]. cbn. lia.
        - rewrite (Hv Hn). unfold volley. destruct (Enemy.kind e); lia. }
      lia. }
    split.
    { intro Hall.
      destruct (Hq (Hall e (or_introl eq_refl))) as [-> _].
      cbn [app]. apply Iq. intros x Hx. apply Hall. now right. }
    split; [congruence|]. split; [congruence|]. split; [congruence|].
    split; [congruence|].
    exists (gl1 ++ gl2). rewrite Hg2, Hg1, app_assoc.
    split; [reflexivity|]. split.
    + rewrite length_app. cbn [length]. lia.
    + apply Forall_app. now split.
Qed.

(** X25. The enemies' turn in [Game.update]. No enemy appears or goes:
    the list keeps its length and order, and every enemy keeps its class,
    tier, radius and health. The surges already in flight stay, and the
    new ones come after them: all owned by the enemies, of damage 1, not
    piercing, along an axis, at most four per enemy, and none at all when
    no fire timer runs out within [dt]. Hero, score and state are not
    touched, and the hazards only grow, by at most one of strength 1 per
    enemy. *)
Theorem enemies_turn (dt : Q) (g : Game.t) :
  let g' := Game.enemies_phase dt g in
  Forall2 same_body (Game.enemies g) (Game.enemies g') /\
  (exists new,
      Game.surges g' = Game.surges g ++ new /\
      Forall enemy_shot new /\
      (length new <= 4 * length (Game.enemies g))%nat /\
      ((forall e, In e (Game.enemies g) -> 0 < Enemy.shoot_t e - dt) ->
       new = [])) /\
  Game.hero g' = Game.hero g /\ Game.score g' = Game.score g /\
  Game.state g' = Game.state g /\
  exists gl, Game.glitches g' = Game.glitches g ++ gl /\
             (length gl <= length (Game.enemies g))%nat /\
             Forall (fun pa => snd pa = 1) gl.
Proof.
  cbv zeta. unfold Game.enemies_phase.
  pose proof (update_enemies_spec dt (Game.enemies g) g) as Hu.
  cbv zeta in Hu.
  destruct (Game.update_enemies dt (Game.enemies g) g) as [[es shots] g1].
  cbn [fst snd] in Hu.
  destruct Hu as (Hb & Hs & Hl & Hq & Hh & Hsc & Hsu & Hst & Hgl).
  cbn [Game.enemies Game.surges Game.hero Game.score Game.state Game.glitches
       Game.set_surges Game.set_enemies].
  split; [exact Hb|].
  split; [exists shots; rewrite Hsu; repeat split; auto|].
  repeat split; auto.
Qed.

(** The theorem on sector 14 (19 enemies) after a sixtieth of a second:
    still 19 enemies. *)
Lemma enemies_turn_witness :
  length (Game.enemies (Game.enemies_phase (1 # 60) sector14)) = 19%nat.
Proof.
  destruct (enemies_turn (1 # 60) sector14) as (Hb & _).
  apply Forall2_length in Hb. rewrite <- Hb.
  exact (proj2 (proj2 (proj2 sector14_built))).
Defined.

(** ** Screen shake *)

Ltac game_fields :=
  cbn [fst snd Game.shake Game.fancy_vfx Game.hero Game.enemies Game.surges
       Game.glitches Game.score Game.rng Game.sfx_log
       Game.set_state Game.set_sector Game.set_score Game.set_highscore
       Game.set_hero Game.set_enemies Game.set_surges Game.set_glitches
       Game.set_shake Game.set_fancy_vfx Game.set_show_scans
       Game.set_oc_blast_timer Game.set_nat_timer Game.set_emit_row
       Game.set_emit_col Game.set_rng Game.set_sfx_log
       Game.sfx_play Game.spark Game.spawn_glitch].

Lemma shake_same (g g' : Game.t) :
  Game.shake g' = Game.shake g -> shake_ok g -> shake_ok g'.
Proof. unfold shake_ok. intros ->. auto. Qed.

Lemma add_shake_ok (a : Q) (g : Game.t) :
  0 <= a -> shake_ok g -> shake_ok (Game.add_shake a g).
Proof.
  unfold shake_ok, Game.add_shake. intros Ha [H0 H12].
  destruct (Game.fancy_vfx g); [|split; assumption].
  game_fields. unfold pymin.
  destruct (Qltb_cases (Game.shake g + a) 12) as [[E L] | [E L]]; rewrite E;
    split; lra.
Qed.

Lemma hero_phase_shake (dt : Q) (inp : Input) (g : Game.t) :
  shake_ok g -> shake_ok (Game.hero_phase dt inp g).
Proof. apply shake_same. reflexivity. Qed.

Lemma blast_phase_shake (inp : Input) (g : Game.t) :
  shake_ok g -> shake_ok (Game.blast_phase inp g).
Proof.
  intro Hg. unfold Game.blast_phase.
  destruct ((keys inp K_LSHIFT || keys inp K_RSHIFT)
            && Hero.ready_overclock (Game.hero g)); [|exact Hg].
  apply add_shake_ok; [unfold OC_BLAST_SHAKE_STRENGTH; lra|].
  revert Hg. apply shake_same. reflexivity.
Qed.

Lemma blast_shake_phase_shake (dt : Q) (g : Game.t) :
  shake_ok g -> shake_ok (Game.blast_shake_phase dt g).
Proof.
  intro Hg. unfold Game.blast_shake_phase.
  destruct (Qltb 0 (Game.oc_blast_timer g)); [|exact Hg].
  apply add_shake_ok; [unfold OC_BLAST_SHAKE_STRENGTH; lra|].
  revert Hg. apply shake_same. reflexivity.
Qed.

Lemma fire_phase_shake (inp : Input) (g : Game.t) :
  shake_ok g -> shake_ok (Game.fire_phase inp g).
Proof.
  intro Hg. unfold Game.fire_phase.
  destruct ((mouse_left inp || keys inp K_SPACE) && Hero.can_shoot (Game.hero g));
    [|exact Hg].
  unfold Hero.shoot.
  apply add_shake_ok; [unfold SHAKE_SHOOT; lra|].
  revert Hg. apply shake_same. reflexivity.
Qed.

Lemma emitter_update_shake (dt : Q) (m : SurgeEmitter.t) (g : Game.t) :
  Game.shake (snd (Game.emitter_update dt m g)) = Game.shake g.
Proof. unfold Game.emitter_update. break_lets; reflexivity. Qed.

Lemma natural_phase_shake (dt : Q) (g : Game.t) :
  shake_ok g -> shake_ok (Game.natural_phase dt g).
Proof.
  apply shake_same. unfold Game.natural_phase.
  set (g1 := if negb _ then _ else g).
  assert (E1 : Game.shake g1 = Game.shake g).
  { unfold g1. unfold SurgeEmitter.schedule, rand_between, uniform, randint, random.
    break_lets; reflexivity. }
  clearbody g1.
  pose proof (emitter_update_shake dt (Game.emit_row g1) g1) as E2.
  destruct (Game.emitter_update dt (Game.emit_row g1) g1) as [mr g2].
  cbn [snd] in *.
  pose proof (emitter_update_shake dt
                (Game.emit_col (Game.set_emit_row mr g2))
                (Game.set_emit_row mr g2)) as E3.
  destruct (Game.emitter_update dt (Game.emit_col (Game.set_emit_row mr g2))
              (Game.set_emit_row mr g2)) as [mc g4].
  cbn [snd Game.shake Game.set_emit_row Game.set_emit_col] in *. congruence.
Qed.

Lemma enemy_update_shake (dt : Q) (e : Enemy.t) (g : Game.t) :
  shake_ok g -> shake_ok (snd (Game.enemy_update dt e g)).
Proof.
  intro Hg.
  unfold Game.enemy_update, Game.Virus_update, Game.Bug_update,
    Game.Worm_update.
  destruct (Enemy.kind e);
    destruct (Enemy.common_move _ _ e (Game.rng g)) as [e1 r1];
    unfold rand_between, uniform, random;
    break_lets; cbn [snd];
    try (apply add_shake_ok; [lra|]);
    revert Hg; apply shake_same; reflexivity.
Qed.

Lemma update_enemies_shake (dt : Q) (es : list Enemy.t) (g : Game.t) :
  shake_ok g -> shake_ok (snd (Game.update_enemies dt es g)).
Proof.
  revert g. induction es as [|e rest IH]; intros g Hg; [exact Hg|].
  cbn [Game.update_enemies].
  pose proof (enemy_update_shake dt e g Hg) as H1.
  destruct (Game.enemy_update dt e g) as [[e' shots] g1]. cbn [snd] in H1.
  specialize (IH g1 H1).
  destruct (Game.update_enemies dt rest g1) as [[rest' more] g2].
  exact IH.
Qed.

Lemma enemies_phase_shake (dt : Q) (g : Game.t) :
  shake_ok g -> shake_ok (Game.enemies_phase dt g).
Proof.
  intro Hg. unfold Game.enemies_phase.
  pose proof (update_enemies_shake dt (Game.enemies g) g Hg) as H1.
  destruct (Game.update_enemies dt (Game.enemies g) g) as [[es new] g1].
  cbn [snd] in H1. revert H1. apply shake_same. reflexivity.
Qed.

Lemma mitosis_pair_shake (g0 : Game.t) (i j : nat) (st : Game.t * list Enemy.t) :
  Game.shake (fst st) = Game.shake g0 ->
  Game.shake (fst (Game.mitosis_pair i j st)) = Game.shake g0.
Proof.
  intros Hst. unfold Game.mitosis_pair. destruct st as [g to_add].
  cbn [fst] in Hst.
  destruct (nth_error (Game.enemies g) i) as [ei|]; [|exact Hst].
  destruct (nth_error (Game.enemies g) j) as [ej|]; [|exact Hst].
  destruct (negb (Enemy.same_type ei ej)); [exact Hst|].
  destruct (Qltb 0 (Enemy.rep_cd ei) || Qltb 0 (Enemy.rep_cd ej)); [exact Hst|].
  destruct (within _ _ _); [|exact Hst].
  destruct (MAX_ENEMIES_ON_FIELD <=? length (Game.enemies g) + length to_add)%nat;
    [exact Hst|].
  destruct (Game.mitosis_child ei ej (Game.rng g)) as [child r3].
  exact Hst.
Qed.

Lemma handle_enemy_mitosis_shake (g : Game.t) :
  shake_ok g -> shake_ok (Game.handle_enemy_mitosis g).
Proof.
  apply shake_same. unfold Game.handle_enemy_mitosis.
  set (n := length (Game.enemies g)).
  assert (Hinv :
    Game.shake (fst (fold_left (Game.mitosis_row n) (seq 0 n) (g, []))) =
    Game.shake g).
  { apply (fold_left_inv
             (fun st => Game.shake (fst st) = Game.shake g)); [|reflexivity].
    intros st i _ Hst. unfold Game.mitosis_row.
    apply (fold_left_inv
             (fun st => Game.shake (fst st) = Game.shake g)); [|exact Hst].
    intros st' j _ Hst'. now apply (mitosis_pair_shake g i j st'). }
  destruct (fold_left (Game.mitosis_row n) (seq 0 n) (g, [])) as [g1 to_add].
  cbn [fst] in Hinv.
  destruct to_add as [|c to_add]; [exact Hinv|]. exact Hinv.
Qed.

Lemma cancel_pair_shake (ss : list Surge.t) (i : nat) (si : Surge.t)
    (st : list nat * Game.t) (j : nat) :
  Game.shake (snd (Game.cancel_pair ss i si st j)) = Game.shake (snd st).
Proof.
  unfold Game.cancel_pair.
  destruct (Game.in_dead j (fst st)); [reflexivity|].
  destruct (nth_error ss j) as [sj|]; [|reflexivity].
  destruct (Game.clash si sj); [|reflexivity].
  destruct (Game.in_cancel_range si sj); [|reflexivity].
  destruct st as [dead g]. unfold Game.resolve_cancel.
  destruct (Owner_eqb (Surge.owner si) player || Owner_eqb (Surge.owner sj) player);
    reflexivity.
Qed.

Lemma handle_surge_cancels_shake (g : Game.t) :
  shake_ok g -> shake_ok (Game.handle_surge_cancels g).
Proof.
  apply shake_same.
  unfold Game.handle_surge_cancels, Game.cancel_rows.
  assert (Hinv : Game.shake
            (snd (fold_left (Game.cancel_row (Game.surges g))
                    (seq 0 (length (Game.surges g))) ([], g))) = Game.shake g).
  { apply (fold_left_inv (fun st => Game.shake (snd st) = Game.shake g));
      [|reflexivity].
    intros st i _ Hst. unfold Game.cancel_row.
    destruct (Game.in_dead i (fst st)); [exact Hst|].
    destruct (nth_error (Game.surges g) i) as [si|]; [|exact Hst].
    apply (fold_left_inv (fun st => Game.shake (snd st) = Game.shake g));
      [|exact Hst].
    intros st' j _ Hst'. now rewrite cancel_pair_shake. }
  destruct (fold_left _ _ _) as [dead g1]. cbn [snd] in Hinv.
  destruct dead; exact Hinv.
Qed.

Lemma hit_enemies_shake (s : Surge.t) (rest : list Enemy.t) :
  forall kept added g,
    Game.shake (snd (Game.hit_enemies s kept rest added g)) = Game.shake g.
Proof.
  induction rest as [|e rest' IH]; intros kept added g; [reflexivity|].
  cbn [Game.hit_enemies].
  destruct (within (Enemy.pos e) (Surge.pos s)
              (inject_Z (Enemy.r e + Surge.r s))); [|apply IH].
  unfold Enemy.take_damage. cbv zeta.
  set (e1 := Enemy.set_hp (Enemy.hp e - Surge.dmg s) e).
  set (g2 := if Owner_eqb (Surge.owner s) player then _ else _).
  assert (Hg2 : Game.shake g2 = Game.shake g)
    by (unfold g2; destruct (Owner_eqb (Surge.owner s) player); reflexivity).
  clearbody g2.
  set (tr := if (Enemy.hp e1 <=? 0)%Z then _ else _).
  assert (Htr : Game.shake (snd tr) = Game.shake g).
  { unfold tr. destruct (Enemy.hp e1 <=? 0)%Z; [|exact Hg2].
    destruct (Enemy.is_Virus e1).
    - destruct (Enemy.on_death e1 _) as [children r1]. exact Hg2.
    - exact Hg2. }
  clearbody tr. destruct tr as [[kept' added'] g3]. cbn [snd] in Htr.
  destruct (negb (Surge.pierce s)); [exact Htr|].
  now rewrite IH.
Qed.

Lemma hurt_shake (a : Q) (g : Game.t) :
  0 <= a -> shake_ok g ->
  shake_ok (let (landed, h) := Hero.hurt (Game.hero g) in
            if landed
            then Game.add_shake a (Game.sfx_play "hurt" (Game.set_hero h g))
            else Game.set_hero h g).
Proof.
  intros Ha Hg.
  destruct (Hero.hurt (Game.hero g)) as [landed h].
  destruct landed.
  - apply add_shake_ok; [exact Ha|]. revert Hg. apply shake_same. reflexivity.
  - revert Hg. apply shake_same. reflexivity.
Qed.

Lemma hit_surge_shake (s : Surge.t) (g : Game.t) :
  shake_ok g -> shake_ok (snd (Game.hit_surge s g)).
Proof.
  intro Hg. unfold Game.hit_surge.
  destruct (Game.is_friend (Surge.owner s)).
  - pose proof (hit_enemies_shake s (Game.enemies g) [] [] g) as Hk.
    destruct (Game.hit_enemies s [] (Game.enemies g) [] g) as [[es removed] g1].
    cbn [snd] in *. revert Hg. apply shake_same. exact Hk.
  - destruct (within _ _ _); [|exact Hg].
    pose proof (hurt_shake 6 g ltac:(lra) Hg) as Hh.
    destruct (Hero.hurt (Game.hero g)) as [landed h]. exact Hh.
Qed.

Lemma hit_surges_shake (copy : list Surge.t) (g : Game.t) :
  shake_ok g -> shake_ok (snd (Game.hit_surges copy g)).
Proof.
  revert g. induction copy as [|s rest IH]; intros g Hg; [exact Hg|].
  cbn [Game.hit_surges].
  pose proof (hit_surge_shake s g Hg) as H1.
  destruct (Game.hit_surge s g) as [stays g1]. cbn [snd] in H1.
  specialize (IH g1 H1).
  destruct (Game.hit_surges rest g1) as [left g2]. exact IH.
Qed.

Lemma handle_surge_hits_shake (g : Game.t) :
  shake_ok g -> shake_ok (Game.handle_surge_hits g).
Proof.
  intro Hg. unfold Game.handle_surge_hits.
  pose proof (hit_surges_shake (Game.surges g) g Hg) as H1.
  destruct (Game.hit_surges (Game.surges g) g) as [left g1]. cbn [snd] in H1.
  revert H1. apply shake_same. reflexivity.
Qed.

Lemma glitch_phase_shake (g : Game.t) :
  shake_ok g -> shake_ok (Game.glitch_phase g).
Proof.
  unfold Game.glitch_phase. apply fold_left_inv.
  intros g' ga _ Hg'. unfold Game.glitch_hit.
  destruct (within _ _ _); [|exact Hg'].
  pose proof (hurt_shake 5 g' ltac:(lra) Hg') as Hh.
  destruct (Hero.hurt (Game.hero g')) as [landed h]. exact Hh.
Qed.

Lemma win_lose_shake (g : Game.t) :
  shake_ok g -> shake_ok (Game.win_lose g).
Proof.
  apply shake_same. unfold Game.win_lose.
  destruct (negb (Hero.alive (Game.hero g))); [reflexivity|].
  destruct (Game.enemies g); reflexivity.
Qed.

Lemma shake_decay_shake (g : Game.t) :
  shake_ok g ->
  shake_ok (Game.shake_decay g) /\
  Game.shake (Game.shake_decay g) <= Game.shake g.
Proof.
  unfold shake_ok, Game.shake_decay. intros [H0 H12].
  destruct (Qltb 0 (Game.shake g)); [|repeat split; try assumption; lra].
  game_fields. unfold pymax.
  assert (Hc : SHAKE_DECAY * (1 / FPS) == 2 # 3) by reflexivity.
  destruct (Qltb_cases 0 (Game.shake g - SHAKE_DECAY * (1 / FPS)))
    as [[E L] | [E L]]; rewrite E; rewrite Hc in *; repeat split; lra.
Qed.

Lemma update_shake (dt : Q) (inp : Input) (g : Game.t) :
  shake_ok g -> shake_ok (Game.update dt inp g).
Proof.
  intro Hg.
  assert (Hgo : shake_ok
                  (Game.after_blast dt inp
                     (Game.blast_phase inp (Game.hero_phase dt inp g)))).
  { unfold Game.after_blast.
    apply shake_decay_shake, win_lose_shake, glitch_phase_shake,
      handle_surge_hits_shake, handle_surge_cancels_shake.
    match goal with |- shake_ok (Game.surges_phase _ ?x) =>
      apply (shake_same x); [reflexivity|] end.
    match goal with |- shake_ok (Game.glitch_decay _ ?x) =>
      apply (shake_same x); [reflexivity|] end.
    apply handle_enemy_mitosis_shake, enemies_phase_shake, natural_phase_shake,
      fire_phase_shake, blast_shake_phase_shake, blast_phase_shake,
      hero_phase_shake.
    exact Hg. }
  unfold Game.update. destruct (Game.state g); try exact Hgo; exact Hg.
Qed.

Lemma spawn_many_shake (new : Vec -> Rng -> Enemy.t * Rng) (n : nat)
    (g : Game.t) :
  Game.shake (Game.spawn_many new n g) = Game.shake g.
Proof.
  revert g. induction n as [|k IH]; intro g; [reflexivity|].
  cbn [Game.spawn_many].
  destruct (Game.random_grid_pos (Game.rng g)) as [p r1].
  destruct (new p r1) as [e r2]. now rewrite IH.
Qed.

Lemma build_sector_shake (v b w : Z) (g : Game.t) :
  Game.shake (Game.build_sector v b w g) = Game.shake g.
Proof.
  unfold Game.build_sector, rand_between, uniform, random.
  cbn [Game.shake Game.set_oc_blast_timer Game.set_emit_col
       Game.set_emit_row Game.set_nat_timer Game.set_rng Game.set_hero
       Game.set_glitches Game.set_surges].
  now rewrite !spawn_many_shake.
Qed.

Lemma set_state_shake (s : State) (g : Game.t) :
  Game.shake (Game.set_state s g) = Game.shake g.
Proof. reflexivity. Qed.

Lemma start_run_shake (g : Game.t) :
  Game.shake (Game.start_run g) = Game.shake g.
Proof.
  rewrite start_run_unfold, set_state_shake, build_sector_shake.
  reflexivity.
Qed.

Lemma next_sector_shake (g : Game.t) :
  Game.shake (Game.next_sector g) = Game.shake g.
Proof.
  rewrite next_sector_eq, set_state_shake, build_sector_shake.
  reflexivity.
Qed.

Lemma on_keydown_shake (k : Key) (g : Game.t) :
  Game.shake (Game.on_keydown k g) = Game.shake g.
Proof.
  unfold Game.on_keydown.
  set (g1 := if Game.Key_eqb k K_p && _ then _ else g).
  assert (H1 : Game.shake g1 = Game.shake g).
  { unfold g1.
    destruct (Game.Key_eqb k K_p
              && (State_eqb (Game.state g) play || State_eqb (Game.state g) paused));
      reflexivity. }
  clearbody g1.
  set (g2 := if Game.Key_eqb k K_v then _ else g1).
  assert (H2 : Game.shake g2 = Game.shake g)
    by (unfold g2; destruct (Game.Key_eqb k K_v); exact H1).
  clearbody g2.
  set (g3 := if Game.Key_eqb k K_m then _ else g2).
  assert (H3 : Game.shake g3 = Game.shake g)
    by (unfold g3; destruct (Game.Key_eqb k K_m); exact H2).
  clearbody g3.
  set (g4 := if Game.Key_eqb k K_r && _ then _ else g3).
  assert (H4 : Game.shake g4 = Game.shake g).
  { unfold g4. destruct (Game.Key_eqb k K_r && State_eqb (Game.state g3) gameover);
      [now rewrite start_run_shake | exact H3]. }
  clearbody g4.
  set (g5 := if State_eqb (Game.state g4) menu && _ then _ else g4).
  assert (H5 : Game.shake g5 = Game.shake g).
  { unfold g5.
    destruct (State_eqb (Game.state g4) menu
              && (Game.Key_eqb k K_SPACE || Game.Key_eqb k K_RETURN));
      [now rewrite start_run_shake | exact H4]. }
  clearbody g5.
  destruct (State_eqb (Game.state g5) sectorclear
            && (Game.Key_eqb k K_SPACE || Game.Key_eqb k K_RETURN));
    [now rewrite next_sector_shake | exact H5].
Qed.

Lemma on_mousedown_shake (b : Z) (g : Game.t) :
  Game.shake (Game.on_mousedown b g) = Game.shake g.
Proof.
  unfold Game.on_mousedown.
  set (g1 := if State_eqb (Game.state g) menu && _ then _ else g).
  assert (H1 : Game.shake g1 = Game.shake g).
  { unfold g1. destruct (State_eqb (Game.state g) menu && (b =? 1)%Z);
      [now rewrite start_run_shake | reflexivity]. }
  clearbody g1.
  destruct (State_eqb (Game.state g1) sectorclear && (b =? 1)%Z);
    [now rewrite next_sector_shake | exact H1].
Qed.

Lemma handle_events_shake (evs : list Event) (g g1 : Game.t) :
  Game.handle_events evs g = Some g1 -> Game.shake g1 = Game.shake g.
Proof.
  revert g. induction evs as [|ev evs IH]; intros g Hev.
  - cbn in Hev. now inversion Hev.
  - destruct ev as [|k|b|]; cbn [Game.handle_events] in Hev.
    + discriminate.
    + destruct (Game.Key_eqb k K_ESCAPE); [discriminate|].
      rewrite (IH _ Hev). apply on_keydown_shake.
    + rewrite (IH _ Hev). apply on_mousedown_shake.
    + now apply IH.
Qed.

Lemma frame_shake (evs : list Event) (inp : Input) (dt : Q) (g g' : Game.t) :
  shake_ok g -> Game.frame evs inp dt g = Some g' -> shake_ok g'.
Proof.
  intros Hg. unfold Game.frame.
  destruct (Game.handle_events evs g) as [g1|] eqn:Hev; [|discriminate].
  assert (H1 : shake_ok g1)
    by (revert Hg; apply shake_same; now apply (handle_events_shake evs)).
  assert (Hd : forall x, shake_ok x -> shake_ok (Game.draw x)).
  { intros x. apply shake_same. unfold Game.draw.
    destruct (Game.fancy_vfx x && Qltb 0 (Game.shake x)); reflexivity. }
  destruct (State_eqb (Game.state g1) paused); intro E; inversion E; subst.
  - now apply Hd.
  - apply Hd. now apply update_shake.
Qed.

(** X26. The screen shake is bounded. [add_shake] never takes it above
    12 or below what it was; the decay at the end of an update never
    takes it below 0; so an update keeps it within [0, 12], and over
    every session, whatever is fired, hit or toggled, the shake stays
    within [0, 12]. With the effects switched off nothing adds to it. *)
Theorem shake_always_bounded (g : Game.t) :
  (reachable g -> 0 <= Game.shake g /\ Game.shake g <= 12) /\
  (forall dt inp,
      0 <= Game.shake g /\ Game.shake g <= 12 ->
      0 <= Game.shake (Game.update dt inp g) /\
      Game.shake (Game.update dt inp g) <= 12) /\
  (forall a, 0 <= a -> Game.shake g <= 12 ->
             Game.shake g <= Game.shake (Game.add_shake a g) /\
             Game.shake (Game.add_shake a g) <= 12) /\
  (forall a, Game.fancy_vfx g = false -> Game.add_shake a g = g).
Proof.
  split; [|split; [|split]].
  - induction 1 as [r | g g' evs inp dt _ IH Hf].
    + unfold Game.init, rand_between, uniform, random. cbn [Game.shake Game.sfx_play
        Game.set_sfx_log]. split; lra.
    + exact (frame_shake evs inp dt g g' IH Hf).
  - intros dt inp Hg. exact (update_shake dt inp g Hg).
  - intros a Ha H12. unfold Game.add_shake.
    destruct (Game.fancy_vfx g); [|split; [lra | exact H12]].
    game_fields. unfold pymin.
    destruct (Qltb_cases (Game.shake g + a) 12) as [[E L] | [E L]]; rewrite E;
      split; lra.
  - intros a E. unfold Game.add_shake. now rewrite E.
Qed.

(** The theorem at the first frame of play. *)
Lemma shake_always_bounded_witness :
  0 <= Game.shake (Game.draw (Game.update (1 # 60) idle playing)) /\
  Game.shake (Game.draw (Game.update (1 # 60) idle playing)) <= 12.
Proof.
  apply (proj1 (shake_always_bounded _)).
  apply (reach_frame fresh _ [KEYDOWN K_SPACE] idle (1 # 60));
    [apply reach_init | reflexivity].
Defined.
